(** * Plan execution and workspace sandboxing of the agentic chat (g11.py)

    A shallow embedding of [execute_action] and of the generator
    [agent_chat_response] of [src/g11.py], with the properties of the plan
    execution loop, the cooperative halt and the workspace sandbox.

    Modelling choices.
    - Python values decoded by [json.loads] are the inductive [json]; a
      [dict] is an association list in insertion order with unique keys.
    - A [str] is held as the bytes of its UTF-8 text, a lone surrogate (which
      [json.loads] makes of an escape such as [\ud800]) as the three bytes
      ED A0..BF 80..BF.  Characters are counted and cut at the bytes that are
      not continuation bytes, [str.strip] removes the characters of
      [str.isspace], and [f.write] refuses a text that holds a lone
      surrogate.
    - Paths follow [pathlib.PurePosixPath]: an anchor and a list of names.
      The file system holds directories and regular files only (no symbolic
      links, no permissions, unlimited space), so [Path.resolve] is the
      lexical normalisation of [..].  The path strings of the actions are
      taken to hold no NUL and no lone surrogate.
    - The file system is a finite map from absolute canonical paths to nodes;
      system calls walk the path from the root as the kernel does, within the
      limits of Linux: a name of more than [NAME_MAX] bytes cannot be looked
      up or made, a path of [PATH_MAX] bytes or more is refused as a whole.
      [mkdir(parents=True)] keeps the directories it made before it failed.
    - Exceptions are values of [exn]; code that can raise lives in the monad
      [M], whose state survives a raised exception, as Python's heap does.
    - The generator is run against a halt oracle [halt_click]: whether the
      Halt button fires [request_halt] while the generator is suspended at its
      n-th [yield].  Every event is a snapshot of what was yielded.
    - Text produced by the Python runtime rather than by this program
      ([json.dumps], [repr], [str(exception)], [json.loads]) is a parameter. *)

From Stdlib Require Import ZArith String Ascii List Bool Lia.
From Stdlib Require Import Floats.PrimFloat.
From Stdlib Require Import Numbers.DecimalString.
From stdpp Require Import base option list gmap strings sorting.

Set Default Proof Using "Type".


(** ** Python values *)

#[local] Set Warnings "-register-all".

Inductive json : Type :=
| JNull
| JBool (b : bool)
| JInt (n : Z)
| JFloat (f : float)
| JStr (s : string)
| JArr (items : list json)
| JObj (fields : list (string * json)).

(** [bool(v)] *)
Definition truthy (v : json) : bool :=
  match v with
  | JNull => false
  | JBool b => b
  | JInt n => negb (Z.eqb n 0)
  | JFloat f => negb (PrimFloat.eqb f 0%float)
  | JStr s => negb (String.eqb s "")
  | JArr items => match items with [] => false | _ => true end
  | JObj fields => match fields with [] => false | _ => true end
  end.

(** [v == s] for a string literal [s] *)
Definition py_eq_str (v : json) (s : string) : bool :=
  match v with
  | JStr t => String.eqb t s
  | _ => false
  end.

Fixpoint dict_lookup (k : string) (d : list (string * json)) : option json :=
  match d with
  | [] => None
  | (k', v) :: d' => if String.eqb k' k then Some v else dict_lookup k d'
  end.

(** [d.get(k, dflt)]; [d.get(k)] is [dict_get k d JNull] *)
Definition dict_get (k : string) (d : list (string * json)) (dflt : json) : json :=
  match dict_lookup k d with
  | Some v => v
  | None => dflt
  end.

(** [k in d] *)
Definition dict_has (k : string) (d : list (string * json)) : bool :=
  match dict_lookup k d with
  | Some _ => true
  | None => false
  end.

(** ** Strings *)

Definition nl : string := String (ascii_of_nat 10) "".

(** decimal rendering of [{n}] in an f-string *)
Definition show_nat (n : nat) : string := NilZero.string_of_uint (Nat.to_uint n).

(** A [str] is held as the bytes of its UTF-8 text (a lone surrogate as
    the three bytes ED A0..BF 80..BF), so a character starts at every byte
    that is not a continuation byte 10xxxxxx. *)
Definition is_continuation (c : ascii) : bool :=
  let n := nat_of_ascii c in
  Nat.leb 128 n && Nat.ltb n 192.

(** [len(s)]: the number of characters *)
Fixpoint py_len (s : string) : nat :=
  match s with
  | EmptyString => 0
  | String c s' => (if is_continuation c then 0 else 1) + py_len s'
  end.

(** [s[:n]]: the first [n] characters *)
Fixpoint str_take (n : nat) (s : string) : string :=
  match s with
  | EmptyString => ""
  | String c s' =>
      if is_continuation c then String c (str_take n s')
      else match n with
           | 0 => ""
           | S n' => String c (str_take n' s')
           end
  end.

(** a lone surrogate, which the "utf-8" codec refuses to encode: in UTF-8
    text the byte ED is followed by 80..9F *)
Fixpoint has_surrogate (s : string) : bool :=
  match s with
  | EmptyString => false
  | String c s' =>
      match s' with
      | String c2 _ => Nat.eqb (nat_of_ascii c) 237 && Nat.leb 160 (nat_of_ascii c2)
      | EmptyString => false
      end
      || has_surrogate s'
  end.

Definition encodable (s : string) : bool := negb (has_surrogate s).

(** the rest of [s] after the literal [p], when [s] starts with [p] *)
Fixpoint strip_prefix (p s : string) : option string :=
  match p, s with
  | EmptyString, _ => Some s
  | String a p', String b s' => if Ascii.eqb a b then strip_prefix p' s' else None
  | String _ _, EmptyString => None
  end.

(** [s.split(sep, 1)] as [(before, after)] of the first occurrence of [sep];
    [None] when [sep] does not occur, i.e. when [sep in s] is false *)
Fixpoint split_once (sep s : string) : option (string * string) :=
  match strip_prefix sep s with
  | Some rest => Some ("", rest)
  | None =>
      match s with
      | EmptyString => None
      | String c s' =>
          match split_once sep s' with
          | Some (a, b) => Some (String c a, b)
          | None => None
          end
      end
  end.

Fixpoint str_rev_onto (s acc : string) : string :=
  match s with
  | EmptyString => acc
  | String c s' => str_rev_onto s' (String c acc)
  end.

Definition str_rev (s : string) : string := str_rev_onto s "".

(** the code points [c] with [c.isspace()]: the ASCII controls and the
    space, then U+0085, U+00A0, U+1680, U+2000..U+200A, U+2028, U+2029,
    U+202F, U+205F and U+3000 *)
Definition whitespace : list N :=
  [9; 10; 11; 12; 13; 28; 29; 30; 31; 32; 133; 160; 5760;
   8192; 8193; 8194; 8195; 8196; 8197; 8198; 8199; 8200; 8201; 8202;
   8232; 8233; 8239; 8287; 12288]%N.

(** the UTF-8 text of a code point below U+10000 *)
Definition utf8 (cp : N) : string :=
  if (cp <? 128)%N then String (ascii_of_N cp) ""
  else if (cp <? 2048)%N then
    String (ascii_of_N (192 + cp / 64)) (String (ascii_of_N (128 + cp mod 64)) "")
  else
    String (ascii_of_N (224 + cp / 4096))
      (String (ascii_of_N (128 + (cp / 64) mod 64))
         (String (ascii_of_N (128 + cp mod 64)) "")).

Definition space_texts : list string := map utf8 whitespace.

(** [s] without its first character, when that is one of [texts] *)
Fixpoint drop_first (texts : list string) (s : string) : option string :=
  match texts with
  | [] => None
  | w :: texts' =>
      match strip_prefix w s with
      | Some rest => Some rest
      | None => drop_first texts' s
      end
  end.

(** drop leading characters of [texts]; every step removes a byte at
    least, so [String.length s] steps are enough *)
Fixpoint lstrip_by (texts : list string) (fuel : nat) (s : string) : string :=
  match fuel with
  | 0 => s
  | S fuel' =>
      match drop_first texts s with
      | Some rest => lstrip_by texts fuel' rest
      | None => s
      end
  end.

(** [s.lstrip()] *)
Definition lstrip (s : string) : string := lstrip_by space_texts (String.length s) s.

(** [s.rstrip()]: the same from the end, on the reversed bytes *)
Definition rstrip (s : string) : string :=
  str_rev (lstrip_by (map str_rev space_texts) (String.length s) (str_rev s)).

(** [s.strip()] *)
Definition strip (s : string) : string := rstrip (lstrip s).

(** a text made of some of [texts], one after the other *)
Inductive made_of (texts : list string) : string -> Prop :=
| made_of_nil : made_of texts ""
| made_of_cons (w r : string) : In w texts -> made_of texts r -> made_of texts (w +:+ r).

(** ** Paths (pathlib, POSIX flavour) *)

Inductive anchor := NoRoot | Slash | DoubleSlash.

Record PurePath := MkPath { root_of : anchor; names : list string }.

Global Instance anchor_eq_dec : EqDecision anchor.
Proof. solve_decision. Defined.
Global Instance PurePath_eq_dec : EqDecision PurePath.
Proof. solve_decision. Defined.

(** the text between separators, empty pieces included *)
Fixpoint split_slash (s cur : string) : list string :=
  match s with
  | EmptyString => [cur]
  | String c s' =>
      if Ascii.eqb c "/" then cur :: split_slash s' ""
      else split_slash s' (cur +:+ String c "")
  end.

Definition keep_name (n : string) : bool :=
  negb (String.eqb n "") && negb (String.eqb n ".").

(** exactly two leading slashes are an anchor of their own *)
Definition parse_root (s : string) : anchor :=
  match s with
  | String "/" (String "/" (String "/" _)) => Slash
  | String "/" (String "/" _) => DoubleSlash
  | String "/" _ => Slash
  | _ => NoRoot
  end.

(** [PurePosixPath(s)]: repeated separators and [.] collapse, [..] stays *)
Definition parse_path (s : string) : PurePath :=
  MkPath (parse_root s) (filter (fun n => keep_name n = true) (split_slash s "")).

(** [base.joinpath(s)]: an anchored argument replaces the base *)
Definition joinpath (base : PurePath) (s : string) : PurePath :=
  let arg := parse_path s in
  match root_of arg with
  | NoRoot => MkPath (root_of base) (names base ++ names arg)
  | _ => arg
  end.

(** [..] pops a name, and stays at the root there; [acc] is reversed *)
Fixpoint normalise (acc : list string) (ns : list string) : list string :=
  match ns with
  | [] => rev acc
  | n :: ns' =>
      if String.eqb n ".." then normalise (tl acc) ns'
      else normalise (n :: acc) ns'
  end.

(** [p.resolve()] of an absolute path on a file system without links *)
Definition resolve (p : PurePath) : PurePath :=
  MkPath Slash (normalise [] (names p)).

Fixpoint proper_prefixes (l : list string) : list (list string) :=
  match l with
  | [] => []
  | x :: l' => [] :: map (cons x) (proper_prefixes l')
  end.

(** [p.parents]: the proper ancestors, nearest first *)
Definition parents (p : PurePath) : list PurePath :=
  map (MkPath (root_of p)) (rev (proper_prefixes (names p))).

(** [p.parent] on names; the root is its own parent *)
Definition parent (p : list string) : list string := removelast p.

(** ** File system *)

Inductive node :=
| Dir
| File (content : string).

Global Instance node_eq_dec : EqDecision node.
Proof. solve_decision. Defined.

Abbreviation FS := (gmap (list string) node).

Inductive exn :=
| FileNotFoundError (p : list string)
| FileExistsError (p : list string)
| NotADirectoryError (p : list string)
| IsADirectoryError (p : list string)
| FileNameTooLong (p : list string)
| UnicodeEncodeError (text : string)
| TypeError (culprit : json)
| AttributeError (receiver : json)
| ValueError (msg : string)
| JSONDecodeError (doc : string)
| ModelCallError (msg : string).

Inductive errno := ENOENT | ENOTDIR | ENAMETOOLONG.

(** the limits of Linux: the bytes of a name, and of a path with the NUL
    that ends it *)
Definition NAME_MAX : nat := 255.
Definition PATH_MAX : nat := 4096.

Definition name_too_long (n : string) : bool := Nat.ltb NAME_MAX (String.length n).

(** the bytes of [str(p)]: a slash before every name *)
Definition path_bytes (p : list string) : nat :=
  match p with
  | [] => 1
  | _ => list_sum (map (fun n => S (String.length n)) p)
  end.

Definition path_too_long (p : list string) : bool := Nat.leb PATH_MAX (path_bytes p).

(** kernel path walk: the node at [cur ++ rest], every name on the way
    being looked up in a directory.  A name that is not found is reported as
    too long when it exceeds [NAME_MAX]. *)
Fixpoint walk (fs : FS) (cur rest : list string) : errno + node :=
  match fs !! cur with
  | None => inl (if name_too_long (List.last cur "") then ENAMETOOLONG else ENOENT)
  | Some nd =>
      match rest with
      | [] => inr nd
      | n :: rest' =>
          match nd with
          | Dir => walk fs (cur ++ [n]) rest'
          | File _ => inl ENOTDIR
          end
      end
  end.

Definition stat (fs : FS) (p : list string) : errno + node := walk fs [] p.

(** [Path.is_dir()] *)
Definition is_dir (fs : FS) (p : list string) : bool :=
  match stat fs p with
  | inr Dir => true
  | _ => false
  end.

(** [os.mkdir(p)]: the path is refused as a whole when it exceeds
    [PATH_MAX], before any name is looked up *)
Definition os_mkdir (fs : FS) (p : list string) : exn + FS :=
  if path_too_long p then inl (FileNameTooLong p)
  else
    match p with
    | [] => inl (FileExistsError p)
    | _ =>
        match stat fs (parent p) with
        | inl ENOENT => inl (FileNotFoundError p)
        | inl ENOTDIR => inl (NotADirectoryError p)
        | inl ENAMETOOLONG => inl (FileNameTooLong p)
        | inr (File _) => inl (NotADirectoryError p)
        | inr Dir =>
            match fs !! p with
            | Some _ => inl (FileExistsError p)
            | None =>
                if name_too_long (List.last p "") then inl (FileNameTooLong p)
                else inr (<[p := Dir]> fs)
            end
        end
    end.

(** [Path.mkdir(parents=False, exist_ok=True)]: an [OSError] other than
    [FileNotFoundError] passes if the path is a directory; on a name that is
    too long [is_dir] raises the same error again *)
Definition mkdir_exist_ok (fs : FS) (p : list string) : exn + FS :=
  match os_mkdir fs p with
  | inr fs' => inr fs'
  | inl (FileNotFoundError q) => inl (FileNotFoundError q)
  | inl (FileNameTooLong q) => inl (FileNameTooLong q)
  | inl e => if is_dir fs p then inr fs else inl e
  end.

(** [Path.mkdir(parents=True, exist_ok=True)] of the path [rev rp]: try
    [os.mkdir]; on [FileNotFoundError] make the parent the same way and
    retry without [parents]; any other [OSError] passes if the path is a
    directory.  The recursion is on the reversed path, whose tail is the
    parent.  The directories made before a failure stay: the result is the
    file system as it stands, with the exception if one was raised. *)
Fixpoint mkdir_parents (fs : FS) (rp : list string) : FS * option exn :=
  match os_mkdir fs (rev rp) with
  | inr fs' => (fs', None)
  | inl (FileNotFoundError q) =>
      match rp with
      | [] => (fs, Some (FileNotFoundError q))
      | _ :: rparent =>
          match mkdir_parents fs rparent with
          | (fs1, Some e) => (fs1, Some e)
          | (fs1, None) =>
              match mkdir_exist_ok fs1 (rev rp) with
              | inr fs2 => (fs2, None)
              | inl e => (fs1, Some e)
              end
          end
      end
  | inl (FileNameTooLong q) => (fs, Some (FileNameTooLong q))
  | inl e => if is_dir fs (rev rp) then (fs, None) else (fs, Some e)
  end.

Definition path_mkdir (fs : FS) (p : list string) : FS * option exn :=
  mkdir_parents fs (rev p).

(** [open(p, "w")]: the file is created or truncated *)
Definition open_w (fs : FS) (p : list string) : exn + FS :=
  if path_too_long p then inl (FileNameTooLong p)
  else
    match stat fs (parent p) with
    | inl ENOENT => inl (FileNotFoundError p)
    | inl ENOTDIR => inl (NotADirectoryError p)
    | inl ENAMETOOLONG => inl (FileNameTooLong p)
    | inr (File _) => inl (NotADirectoryError p)
    | inr Dir =>
        match fs !! p with
        | Some Dir => inl (IsADirectoryError p)
        | Some (File _) => inr (<[p := File ""]> fs)
        | None =>
            if name_too_long (List.last p "") then inl (FileNameTooLong p)
            else inr (<[p := File ""]> fs)
        end
    end.

(** [f.write(content)] on the file just opened, then the [with] closes it:
    the text is encoded before anything is written, so a value that is no
    [str] and a text that cannot be encoded leave the file empty *)
Definition write_close (fs : FS) (p : list string) (content : json) : FS * option exn :=
  match content with
  | JStr c =>
      if encodable c then (<[p := File c]> fs, None)
      else (fs, Some (UnicodeEncodeError c))
  | _ => (fs, Some (TypeError content))
  end.

(** *** Preconditions on the file system *)

(** [mkdir -p] passes [q]: a directory, or nothing yet under a name that
    can be made *)
Definition passable (fs : FS) (q : list string) : bool :=
  match fs !! q with
  | Some Dir => true
  | Some (File _) => false
  | None => negb (name_too_long (List.last q ""))
  end.

(** what [mkdir -p] needs: the path is within [PATH_MAX], the root exists,
    no regular file lies at [p] or at an ancestor of [p], and every missing
    name on the way is within [NAME_MAX] *)
Definition makeable (fs : FS) (p : list string) : bool :=
  negb (path_too_long p)
  && bool_decide (fs !! [] = Some Dir)
  && forallb (passable fs) (proper_prefixes p ++ [p]).

(** what writing the file [p] needs: every ancestor of [p] can be made, the
    path is within [PATH_MAX], and [p] is a regular file or nothing yet under
    a name that can be made *)
Definition writable (fs : FS) (p : list string) : bool :=
  makeable fs (parent p)
  && negb (path_too_long p)
  && match fs !! p with
     | Some Dir => false
     | Some (File _) => true
     | None => negb (name_too_long (List.last p ""))
     end.

(** every name of the path is within [NAME_MAX] and the path within
    [PATH_MAX] *)
Definition within_limits (p : list string) : bool :=
  negb (path_too_long p) && forallb (fun n => negb (name_too_long n)) p.

(** the file system after [mkdir -p p]: every prefix of [p] a directory,
    the rest as before *)
Definition made (fs fs1 : FS) (p : list string) : Prop :=
  forall q, fs1 !! q = if bool_decide (q `prefix_of` p) then Some Dir else fs !! q.

(** the dictionary [d] is an action of the given kind on [path], with the
    text [content] *)
Definition action_is (d : list (string * json)) (kind path content : string) : Prop :=
  dict_get "type" d JNull = JStr kind
  /\ dict_get "path" d JNull = JStr path
  /\ dict_get "content" d (JStr "") = JStr content.

(** [fs1] is [fs] with some missing prefixes of [p] made directories, each
    in a directory: no entry of [fs] is altered or removed *)
Definition extends_dirs (fs fs1 : FS) (p : list string) : Prop :=
  forall q, fs1 !! q = fs !! q
            \/ (fs !! q = None /\ fs1 !! q = Some Dir /\ q `prefix_of` p /\ q ≠ []
                /\ fs1 !! parent q = Some Dir).

(** a well-formed tree: the root is a directory and every entry lies in a
    directory *)
Definition wf_fs (fs : FS) : bool :=
  bool_decide (fs !! [] = Some Dir)
  && forallb (fun kv : list string * node =>
                match kv.1 with
                | [] => true
                | _ => bool_decide (fs !! parent kv.1 = Some Dir)
                end) (map_to_list fs).

(** ** State and exceptions *)

(** A computation over a mutable store [S] that returns or raises; the
    store as it stands is kept in both cases. *)
Definition M (S A : Type) : Type := S -> S * (exn + A).

Global Instance M_ret {S} : MRet (M S) := fun A (a : A) s => (s, inr a).

Global Instance M_bind {S} : MBind (M S) := fun A B (k : A -> M S B) (c : M S A) s =>
  match c s with
  | (s', inr a) => k a s'
  | (s', inl e) => (s', inl e)
  end.

Definition pass {S} : M S unit := mret tt.

Definition raise {S A} (e : exn) : M S A := fun s => (s, inl e).

(** [try: body  except Exception as e: handler(e)] *)
Definition try_except {S A} (body : M S A) (handler : exn -> M S A) : M S A := fun s =>
  match body s with
  | (s', inr a) => (s', inr a)
  | (s', inl e) => handler e s'
  end.

(** a system call on the file system *)
Definition fs_op (op : FS -> exn + FS) : M FS unit := fun fs =>
  match op fs with
  | inl e => (fs, inl e)
  | inr fs' => (fs', inr tt)
  end.

(** [p.mkdir(parents=True, exist_ok=True)] *)
Definition mkdir_p (p : list string) : M FS unit := fun fs =>
  match path_mkdir fs p with
  | (fs', None) => (fs', inr tt)
  | (fs', Some e) => (fs', inl e)
  end.

Definition fs_write (p : list string) (content : json) : M FS unit := fun fs =>
  match write_close fs p content with
  | (fs', None) => (fs', inr tt)
  | (fs', Some e) => (fs', inl e)
  end.

(** ** Conversation log, events and the state of a run *)

Record entry := { role : string; content : json }.

(** what one [yield] hands to the UI: the log, [controls['halt_requested']]
    and the [interactive] flag of the Halt button *)
Record event := {
  ev_history : list entry;
  ev_halt_requested : bool;
  ev_interactive : bool
}.

(** [history] and [controls] are the objects shared with the caller, [disk]
    the file system, [emitted] the events yielded so far.  [attempted] is
    ghost state: the arguments [execute_action] was called with. *)
Record state := {
  history : list entry;
  halt_requested : bool;
  disk : FS;
  emitted : list event;
  attempted : list json
}.

Definition set_history (h : list entry) (s : state) : state :=
  {| history := h; halt_requested := halt_requested s; disk := disk s;
     emitted := emitted s; attempted := attempted s |}.
Definition set_halt (b : bool) (s : state) : state :=
  {| history := history s; halt_requested := b; disk := disk s;
     emitted := emitted s; attempted := attempted s |}.
Definition set_disk (fs : FS) (s : state) : state :=
  {| history := history s; halt_requested := halt_requested s; disk := fs;
     emitted := emitted s; attempted := attempted s |}.
Definition set_emitted (evs : list event) (s : state) : state :=
  {| history := history s; halt_requested := halt_requested s; disk := disk s;
     emitted := evs; attempted := attempted s |}.
Definition set_attempted (acts : list json) (s : state) : state :=
  {| history := history s; halt_requested := halt_requested s; disk := disk s;
     emitted := emitted s; attempted := acts |}.

(** what the UI shows of an event: the log and whether Halt can be clicked *)
Definition ev_view (e : event) : list entry * bool := (ev_history e, ev_interactive e).

(** [request_halt(controls)] *)
Definition request_halt (s : state) : state := set_halt true s.

(** ** The helpers of the prompt *)

(** [format_gemini_history(gradio_history)], lines 74 to 83: the loop over
    the items, appending to [gemini_history] *)
Definition format_gemini_history (gradio_history : list (list (string * json))) : list json :=
  fold_left
    (fun gemini_history item =>
       let role := dict_get "role" item JNull in
       let content := dict_get "content" item (JStr "") in
       let gemini_role := if py_eq_str role "assistant" then "model" else "user" in
       if truthy content then
         gemini_history ++ [JObj [("role", JStr gemini_role); ("parts", JArr [content])]]
       else gemini_history)
    gradio_history [].

(** the dictionary a log entry is *)
Definition entry_dict (e : entry) : list (string * json) :=
  [("role", JStr (role e)); ("content", content e)].

(** [p < q] on paths: component by component, a component as [str], which
    on UTF-8 text is byte by byte *)
Fixpoint path_compare (p q : list string) : comparison :=
  match p, q with
  | [], [] => Eq
  | [], _ :: _ => Lt
  | _ :: _, [] => Gt
  | x :: p', y :: q' =>
      match String.compare x y with
      | Eq => path_compare p' q'
      | c => c
      end
  end.

Definition path_le (p q : list string) : Prop := path_compare p q ≠ Gt.

Global Instance path_le_dec : RelDecision path_le.
Proof. intros p q. unfold path_le. destruct (path_compare p q); [left | left | right]; congruence. Defined.

(** [sorted(items)] *)
Definition sorted (items : list (list string)) : list (list string) :=
  merge_sort path_le items.

(** [base_path.rglob('*')], in the order of the scan: the entries the
    recursive scan of [base_path] reaches are those lying in a directory at or
    below [base_path]; nothing when [base_path] is no directory *)
Definition rglob (fs : FS) (base_path : list string) : list (list string) :=
  List.filter
    (fun item =>
       match item with
       | [] => false
       | _ => bool_decide (base_path `prefix_of` parent item) && is_dir fs (parent item)
       end)
    (map fst (map_to_list fs)).

(** [p.name] *)
Definition path_name (p : list string) : string := List.last p "".

(** [s * n] *)
Fixpoint str_repeat (s : string) (n : nat) : string :=
  match n with
  | 0 => ""
  | S n' => s +:+ str_repeat s n'
  end.

Definition folder_icon : string := "📁".
Definition file_icon : string := "📄".

(** the line of one item, lines 90 to 93 *)
Definition structure_line (fs : FS) (base_path item : list string) : string :=
  let depth := length (drop (length base_path) item) - 1 in
  let indent := str_repeat "  " depth in
  let prefix := if is_dir fs item then folder_icon else file_icon in
  indent +:+ prefix +:+ " " +:+ path_name item.

(** [get_workspace_structure(base_path)], lines 85 to 98.  On this file
    system nothing in the [try] block raises, so the [except] branch is not
    reached. *)
Definition get_workspace_structure (fs : FS) (base_path : list string) : string :=
  let structure := map (structure_line fs base_path) (sorted (rglob fs base_path)) in
  match structure with
  | [] => "(Workspace '" +:+ path_name base_path +:+ "' is empty)"
  | _ => "Current Workspace Structure ('" +:+ path_name base_path +:+ "'):" +:+ nl
           +:+ String.concat nl structure
  end.

(** ** Sample inputs

    Concrete stand-ins for the runtime's renderers and a small workspace,
    used to evaluate the model. *)

Definition sample_workspace : list string := ["home"; "user"; "agent_workspace"].

Definition sample_repr (v : json) : string :=
  match v with
  | JNull => "None"
  | JBool true => "True"
  | JBool false => "False"
  | _ => "<object>"
  end.

Definition show_path (p : list string) : string :=
  match p with
  | [] => "/"
  | _ => fold_right (fun n acc => "/" +:+ n +:+ acc) "" p
  end.

Definition sample_exc_str (e : exn) : string :=
  match e with
  | FileNotFoundError p => "[Errno 2] No such file or directory: '" +:+ show_path p +:+ "'"
  | FileExistsError p => "[Errno 17] File exists: '" +:+ show_path p +:+ "'"
  | NotADirectoryError p => "[Errno 20] Not a directory: '" +:+ show_path p +:+ "'"
  | IsADirectoryError p => "[Errno 21] Is a directory: '" +:+ show_path p +:+ "'"
  | FileNameTooLong p => "[Errno 36] File name too long: '" +:+ show_path p +:+ "'"
  | UnicodeEncodeError _ => "'utf-8' codec can't encode character: surrogates not allowed"
  | TypeError _ => "expected str"
  | AttributeError _ => "object has no attribute 'get'"
  | ValueError msg => msg
  | JSONDecodeError _ => "Expecting value: line 1 column 1 (char 0)"
  | ModelCallError msg => msg
  end.

Definition sample_dumps (v : json) : string := "{...}".

Definition dq : string := String (ascii_of_nat 34) EmptyString.

Definition quoted (s : string) : string := dq +:+ s +:+ dq.

(** [{"response_type": "plan", "plan_steps": <steps>}] *)
Definition plan_doc (steps : string) : string :=
  "{" +:+ quoted "response_type" +:+ ": " +:+ quoted "plan" +:+ ", "
      +:+ quoted "plan_steps" +:+ ": " +:+ steps +:+ "}".

(** [{"type": <type>, "path": <path>}] and [{"type": <type>}] *)
Definition step_doc (type path : string) : string :=
  "{" +:+ quoted "type" +:+ ": " +:+ quoted type +:+ ", "
      +:+ quoted "path" +:+ ": " +:+ quoted path +:+ "}".

Definition step_doc_no_path (type : string) : string :=
  "{" +:+ quoted "type" +:+ ": " +:+ quoted type +:+ "}".

Definition plan_value (steps : list json) : json :=
  JObj [("response_type", JStr "plan"); ("plan_steps", JArr steps)].

Definition step_value (type path : string) : json :=
  JObj [("type", JStr type); ("path", JStr path)].

Definition doc_empty_plan : string := plan_doc "[]".

Definition doc_folder_plan : string :=
  plan_doc ("[" +:+ step_doc "create_folder" "app" +:+ "]").

Definition doc_missing_path_plan : string :=
  plan_doc ("[" +:+ step_doc "create_folder" "app" +:+ ", "
                +:+ step_doc_no_path "create_file" +:+ "]").

(** [json.loads] on the documents used below; every other text is taken
    to be malformed *)
Definition sample_loads (doc : string) : option json :=
  if String.eqb doc doc_empty_plan then Some (plan_value [])
  else if String.eqb doc doc_folder_plan then
    Some (plan_value [step_value "create_folder" "app"])
  else if String.eqb doc doc_missing_path_plan then
    Some (plan_value [step_value "create_folder" "app"; JObj [("type", JStr "create_file")]])
  else if String.eqb doc "[1, 2]" then Some (JArr [JInt 1; JInt 2])
  else None.

(** [json.loads] taken to decode every text to [v] *)
Definition loads_as (v : json) (doc : string) : option json := Some v.

(** [{"response_type": "informational", "message": "Hello"}] *)
Definition hello_value : json :=
  JObj [("response_type", JStr "informational"); ("message", JStr "Hello")].

(** a plan whose second step is a string *)
Definition stray_step_value : json :=
  plan_value [step_value "create_folder" "app"; JStr "oops"].

(** a plan whose second language is a number *)
Definition bad_language_value : json :=
  JObj [("response_type", JStr "plan");
        ("plan_steps", JArr [step_value "create_folder" "app"]);
        ("languages_used", JArr [JStr "Python"; JInt 3])].

(** a model reply holding [doc] in a fenced block *)
Definition fenced (doc : string) : string :=
  "Here is the plan." +:+ nl +:+ "```json" +:+ nl +:+ doc +:+ nl +:+ "```" +:+ nl.

Definition never_clicked (n : nat) : bool := false.

(** the text [json.loads] makes of the escape [\ud800]: one lone surrogate *)
Definition lone_surrogate : string :=
  String (ascii_of_nat 237) (String (ascii_of_nat 160) (String (ascii_of_nat 128) "")).

(** a name of 300 bytes *)
Definition long_name : string := str_repeat "x" 300.

(** [/], [/home/user/agent_workspace] and [/tmp], all directories *)
Definition sample_fs : FS :=
  <[ ["tmp"] := Dir ]>
    (<[ sample_workspace := Dir ]>
       (<[ ["home"; "user"] := Dir ]> (<[ ["home"] := Dir ]> (<[ [] := Dir ]> ∅)))).

Definition action_fields (type path content : string) : list (string * json) :=
  [("type", JStr type); ("path", JStr path); ("content", JStr content)].

Definition mk_action (type path content : string) : json :=
  JObj (action_fields type path content).

(** the sample workspace holding the regular file [notes] *)
Definition sample_fs_with_notes : FS :=
  <[ sample_workspace ++ ["notes"] := File "todo" ]> sample_fs.

(** the sample workspace holding the directory [docs] *)
Definition sample_fs_with_docs : FS :=
  <[ sample_workspace ++ ["docs"] := Dir ]> sample_fs.

Definition sample_state (fs : FS) : state :=
  {| history := []; halt_requested := false; disk := fs; emitted := []; attempted := [] |}.

(** ** The agent *)

Section Agent.

(** the names of the resolved [WORKSPACE_DIR] *)
Variable workspace : list string.
(** [str(v)] of a value that is not a [str] *)
Variable py_repr : json -> string.
(** [str(e)] of a caught exception *)
Variable exc_str : exn -> string.
(** [json.dumps(v, indent=2)] *)
Variable json_dumps : json -> string.
(** [json.loads(s)], [None] when it raises *)
Variable json_loads : string -> option json.
(** [halt_click n]: [request_halt] runs while the generator is suspended
    at its n-th [yield], counted from 0 *)
Variable halt_click : nat -> bool.

Definition WORKSPACE_DIR : PurePath := MkPath Slash workspace.

(** [{v}] in an f-string *)
Definition py_str (v : json) : string :=
  match v with
  | JStr s => s
  | _ => py_repr v
  end.

(** the [try] block of [execute_action] *)
Definition action_body (action_type path_str content : json) : M FS (bool * string) :=
  match path_str with
  | JStr p =>
      let joined := joinpath WORKSPACE_DIR p in
      let target_path := resolve joined in
      let dispatch : M FS (bool * string) :=
        if py_eq_str action_type "create_folder" then
          mkdir_p (names target_path);;
          mret (true, "Folder created/ensured: " +:+ p)
        else if py_eq_str action_type "create_file" || py_eq_str action_type "edit_file" then
          mkdir_p (parent (names target_path));;
          fs_op (fun fs => open_w fs (names target_path));;
          fs_write (names target_path) content;;
          let verb := if py_eq_str action_type "create_file" then "Created" else "Edited" in
          mret (true, "File " +:+ verb +:+ ": " +:+ p)
        else mret (false, "Error: Unknown action type '" +:+ py_str action_type +:+ "'.")
      in
      if negb (bool_decide (WORKSPACE_DIR ∈ parents target_path))
         && negb (bool_decide (target_path = WORKSPACE_DIR))
      then
        if negb (py_eq_str action_type "create_folder"
                 && bool_decide (target_path = joined))
        then mret (false, "Error: Path '" +:+ p +:+ "' is outside the allowed workspace.")
        else dispatch
      else dispatch
  | _ => raise (TypeError path_str)
  end.

(** [execute_action(action)]; [action.get] raises on a value that is not a
    [dict], outside the [try] *)
Definition execute_action (action : json) : M FS (bool * string) :=
  match action with
  | JObj d =>
      let action_type := dict_get "type" d JNull in
      let path_str := dict_get "path" d JNull in
      let content := dict_get "content" d (JStr "") in
      if negb (truthy action_type) || negb (truthy path_str)
      then mret (false, "Error: Action type or path missing.")
      else
        try_except (action_body action_type path_str content)
          (fun e => mret (false, "Error performing '" +:+ py_str action_type +:+ "' on '"
                                   +:+ py_str path_str +:+ "': " +:+ exc_str e))
  | _ => raise (AttributeError action)
  end.

(** *** The generator *)

Definition get_state : M state state := fun s => (s, inr s).

Definition append_assistant (content : json) : M state unit := fun s =>
  (set_history (history s ++ [Build_entry "assistant" content]) s, inr tt).

Definition say (text : string) : M state unit := append_assistant (JStr text).

(** the log entry of an assistant message *)
Definition assistant (text : string) : entry := Build_entry "assistant" (JStr text).

(** [yield history, controls, gr.update(interactive=b)]: the consumer
    receives the current log and flag; [request_halt] may run before the
    generator is resumed *)
Definition yield (interactive : bool) : M state unit := fun s =>
  let ev := Build_event (history s) (halt_requested s) interactive in
  let clicked := halt_click (length (emitted s)) in
  (set_emitted (emitted s ++ [ev]) (set_halt (halt_requested s || clicked) s), inr tt).

(** [execute_action] on the workspace held by the run *)
Definition call_execute_action (action : json) : M state (bool * string) := fun s =>
  let s1 := set_attempted (attempted s ++ [action]) s in
  match execute_action action (disk s) with
  | (fs', r) => (set_disk fs' s1, r)
  end.

(** [", ".join(items)] *)
Fixpoint str_join (sep : string) (items : list json) : exn + string :=
  match items with
  | [] => inr ""
  | JStr x :: rest =>
      match rest with
      | [] => inr x
      | _ :: _ =>
          match str_join sep rest with
          | inr tail => inr (x +:+ sep +:+ tail)
          | inl e => inl e
          end
      end
  | v :: _ => inl (TypeError v)
  end.

Definition from_result {S A} (r : exn + A) : M S A := fun s => (s, r).

Definition step_message (step_num num_steps : nat) (action : json) : string :=
  nl +:+ "--- Executing Step " +:+ show_nat step_num +:+ "/" +:+ show_nat num_steps
     +:+ " ---" +:+ nl
     +:+ "Action:" +:+ nl +:+ "```json" +:+ nl +:+ json_dumps action +:+ nl +:+ "```" +:+ nl.

Definition result_message (step_num : nat) (result_msg : string) : string :=
  "Result (Step " +:+ show_nat step_num +:+ "): " +:+ result_msg.

Definition halt_message (i : nat) : string :=
  nl +:+ "Execution halted by user request before step " +:+ show_nat (i + 1) +:+ ".".

Definition stopping_message : string := nl +:+ "Execution failed. Stopping plan.".

Definition completed_message : string := nl +:+ "Plan successfully completed!".

(** lines 243 to 254: echo the action, run it, report the result *)
Definition run_step (num_steps i : nat) (action_to_execute : json) : M state (bool * string) :=
  let step_num := i + 1 in
  say (step_message step_num num_steps action_to_execute);;
  yield true;;
  r ← call_execute_action action_to_execute;
  say (result_message step_num r.2);;
  yield true;;
  mret r.

(** [for i, action_to_execute in enumerate(plan)], from index [i] on; the
    result is [(all_steps_succeeded, execution_halted)] when the loop is
    left *)
Fixpoint plan_loop (num_steps i : nat) (plan : list json) : M state (bool * bool) :=
  match plan with
  | [] => mret (true, false)
  | action_to_execute :: rest =>
      s ← get_state;
      if halt_requested s then
        say (halt_message i);;
        yield false;;
        mret (true, true)
      else
        r ← run_step num_steps i action_to_execute;
        if negb r.1 then
          say stopping_message;;
          yield false;;
          mret (false, false)
        else plan_loop num_steps (S i) rest
  end.

(** lines 263 to 267 *)
Definition after_loop (all_steps_succeeded execution_halted : bool) : M state unit :=
  if negb execution_halted then
    (if all_steps_succeeded then say completed_message else pass);;
    yield false
  else pass.

Definition plan_summary (num_steps : nat) (lang_str : string) : string :=
  "Plan generated with " +:+ show_nat num_steps +:+ " step(s)." +:+ nl
    +:+ "**Language(s) to be used:** " +:+ lang_str +:+ nl
    +:+ "Starting execution..." +:+ nl +:+ "(Click 'Halt' to stop)".

(** [", ".join(declared_languages) if declared_languages else "N/A"] *)
Definition lang_str_of (declared_languages : list json) : exn + string :=
  match declared_languages with
  | [] => inr "N/A"
  | _ => str_join ", " declared_languages
  end.

(** lines 224 to 267: the summary, the loop and the closing event *)
Definition execute_plan (plan declared_languages : list json) : M state unit :=
  let num_steps := length plan in
  lang_str ← from_result (lang_str_of declared_languages);
  say (plan_summary num_steps lang_str);;
  yield true;;
  flags ← plan_loop num_steps 0 plan;
  after_loop flags.1 flags.2.

Definition invalid_plan_message : string :=
  "The AI generated an empty or invalid plan. Please try again.".

(** lines 219 and 220: [languages_used], or [[]] when it is not a list *)
Definition declared_languages_of (parsed_response : list (string * json)) : list json :=
  match dict_get "languages_used" parsed_response (JArr []) with
  | JArr l => l
  | _ => []
  end.

(** the branch [response_type == "plan"]; the plan runs when
    [isinstance(plan, list) and plan] *)
Definition process_plan (parsed_response : list (string * json)) : M state unit :=
  let plan := dict_get "plan_steps" parsed_response (JArr []) in
  let declared_languages := declared_languages_of parsed_response in
  match plan with
  | JArr steps =>
      if truthy plan then execute_plan steps declared_languages
      else say invalid_plan_message;; yield false
  | _ => say invalid_plan_message;; yield false
  end.

Definition no_markers : exn := ValueError "Could not find valid ```json ... ``` markers.".

Definition not_a_response : exn :=
  ValueError "Parsed JSON is not a dictionary or missing 'response_type'.".

(** the JSON text between the first [```json] and the next [```] *)
Definition extract_json (raw : string) : option string :=
  match split_once "```json" raw with
  | Some (_, after) =>
      match split_once "```" after with
      | Some (body, _) => Some (strip body)
      | None => None
      end
  | None => None
  end.

(** the inner [try] block, lines 198 to 206 *)
Definition parse_response (raw : string) : exn + json :=
  match extract_json raw with
  | Some json_str =>
      match json_loads json_str with
      | None => inl (JSONDecodeError json_str)
      | Some (JObj d) => if dict_has "response_type" d then inr (JObj d) else inl not_a_response
      | Some _ => inl not_a_response
      end
  | None => inl no_markers
  end.

Definition parsing_error_message (raw : string) : string :=
  "Error: Could not parse the response from the AI." +:+ nl
    +:+ "(Raw response: " +:+ str_take 500 raw +:+ "...)".

(** lines 213 to 289, after the inner [except] has set [parsed_response]
    and [parsing_error] *)
Definition process_response (parsed_response : option json) (parsing_error : string)
  : M state unit :=
  match parsed_response with
  | Some (JObj (f :: d)) =>
      let response_type := dict_get "response_type" (f :: d) JNull in
      if py_eq_str response_type "plan" then process_plan (f :: d)
      else if py_eq_str response_type "informational" then
        append_assistant
          (dict_get "message" (f :: d) (JStr "Sorry, I couldn't formulate an answer."));;
        yield false
      else
        say ("Received an unknown response type ('" +:+ py_str response_type
             +:+ "') from the AI.");;
        yield false
  | Some v =>
      if truthy v then raise (AttributeError v)
      else
        say (if String.eqb parsing_error "" then "Sorry, I couldn't generate a valid response."
             else parsing_error);;
        yield false
  | None =>
      say (if String.eqb parsing_error "" then "Sorry, I couldn't generate a valid response."
           else parsing_error);;
      yield false
  end.

(** [agent_chat_response(message, history, controls)] run from a state
    holding [history] and [controls]; [reply] is what the model call
    returned or raised.  The prompt is not modelled: the run depends on it
    only through [reply]. *)
Definition agent_chat_response (reply : exn + string) : M state unit :=
  (fun s => (set_halt false s, inr tt));;
  yield false;;
  try_except
    (say "Thinking...";;
     yield false;;
     raw_response_text ← from_result reply;
     let '(parsed_response, parsing_error) :=
       match parse_response raw_response_text with
       | inr v => (Some v, "")
       | inl _ => (None, parsing_error_message raw_response_text)
       end in
     process_response parsed_response parsing_error)
    (fun e =>
       say ("An unexpected error occurred: " +:+ exc_str e +:+ ".");;
       yield false);;
  yield false.

(** *** Vocabulary of the statements *)

(** the state after [say text] and after [yield b] *)
Definition said (text : string) (s : state) : state :=
  set_history (history s ++ [assistant text]) s.

Definition yielded (b : bool) (s : state) : state :=
  set_emitted (emitted s ++ [Build_event (history s) (halt_requested s) b])
    (set_halt (halt_requested s || halt_click (length (emitted s))) s).

(** the steps all report success when run in order from [fs]: their
    messages and the file system they leave *)
Fixpoint steps_succeed (fs : FS) (steps : list json) : option (list string * FS) :=
  match steps with
  | [] => Some ([], fs)
  | a :: rest =>
      match execute_action a fs with
      | (fs', inr (true, msg)) =>
          match steps_succeed fs' rest with
          | Some (msgs, fs'') => Some (msg :: msgs, fs'')
          | None => None
          end
      | _ => None
      end
  end.

(** the log entries of steps [i+1 ..] that reported the messages [msgs]:
    for each step its echo and its result, as lines 244 and 252 word them *)
Fixpoint success_log (num_steps i : nat) (steps : list json) (msgs : list string) : list entry :=
  match steps, msgs with
  | a :: rest, m :: ms =>
      assistant (nl +:+ "--- Executing Step " +:+ show_nat (i + 1) +:+ "/" +:+ show_nat num_steps
                    +:+ " ---" +:+ nl
                    +:+ "Action:" +:+ nl +:+ "```json" +:+ nl +:+ json_dumps a +:+ nl
                    +:+ "```" +:+ nl)
        :: assistant ("Result (Step " +:+ show_nat (i + 1) +:+ "): " +:+ m)
        :: success_log num_steps (S i) rest ms
  | _, _ => []
  end.

(** the value of [controls['halt_requested']] read at the top of the
    iteration that follows [j] completed steps of a loop entered in state [s]:
    the flag then, or a click during one of the [2 * j] yields since *)
Definition halt_seen (s : state) (j : nat) : bool :=
  halt_requested s || existsb halt_click (seq (length (emitted s)) (2 * j)).

(** the state after a step that returned [msg] and left the file system
    [fs']: echo, event, call, result, event *)
Definition stepped (num_steps i : nat) (a : json) (msg : string) (fs' : FS) (s : state) : state :=
  yielded true
    (said (result_message (i + 1) msg)
       (set_disk fs'
          (set_attempted (attempted s ++ [a])
             (yielded true (said (step_message (i + 1) num_steps a) s))))).

(** the state in which the loop of a turn is entered: the flag reset, the
    first event, "Thinking...", the plan summary *)
Definition loop_entry (num_steps : nat) (lang_str : string) (s : state) : state :=
  yielded true
    (said (plan_summary num_steps lang_str)
       (yielded false (said "Thinking..." (yielded false (set_halt false s))))).

(** the state after lines 263 to 301, from the state the loop left *)
Definition turn_end (all_steps_succeeded execution_halted : bool) (s : state) : state :=
  yielded false
    (if execution_halted then s
     else yielded false (if all_steps_succeeded then said completed_message s else s)).

Definition is_dict (v : json) : bool :=
  match v with
  | JObj _ => true
  | _ => false
  end.

(** lines 17 to 22: [WORKSPACE_DIR.mkdir(parents=True, exist_ok=True)] at
    start-up; [None] is [sys.exit(1)] *)
Definition ensure_workspace (fs : FS) : option FS :=
  match path_mkdir fs workspace with
  | (fs', None) => Some fs'
  | (_, Some _) => None
  end.

(** the file system after the calls of [execute_action] on [acts], in order *)
Definition apply_all (fs : FS) (acts : list json) : FS :=
  fold_left (fun fs0 a => (execute_action a fs0).1) acts fs.

(** the action cannot take the exemption of line 55: it is no
    [create_folder], or its path is relative, or its path is no string *)
Definition stays_inside (a : json) : bool :=
  match a with
  | JObj d =>
      negb (py_eq_str (dict_get "type" d JNull) "create_folder")
      || match dict_get "path" d JNull with
         | JStr p => bool_decide (parse_root p = NoRoot)
         | _ => true
         end
  | _ => true
  end.

(** the steps of the plan a reply carries, if it carries any *)
Definition plan_of (reply : exn + string) : list json :=
  match reply with
  | inr raw =>
      match parse_response raw with
      | inr (JObj d) =>
          if py_eq_str (dict_get "response_type" d JNull) "plan" then
            match dict_get "plan_steps" d (JArr []) with
            | JArr steps => steps
            | _ => []
            end
          else []
      | _ => []
      end
  | inl _ => []
  end.

(** the log, the events and the calls of [s'] extend those of [s] *)
Definition grows (s s' : state) : Prop :=
  history s `prefix_of` history s'
  /\ emitted s `prefix_of` emitted s'
  /\ attempted s `prefix_of` attempted s'.

(** every event emitted so far shows a prefix of the current log *)
Definition snapshots_ok (s : state) : Prop :=
  Forall (fun e => ev_history e `prefix_of` history s) (emitted s).

(** a computation that only ever appends to the log, the events and the
    calls, and keeps the events consistent with the log *)
Definition steady {A} (c : M state A) : Prop :=
  forall s, grows s (c s).1 /\ (snapshots_ok s -> snapshots_ok (c s).1).

(** a computation that neither calls [execute_action] nor touches the file
    system *)
Definition quiet {A} (c : M state A) : Prop :=
  forall s, attempted (c s).1 = attempted s /\ disk (c s).1 = disk s.

(** a computation whose calls of [execute_action] are an initial segment of
    [steps], in order, and whose file system is the outcome of those calls *)
Definition only_runs {A} (steps : list json) (c : M state A) : Prop :=
  forall s, exists done,
    done `prefix_of` steps
    /\ attempted (c s).1 = attempted s ++ done
    /\ disk (c s).1 = apply_all (disk s) done.

(** *** Running the monad *)

Lemma run_bind {S A B} (c : M S A) (k : A -> M S B) (s : S) :
  (c ≫= k) s = match c s with
               | (s', inr a) => k a s'
               | (s', inl e) => (s', inl e)
               end.
Proof. reflexivity. Qed.

Lemma run_ret {S A} (a : A) (s : S) : (mret a : M S A) s = (s, inr a).
Proof. reflexivity. Qed.

(** *** The sandbox test *)

Lemma elem_of_proper_prefixes (l q : list string) :
  q ∈ proper_prefixes l <-> q `prefix_of` l /\ q ≠ l.
Proof.
  revert q. induction l as [|x l IH]; intros q; simpl.
  - split.
    + intros H. inversion H.
    + intros [Hp Hne]. apply prefix_nil_inv in Hp. congruence.
  - rewrite elem_of_cons, list_elem_of_fmap. split.
    + intros [-> | (q' & -> & Hq')].
      * split; [apply prefix_nil | discriminate].
      * apply IH in Hq' as [Hp Hne]. split; [by apply prefix_cons | congruence].
    + intros [Hp Hne]. destruct q as [|y q]; [by left | right].
      destruct Hp as [k Hk]. simpl in Hk. injection Hk as <- ->.
      exists q. split; [reflexivity |]. apply IH. split; [by exists k | congruence].
Qed.

(** the test of line 54 fails exactly when the workspace is the target or
    one of its ancestors *)
Lemma sandbox_test (target : list string) :
  negb (bool_decide (WORKSPACE_DIR ∈ parents (MkPath Slash target)))
    && negb (bool_decide (MkPath Slash target = WORKSPACE_DIR)) = false
  <-> workspace `prefix_of` target.
Proof.
  unfold WORKSPACE_DIR, parents. simpl.
  rewrite andb_false_iff, !negb_false_iff, !bool_decide_eq_true.
  rewrite list_elem_of_fmap. split.
  - intros [(q & Hq & Hin) | Heq].
    + injection Hq as ->.
      rewrite list_elem_of_In, <- in_rev, <- list_elem_of_In in Hin.
      apply elem_of_proper_prefixes in Hin. tauto.
    + injection Heq as ->. reflexivity.
  - intros Hp. destruct (decide (workspace = target)) as [-> | Hne]; [by right | left].
    exists workspace. split; [reflexivity |].
    rewrite list_elem_of_In, <- in_rev, <- list_elem_of_In.
    apply elem_of_proper_prefixes. done.
Qed.

Lemma resolve_root (p : PurePath) : resolve p = MkPath Slash (names (resolve p)).
Proof. reflexivity. Qed.

(** a path outside the workspace is refused before any system call, unless
    the action is a [create_folder] whose path resolves to itself *)
Lemma outside_refused (action_type content : json) (p : string) (fs : FS) :
  ¬ workspace `prefix_of` names (resolve (joinpath WORKSPACE_DIR p)) ->
  py_eq_str action_type "create_folder"
    && bool_decide (resolve (joinpath WORKSPACE_DIR p) = joinpath WORKSPACE_DIR p) = false ->
  action_body action_type (JStr p) content fs
  = (fs, inr (false, "Error: Path '" +:+ p +:+ "' is outside the allowed workspace.")).
Proof.
  intros Hout Hnot. unfold action_body.
  destruct (negb (bool_decide (WORKSPACE_DIR ∈ parents (resolve (joinpath WORKSPACE_DIR p))))
            && negb (bool_decide (resolve (joinpath WORKSPACE_DIR p) = WORKSPACE_DIR))) eqn:Htest.
  - rewrite Hnot. reflexivity.
  - exfalso. apply Hout. rewrite resolve_root in Htest. by apply sandbox_test.
Qed.

(** the action kinds other than [create_folder] never leave the workspace *)
Lemma outside_refused_not_folder (d : list (string * json)) (p : string) (fs : FS) :
  dict_get "path" d JNull = JStr p ->
  truthy (dict_get "type" d JNull) = true ->
  p ≠ "" ->
  py_eq_str (dict_get "type" d JNull) "create_folder" = false ->
  ¬ workspace `prefix_of` names (resolve (joinpath WORKSPACE_DIR p)) ->
  execute_action (JObj d) fs
  = (fs, inr (false, "Error: Path '" +:+ p +:+ "' is outside the allowed workspace.")).
Proof.
  intros Hp Ht Hne Hkind Hout. unfold execute_action. rewrite Hp, Ht.
  assert (truthy (JStr p) = true) as ->.
  { simpl. destruct (String.eqb p "") eqn:E; [apply String.eqb_eq in E; done | done]. }
  cbn [negb orb]. unfold try_except. rewrite outside_refused; [reflexivity | done |].
  rewrite Hkind. reflexivity.
Qed.

(** *** Searching a text *)

Lemma str_app_cons (x : ascii) (a b : string) : String x a +:+ b = String x (a +:+ b).
Proof. reflexivity. Qed.

Lemma str_app_nil_l (b : string) : "" +:+ b = b.
Proof. reflexivity. Qed.

Lemma str_app_assoc (a b c : string) : (a +:+ b) +:+ c = a +:+ b +:+ c.
Proof.
  induction a as [|x a IH]; [reflexivity |].
  rewrite !str_app_cons. f_equal. exact IH.
Qed.

Lemma str_length_app (a b : string) :
  String.length (a +:+ b) = String.length a + String.length b.
Proof.
  induction a as [|x a IH]; [reflexivity |].
  rewrite str_app_cons. simpl. f_equal. exact IH.
Qed.

Lemma strip_prefix_spec (p s r : string) : strip_prefix p s = Some r <-> s = p +:+ r.
Proof.
  revert s. induction p as [|a p IH]; intros s.
  - simpl. rewrite str_app_nil_l. split; [by intros [= ->] | by intros ->].
  - rewrite str_app_cons. destruct s as [|b s]; simpl.
    + split; discriminate.
    + destruct (Ascii.eqb a b) eqn:E.
      * apply Ascii.eqb_eq in E as ->. rewrite IH. split; [by intros -> | by intros [= ->]].
      * apply Ascii.eqb_neq in E. split; [discriminate | intros [= -> _]; done].
Qed.

(** two ways of cutting one text: the shorter head leaves the longer tail *)
Lemma str_app_overlap (z x b rest : string) :
  x +:+ b = z +:+ rest -> String.length z <= String.length x ->
  exists y, rest = y +:+ b.
Proof.
  revert x. induction z as [|c z IH]; intros x Heq Hlen.
  - exists x. by rewrite str_app_nil_l in Heq.
  - destruct x as [|c' x]; simpl in Hlen; [lia |].
    rewrite !str_app_cons in Heq. injection Heq as -> Heq. apply (IH x); [done | lia].
Qed.

Lemma split_once_sound (sep s a b : string) :
  split_once sep s = Some (a, b) -> s = a +:+ sep +:+ b.
Proof.
  revert a b. induction s as [|c s IH]; intros a b; simpl.
  - destruct (strip_prefix sep "") as [rest|] eqn:E; [| discriminate].
    intros [= <- <-]. by apply strip_prefix_spec in E.
  - destruct (strip_prefix sep (String c s)) as [rest|] eqn:E.
    + intros [= <- <-]. by apply strip_prefix_spec in E.
    + destruct (split_once sep s) as [[a' b']|]; [| discriminate].
      intros [= <- <-]. rewrite str_app_cons. f_equal. by apply IH.
Qed.

Lemma split_once_unfold (sep s : string) :
  split_once sep s =
  match strip_prefix sep s with
  | Some rest => Some ("", rest)
  | None =>
      match s with
      | EmptyString => None
      | String c s' =>
          match split_once sep s' with
          | Some (a, b) => Some (String c a, b)
          | None => None
          end
      end
  end.
Proof. destruct s; reflexivity. Qed.

(** the first occurrence is found, and what follows it still ends with
    whatever followed any occurrence *)
Lemma split_once_found (sep a b : string) :
  exists a' b' y, split_once sep (a +:+ sep +:+ b) = Some (a', b') /\ b' = y +:+ b.
Proof.
  induction a as [|c a IH].
  - rewrite str_app_nil_l, split_once_unfold.
    assert (strip_prefix sep (sep +:+ b) = Some b) as -> by by apply strip_prefix_spec.
    by exists "", b, "".
  - rewrite str_app_cons, split_once_unfold.
    destruct (strip_prefix sep (String c (a +:+ sep +:+ b))) as [rest|] eqn:E.
    + apply strip_prefix_spec in E.
      assert (exists y, rest = y +:+ b) as [y Hy].
      { apply (str_app_overlap sep (String c a +:+ sep)).
        - by rewrite str_app_assoc.
        - rewrite str_length_app. lia. }
      by exists "", rest, y.
    + destruct IH as (a' & b' & y & -> & Hy). by exists (String c a'), b', y.
Qed.

Lemma split_once_none (sep s : string) :
  split_once sep s = None <-> ¬ exists a b, s = a +:+ sep +:+ b.
Proof.
  split.
  - intros Hnone (a & b & ->).
    destruct (split_once_found sep a b) as (a' & b' & y & Hs & _). congruence.
  - intros Hno. destruct (split_once sep s) as [[a b]|] eqn:E; [| reflexivity].
    exfalso. apply Hno. exists a, b. by apply split_once_sound.
Qed.

(** [extract_json] finds a block exactly when the text holds the marker
    [```json] followed, anywhere later, by a fence [```] *)
Lemma extract_json_none (raw : string) :
  extract_json raw = None
  <-> ¬ exists a b c, raw = a +:+ "```json" +:+ b +:+ "```" +:+ c.
Proof.
  unfold extract_json. split.
  - intros Hnone (a & b & c & ->).
    destruct (split_once_found "```json" a (b +:+ "```" +:+ c)) as (a' & b' & y & Hs & ->).
    rewrite Hs, <- str_app_assoc in Hnone.
    destruct (split_once_found "```" (y +:+ b) c) as (a2 & b2 & y2 & Hs2 & _).
    rewrite Hs2 in Hnone. discriminate.
  - intros Hno. destruct (split_once "```json" raw) as [[a after]|] eqn:E; [| reflexivity].
    destruct (split_once "```" after) as [[b c]|] eqn:E2; [| reflexivity].
    exfalso. apply Hno. exists a, b, c.
    apply split_once_sound in E, E2. by rewrite E, E2.
Qed.

Lemma extract_json_some (raw js : string) :
  extract_json raw = Some js ->
  exists a b c, raw = a +:+ "```json" +:+ b +:+ "```" +:+ c /\ js = strip b.
Proof.
  unfold extract_json.
  destruct (split_once "```json" raw) as [[a after]|] eqn:E; [| discriminate].
  destruct (split_once "```" after) as [[b c]|] eqn:E2; [| discriminate].
  intros [= <-]. exists a, b, c. split; [| reflexivity].
  apply split_once_sound in E, E2. by rewrite E, E2.
Qed.

(** a parsed response is a dictionary with at least the key [response_type] *)
Lemma parse_response_inr (raw : string) (v : json) :
  parse_response raw = inr v ->
  exists f d, v = JObj (f :: d) /\ dict_has "response_type" (f :: d) = true.
Proof.
  unfold parse_response.
  destruct (extract_json raw) as [js|]; [| discriminate].
  destruct (json_loads js) as [[| | | | | |d]|]; try discriminate.
  destruct (dict_has "response_type" d) eqn:E; [| discriminate].
  intros [= <-]. destruct d as [|f d]; [discriminate |]. by exists f, d.
Qed.

(** *** The first characters of a text *)

Lemma str_take_cut (s : string) :
  forall n, exists rest,
    s = str_take n s +:+ rest
    /\ py_len (str_take n s) = Nat.min n (py_len s)
    /\ (forall c r, rest = String c r -> is_continuation c = false).
Proof.
  induction s as [|c s IH]; intros n.
  - exists "". cbn. split; [done |]. split; [by rewrite Nat.min_0_r | done].
  - cbn [str_take py_len]. destruct (is_continuation c) eqn:Hc.
    + destruct (IH n) as (rest & Heq & Hlen & Hcut). exists rest.
      rewrite str_app_cons, <- Heq. cbn [py_len]. rewrite Hc. done.
    + destruct n as [|n].
      * exists (String c s). split; [done |]. split; [done |].
        intros c' r [= <- <-]. done.
      * destruct (IH n) as (rest & Heq & Hlen & Hcut). exists rest.
        rewrite str_app_cons, <- Heq. cbn [py_len]. rewrite Hc, Hlen. done.
Qed.

(** *** Turns that end with a single notice *)

Lemma parsing_error_nonempty (raw : string) :
  String.eqb (parsing_error_message raw) "" = false.
Proof. reflexivity. Qed.

(** the state after [say] and after [yield] *)
Lemma run_say (text : string) (s : state) : say text s = (said text s, inr tt).
Proof. reflexivity. Qed.

Lemma run_yield (b : bool) (s : state) : yield b s = (yielded b s, inr tt).
Proof. reflexivity. Qed.

Lemma run_try_except {S A} (body : M S A) (handler : exn -> M S A) (s : S) :
  try_except body handler s = match body s with
                              | (s', inr a) => (s', inr a)
                              | (s', inl e) => handler e s'
                              end.
Proof. reflexivity. Qed.

(** a click during a suspension is [request_halt] run on the shared
    controls; without a click the flag is left as it was *)
Lemma yield_click (b : bool) (s : state) :
  let s' := set_emitted (emitted s ++ [Build_event (history s) (halt_requested s) b]) s in
  (yield b s).1 = if halt_click (length (emitted s)) then request_halt s' else s'.
Proof.
  rewrite run_yield. unfold yielded, request_halt. destruct s as [h flag fs evs acts].
  cbn. destruct (halt_click (length evs)); [by rewrite orb_true_r | by rewrite orb_false_r].
Qed.

Ltac state_simpl :=
  cbn [history halt_requested disk emitted attempted said yielded
       set_history set_halt set_disk set_emitted set_attempted fst snd].

Ltac mrun :=
  repeat first
    [ rewrite run_bind | rewrite run_say | rewrite run_yield | rewrite run_ret
    | rewrite run_try_except ];
  state_simpl.

(** a turn whose response handling is one message followed by one event *)
Lemma turn_with_notice (raw : string) (parsed : option json) (err msg : string) (s : state) :
  (parsed, err) = match parse_response raw with
                  | inr v => (Some v, "")
                  | inl _ => (None, parsing_error_message raw)
                  end ->
  (forall s', process_response parsed err s' = (say msg;; yield false) s') ->
  let r := agent_chat_response (inr raw) s in
  r.2 = inr tt
  /\ history r.1 = history s ++ [assistant "Thinking..."; assistant msg]
  /\ disk r.1 = disk s
  /\ attempted r.1 = attempted s
  /\ exists evs, emitted r.1 = emitted s ++ evs
       /\ map ev_view evs =
          [ (history s, false);
            (history s ++ [assistant "Thinking..."], false);
            (history s ++ [assistant "Thinking..."; assistant msg], false);
            (history s ++ [assistant "Thinking..."; assistant msg], false) ].
Proof.
  intros Hparse Hproc r. subst r. unfold agent_chat_response.
  mrun. unfold from_result. rewrite <- Hparse, Hproc. mrun.
  repeat split.
  - by rewrite <- app_assoc.
  - eexists. rewrite <- !app_assoc. split; reflexivity.
Qed.

(** an empty list, a value that is not a list, or no [plan_steps] at all *)
Lemma process_plan_invalid (d : list (string * json)) (s : state) :
  (forall step rest, dict_get "plan_steps" d (JArr []) ≠ JArr (step :: rest)) ->
  process_plan d s = (say invalid_plan_message;; yield false) s.
Proof.
  intros Hinv. unfold process_plan.
  destruct (dict_get "plan_steps" d (JArr [])) as [| | | | |[|step rest]|]; try reflexivity.
  by destruct (Hinv step rest).
Qed.

(** C5: the three ways parsing fails, and their common recovery.  No
    [```json] marker followed by a closing fence: the [ValueError] of line 206
    (NoJsonBlock).  The extracted text, which is the stripped text between the
    first marker and the next fence, rejected by [json.loads]: its exception
    (InvalidJson).  A decoded value that is not a dictionary holding
    [response_type]: the [ValueError] of line 203 (MissingResponseType).  In
    each case the turn ends normally: the log gains "Thinking..." and the one
    message "Error: Could not parse the response from the AI." followed by
    "(Raw response: " and the raw text cut after its first 500 characters (all
    of it when it has fewer; the cut never splits a character), four events
    are emitted with Halt disabled, and neither the workspace nor any step is
    touched. *)
Theorem C5_parse_failures_recovered (raw : string) :
  ((¬ exists a b c, raw = a +:+ "```json" +:+ b +:+ "```" +:+ c) ->
     parse_response raw = inl no_markers)
  /\ (forall js, extract_json raw = Some js ->
        (exists a b c, raw = a +:+ "```json" +:+ b +:+ "```" +:+ c /\ js = strip b)
        /\ (json_loads js = None -> parse_response raw = inl (JSONDecodeError js))
        /\ (forall v, json_loads js = Some v ->
              (forall d, v = JObj d -> dict_has "response_type" d = false) ->
              parse_response raw = inl not_a_response))
  /\ (forall e s, parse_response raw = inl e ->
        exists shown rest,
          raw = shown +:+ rest
          /\ py_len shown = Nat.min 500 (py_len raw)
          /\ (forall c r, rest = String c r -> is_continuation c = false)
          /\ let r := agent_chat_response (inr raw) s in
             let msg := "Error: Could not parse the response from the AI." +:+ nl
                          +:+ "(Raw response: " +:+ shown +:+ "...)" in
             r.2 = inr tt
             /\ history r.1 = history s ++ [assistant "Thinking..."; assistant msg]
             /\ disk r.1 = disk s
             /\ attempted r.1 = attempted s
             /\ exists evs, emitted r.1 = emitted s ++ evs
                  /\ map ev_view evs =
                     [ (history s, false);
                       (history s ++ [assistant "Thinking..."], false);
                       (history s ++ [assistant "Thinking..."; assistant msg], false);
                       (history s ++ [assistant "Thinking..."; assistant msg], false) ]).
Proof.
  split; [| split].
  - intros Hno. apply extract_json_none in Hno. unfold parse_response. by rewrite Hno.
  - intros js Hjs. split; [by apply extract_json_some |]. split.
    + intros Hload. unfold parse_response. by rewrite Hjs, Hload.
    + intros v Hload Hv. unfold parse_response. rewrite Hjs, Hload.
      destruct v as [| | | | | |d]; try reflexivity. by rewrite (Hv d eq_refl).
  - intros e s He. destruct (str_take_cut raw 500) as (rest & Hraw & Hlen & Hcut).
    exists (str_take 500 raw), rest.
    split; [exact Hraw |]. split; [exact Hlen |]. split; [exact Hcut |].
    apply (turn_with_notice raw None (parsing_error_message raw)).
    + by rewrite He.
    + intros s'. reflexivity.
Qed.

(** C6: a response of type "plan" whose [plan_steps] is missing, empty or
    not a list ends the turn with the notice "The AI generated an empty or
    invalid plan. Please try again.": no exception, no parse error message, no
    step event (the four events are the initial one, "Thinking...", the notice
    and the closing one, all with Halt disabled), no call of [execute_action]
    and the workspace as it was. *)
Theorem C6_empty_or_invalid_plan (raw : string) (d : list (string * json)) (s : state) :
  parse_response raw = inr (JObj d) ->
  dict_get "response_type" d JNull = JStr "plan" ->
  (forall step rest, dict_get "plan_steps" d (JArr []) ≠ JArr (step :: rest)) ->
  let r := agent_chat_response (inr raw) s in
  let notice := "The AI generated an empty or invalid plan. Please try again." in
  r.2 = inr tt
  /\ history r.1 = history s ++ [assistant "Thinking..."; assistant notice]
  /\ disk r.1 = disk s
  /\ attempted r.1 = attempted s
  /\ exists evs, emitted r.1 = emitted s ++ evs
       /\ map ev_view evs =
          [ (history s, false);
            (history s ++ [assistant "Thinking..."], false);
            (history s ++ [assistant "Thinking..."; assistant notice], false);
            (history s ++ [assistant "Thinking..."; assistant notice], false) ].
Proof.
  intros Hparse Htype Hinv r notice.
  apply (turn_with_notice raw (Some (JObj d)) "").
  - by rewrite Hparse.
  - intros s'. destruct (parse_response_inr _ _ Hparse) as (f & d' & [= ->] & _).
    unfold process_response. rewrite Htype. cbn [py_eq_str String.eqb].
    change (String.eqb "plan" "plan") with true. cbn iota.
    by apply process_plan_invalid.
Qed.



(** *** One iteration of the plan loop *)

Lemma run_call_execute_action (a : json) (s : state) :
  call_execute_action a s
  = (set_disk (execute_action a (disk s)).1 (set_attempted (attempted s ++ [a]) s),
     (execute_action a (disk s)).2).
Proof. unfold call_execute_action. by destruct (execute_action a (disk s)). Qed.

Lemma run_step_returns (N i : nat) (a : json) (s : state) (fs' : FS) (ok : bool) (msg : string) :
  execute_action a (disk s) = (fs', inr (ok, msg)) ->
  run_step N i a s = (stepped N i a msg fs' s, inr (ok, msg)).
Proof.
  intros Hex. unfold run_step. mrun. rewrite run_call_execute_action. state_simpl.
  rewrite Hex. mrun. reflexivity.
Qed.

Lemma run_step_raises (N i : nat) (a : json) (s : state) (fs' : FS) (e : exn) :
  execute_action a (disk s) = (fs', inl e) ->
  run_step N i a s
  = (set_disk fs' (set_attempted (attempted s ++ [a])
                     (yielded true (said (step_message (i + 1) N a) s))), inl e).
Proof.
  intros Hex. unfold run_step. mrun. rewrite run_call_execute_action. state_simpl.
  rewrite Hex. reflexivity.
Qed.

Lemma plan_loop_halted (N i : nat) (a : json) (rest : list json) (s : state) :
  halt_requested s = true ->
  plan_loop N i (a :: rest) s = (yielded false (said (halt_message i) s), inr (true, true)).
Proof.
  intros Hh. cbn [plan_loop]. rewrite run_bind. unfold get_state. rewrite Hh. mrun. reflexivity.
Qed.

Lemma plan_loop_ok (N i : nat) (a : json) (rest : list json) (s : state)
    (fs' : FS) (msg : string) :
  halt_requested s = false ->
  execute_action a (disk s) = (fs', inr (true, msg)) ->
  plan_loop N i (a :: rest) s = plan_loop N (S i) rest (stepped N i a msg fs' s).
Proof.
  intros Hh Hex. cbn [plan_loop]. rewrite run_bind. unfold get_state. rewrite Hh.
  rewrite run_bind, (run_step_returns _ _ _ _ _ _ _ Hex). reflexivity.
Qed.

Lemma plan_loop_failed (N i : nat) (a : json) (rest : list json) (s : state)
    (fs' : FS) (msg : string) :
  halt_requested s = false ->
  execute_action a (disk s) = (fs', inr (false, msg)) ->
  plan_loop N i (a :: rest) s
  = (yielded false (said stopping_message (stepped N i a msg fs' s)), inr (false, false)).
Proof.
  intros Hh Hex. cbn [plan_loop]. rewrite run_bind. unfold get_state. rewrite Hh.
  rewrite run_bind, (run_step_returns _ _ _ _ _ _ _ Hex). cbn [fst negb]. mrun. reflexivity.
Qed.

Lemma halt_seen_0 (s : state) : halt_seen s 0 = halt_requested s.
Proof. unfold halt_seen. cbn. apply orb_false_r. Qed.

Lemma halt_seen_stepped (N i : nat) (a : json) (msg : string) (fs' : FS) (s : state) (j : nat) :
  halt_seen (stepped N i a msg fs' s) j = halt_seen s (S j).
Proof.
  unfold halt_seen, stepped. state_simpl. rewrite !length_app. cbn [length].
  replace (2 * S j) with (S (S (2 * j))) by lia. cbn [seq existsb].
  replace (length (emitted s) + 1 + 1) with (S (S (length (emitted s)))) by lia.
  replace (length (emitted s) + 1) with (S (length (emitted s))) by lia.
  by rewrite !orb_assoc.
Qed.

(** the loop over steps that succeed while no halt is seen *)
Lemma plan_loop_prefix (N : nat) (pre rest : list json) :
  forall (i : nat) (s : state) (msgs : list string) (fs_k : FS),
  steps_succeed (disk s) pre = Some (msgs, fs_k) ->
  (forall j, j < length pre -> halt_seen s j = false) ->
  exists s',
    plan_loop N i (pre ++ rest) s = plan_loop N (i + length pre) rest s'
    /\ history s' = history s ++ success_log N i pre msgs
    /\ disk s' = fs_k
    /\ attempted s' = attempted s ++ pre
    /\ halt_requested s' = halt_seen s (length pre)
    /\ exists evs, emitted s' = emitted s ++ evs /\ length evs = 2 * length pre.
Proof.
  induction pre as [|a pre IH]; intros i s msgs fs_k Hsteps Hhalt.
  - injection Hsteps as <- <-. exists s. rewrite Nat.add_0_r, !app_nil_r, halt_seen_0.
    repeat split. exists []. by rewrite app_nil_r.
  - cbn [steps_succeed] in Hsteps.
    destruct (execute_action a (disk s)) as [fs' [e|[[|] msg]]] eqn:Hex; try discriminate.
    destruct (steps_succeed fs' pre) as [[ms fs'']|] eqn:Hrest; [| discriminate].
    injection Hsteps as <- <-.
    assert (Hh : halt_requested s = false).
    { rewrite <- halt_seen_0. apply Hhalt. cbn. lia. }
    destruct (IH (S i) (stepped N i a msg fs' s) ms fs'') as
      (s' & Hloop & Hhist & Hdisk & Hatt & Hflag & evs & Hev & Hlen).
    + exact Hrest.
    + intros j Hj. rewrite halt_seen_stepped. apply Hhalt. cbn. lia.
    + exists s'. cbn [app]. rewrite (plan_loop_ok _ _ _ _ _ _ _ Hh Hex), Hloop.
      split; [f_equal; cbn; lia |].
      split; [rewrite Hhist; unfold stepped; state_simpl; by rewrite <- !app_assoc |].
      split; [exact Hdisk |].
      split; [rewrite Hatt; unfold stepped; state_simpl; by rewrite <- app_assoc |].
      split; [by rewrite Hflag, halt_seen_stepped |].
      unfold stepped in Hev. revert Hev. state_simpl. rewrite <- !app_assoc. intros Hev.
      eexists. split; [exact Hev |]. cbn [length app]. rewrite Hlen. lia.
Qed.

Lemma halt_seen_never (s : state) (j : nat) :
  (forall n, halt_click n = false) -> halt_seen s j = halt_requested s.
Proof.
  intros Hno. unfold halt_seen.
  assert (existsb halt_click (seq (length (emitted s)) (2 * j)) = false) as ->.
  { generalize (length (emitted s)). induction (2 * j) as [|m IH]; intros n; [reflexivity |].
    cbn [seq existsb]. by rewrite Hno, IH. }
  apply orb_false_r.
Qed.

(** C2: the plan [pre ++ a :: post] has N steps and [a] is step k.  If the
    steps before k succeed, the halt flag reads false at the top of each of
    their iterations and true at the top of iteration k, then the loop is left
    halted: [execute_action] was called on the k-1 first steps only, the file
    system is the one they left (they stay applied, step k and the later steps
    never ran), the log ends with "Execution halted by user request before
    step k." and the last event shows that log with Halt disabled. *)
Theorem C2_halt_before_step (pre post : list json) (a : json) (s : state)
    (msgs : list string) (fs_k : FS) :
  let plan := pre ++ a :: post in
  let N := length plan in
  let k := length pre + 1 in
  steps_succeed (disk s) pre = Some (msgs, fs_k) ->
  (forall j, j < length pre -> halt_seen s j = false) ->
  halt_seen s (length pre) = true ->
  let r := plan_loop N 0 plan s in
  r.2 = inr (true, true)
  /\ attempted r.1 = attempted s ++ pre
  /\ disk r.1 = fs_k
  /\ history r.1
     = history s ++ success_log N 0 pre msgs
         ++ [assistant (nl +:+ "Execution halted by user request before step "
                           +:+ show_nat k +:+ ".")]
  /\ exists evs, emitted r.1 = emitted s ++ evs ++ [Build_event (history r.1) true false]
       /\ length evs = 2 * length pre.
Proof.
  intros plan N k Hsteps Hquiet Hseen r. subst r plan.
  destruct (plan_loop_prefix N pre (a :: post) 0 s msgs fs_k Hsteps Hquiet)
    as (s' & Hloop & Hhist & Hdisk & Hatt & Hflag & evs & Hev & Hlen).
  rewrite Hloop, plan_loop_halted by (by rewrite Hflag). state_simpl.
  rewrite Hhist, Hdisk, Hatt, Hflag, Hseen, Hev, <- !app_assoc.
  repeat split. by exists evs.
Qed.

Lemma execute_action_dict_returns (d : list (string * json)) (fs : FS) :
  exists fs' ok msg, execute_action (JObj d) fs = (fs', inr (ok, msg)).
Proof.
  unfold execute_action.
  destruct (negb (truthy (dict_get "type" d JNull)) || negb (truthy (dict_get "path" d JNull))).
  - by exists fs, false, "Error: Action type or path missing.".
  - rewrite run_try_except.
    destruct (action_body _ _ _ fs) as [fs' [e | [ok msg]]].
    + by eexists fs', false, _.
    + by exists fs', ok, msg.
Qed.

(** C3: the plan [pre ++ a :: post] has N steps and [a], a dictionary, is
    step k.  If no halt is requested, the steps before k succeed and step k
    does not, then step k returns a failure with some [msg] and the loop is
    left failed: [execute_action] was called on the first k steps and no
    other, the log holds the echo and the success message of each step before
    k, then the echo of step k, "Result (Step k): msg" and "Execution failed.
    Stopping plan."; the last two events show the result of step k and, with
    Halt disabled, the stopping notice. *)
Theorem C3_first_failure_stops_plan (pre post : list json) (d : list (string * json))
    (s : state) (msgs : list string) (fs_k : FS) :
  let a := JObj d in
  let plan := pre ++ a :: post in
  let N := length plan in
  let k := length pre + 1 in
  (forall n, halt_click n = false) ->
  halt_requested s = false ->
  steps_succeed (disk s) pre = Some (msgs, fs_k) ->
  (forall fs' m, execute_action a fs_k ≠ (fs', inr (true, m))) ->
  let r := plan_loop N 0 plan s in
  exists fs' msg,
    execute_action a fs_k = (fs', inr (false, msg))
    /\ let reported :=
         history s ++ success_log N 0 pre msgs
           ++ [assistant (nl +:+ "--- Executing Step " +:+ show_nat k +:+ "/" +:+ show_nat N
                            +:+ " ---" +:+ nl
                            +:+ "Action:" +:+ nl +:+ "```json" +:+ nl +:+ json_dumps a +:+ nl
                            +:+ "```" +:+ nl);
               assistant ("Result (Step " +:+ show_nat k +:+ "): " +:+ msg)] in
       r.2 = inr (false, false)
       /\ attempted r.1 = attempted s ++ pre ++ [a]
       /\ disk r.1 = fs'
       /\ history r.1 = reported ++ [assistant (nl +:+ "Execution failed. Stopping plan.")]
       /\ exists evs,
            emitted r.1 = emitted s ++ evs
                            ++ [Build_event reported false true;
                                Build_event (history r.1) false false]
            /\ length evs = 2 * length pre + 1.
Proof.
  intros a plan N k Hno Hh Hsteps Hnot r.
  destruct (execute_action_dict_returns d fs_k) as (fs' & ok & msg & Hfail).
  destruct ok; [by destruct (Hnot fs' msg) |].
  exists fs', msg. split; [exact Hfail |]. intros reported. subst r reported plan a.
  assert (Hquiet : forall j, halt_seen s j = false).
  { intros j. by rewrite halt_seen_never. }
  destruct (plan_loop_prefix N pre (JObj d :: post) 0 s msgs fs_k Hsteps (fun j _ => Hquiet j))
    as (s' & Hloop & Hhist & Hdisk & Hatt & Hflag & evs & Hev & Hlen).
  rewrite Hquiet in Hflag. rewrite <- Hdisk in Hfail.
  rewrite Hloop, (plan_loop_failed _ _ _ _ _ _ _ Hflag Hfail).
  unfold stepped, step_message, result_message. state_simpl.
  rewrite Hhist, Hatt, Hflag, Hev, !Hno, <- !app_assoc. cbn [orb app].
  repeat split.
  eexists (evs ++ [_]). rewrite <- !app_assoc. cbn [app]. split; [reflexivity |].
  rewrite length_app. cbn. lia.
Qed.

(** *** A turn on a plan *)

Lemma turn_runs_plan (raw : string) (d : list (string * json)) (steps : list json)
    (lang_str : string) (s : state) :
  parse_response raw = inr (JObj d) ->
  dict_get "response_type" d JNull = JStr "plan" ->
  dict_get "plan_steps" d (JArr []) = JArr steps ->
  steps ≠ [] ->
  lang_str_of (declared_languages_of d) = inr lang_str ->
  agent_chat_response (inr raw) s
  = match plan_loop (length steps) 0 steps (loop_entry (length steps) lang_str s) with
    | (s1, inr flags) => (turn_end flags.1 flags.2 s1, inr tt)
    | (s1, inl e) =>
        (yielded false
           (yielded false (said ("An unexpected error occurred: " +:+ exc_str e +:+ ".") s1)),
         inr tt)
    end.
Proof.
  intros Hparse Htype Hplan Hne Hlang.
  destruct (parse_response_inr _ _ Hparse) as (f & d' & [= ->] & _).
  unfold agent_chat_response. mrun. unfold from_result at 1. rewrite Hparse.
  unfold process_response. rewrite Htype. cbn [py_eq_str].
  change (String.eqb "plan" "plan") with true. cbn iota.
  unfold process_plan. rewrite Hplan.
  destruct steps as [|step rest]; [done |]. cbn [truthy].
  unfold execute_plan. rewrite Hlang. unfold from_result. mrun.
  fold (loop_entry (length (step :: rest)) lang_str s).
  destruct (plan_loop _ 0 (step :: rest) _) as [s1 [e | [ok halted]]].
  - mrun. reflexivity.
  - unfold after_loop, turn_end, pass. cbn [fst snd].
    destruct halted, ok; cbn [negb]; mrun; reflexivity.
Qed.






(** *** The file system *)

Lemma walk_inr (fs : FS) (rest : list string) :
  forall (cur : list string) (nd : node),
  walk fs cur rest = inr nd
  <-> fs !! (cur ++ rest) = Some nd
      /\ forall a b, rest = a ++ b -> b ≠ [] -> fs !! (cur ++ a) = Some Dir.
Proof.
  induction rest as [|n rest IH]; intros cur nd; cbn [walk].
  - rewrite app_nil_r. destruct (fs !! cur) as [nd'|] eqn:E.
    + split.
      * intros [= ->]. split; [done |]. intros a b Hab Hb. by destruct a, b.
      * by intros [[= ->] _].
    + split; [done | by intros [? _]].
  - destruct (fs !! cur) as [[|c]|] eqn:E.
    + rewrite IH, <- app_assoc. cbn [app]. split.
      * intros [H1 H2]. split; [done |]. intros a b Hab Hb.
        destruct a as [|x a]; [by rewrite app_nil_r |].
        injection Hab as -> ->. specialize (H2 a b eq_refl Hb).
        by rewrite <- app_assoc in H2.
      * intros [H1 H2]. split; [done |]. intros a b -> Hb.
        specialize (H2 (n :: a) b eq_refl Hb). by rewrite <- app_assoc.
    + split; [done |]. intros [_ H2].
      specialize (H2 [] (n :: rest) eq_refl). rewrite app_nil_r, E in H2.
      by specialize (H2 ltac:(done)).
    + split; [done |]. intros [_ H2].
      specialize (H2 [] (n :: rest) eq_refl). rewrite app_nil_r, E in H2.
      by specialize (H2 ltac:(done)).
Qed.

Lemma walk_enotdir (fs : FS) (rest : list string) :
  forall (cur : list string),
  walk fs cur rest = inl ENOTDIR ->
  exists a b c, rest = a ++ b /\ fs !! (cur ++ a) = Some (File c).
Proof.
  induction rest as [|n rest IH]; intros cur; cbn [walk].
  - destruct (fs !! cur); [done |]. by destruct (name_too_long _).
  - destruct (fs !! cur) as [[|c]|] eqn:E.
    + intros H. apply IH in H as (a & b & c & -> & Hc).
      exists (n :: a), b, c. split; [done |]. by rewrite <- app_assoc in Hc.
    + intros _. exists [], (n :: rest), c. by rewrite app_nil_r.
    + by destruct (name_too_long _).
Qed.

Lemma walk_enametoolong (fs : FS) (rest : list string) :
  forall (cur : list string),
  walk fs cur rest = inl ENAMETOOLONG ->
  exists a b, rest = a ++ b /\ fs !! (cur ++ a) = None
              /\ name_too_long (List.last (cur ++ a) "") = true.
Proof.
  induction rest as [|n rest IH]; intros cur; cbn [walk].
  - destruct (fs !! cur) eqn:E; [done |].
    destruct (name_too_long _) eqn:Hn; [| done]. intros _.
    exists [], []. cbn [app]. by rewrite app_nil_r.
  - destruct (fs !! cur) as [[|c]|] eqn:E; [| done |].
    + intros H. apply IH in H as (a & b & -> & Hnone & Hlong).
      exists (n :: a), b. rewrite <- app_assoc in Hnone, Hlong. done.
    + destruct (name_too_long _) eqn:Hn; [| done]. intros _.
      exists [], (n :: rest). cbn [app]. by rewrite app_nil_r.
Qed.

Lemma stat_inr (fs : FS) (p : list string) (nd : node) :
  stat fs p = inr nd
  <-> fs !! p = Some nd /\ forall q, q `prefix_of` p -> q ≠ p -> fs !! q = Some Dir.
Proof.
  unfold stat. rewrite walk_inr. cbn [app]. split.
  - intros [H1 H2]. split; [done |]. intros q [b ->] Hne. apply (H2 q b); [done |].
    intros ->. by rewrite app_nil_r in Hne.
  - intros [H1 H2]. split; [done |]. intros a b -> Hb. apply H2; [by exists b |].
    intros Heq. apply Hb. apply (f_equal length) in Heq. rewrite length_app in Heq.
    destruct b; [done | cbn in Heq; lia].
Qed.

Lemma stat_enotdir (fs : FS) (p : list string) :
  stat fs p = inl ENOTDIR -> exists q c, q `prefix_of` p /\ fs !! q = Some (File c).
Proof.
  intros H. apply walk_enotdir in H as (a & b & c & -> & Hc).
  exists a, c. split; [by exists b | done].
Qed.

Lemma stat_enametoolong (fs : FS) (p : list string) :
  stat fs p = inl ENAMETOOLONG ->
  exists q, q `prefix_of` p /\ fs !! q = None /\ name_too_long (List.last q "") = true.
Proof.
  intros H. apply walk_enametoolong in H as (a & b & -> & Hnone & Hlong).
  exists a. split; [by exists b | done].
Qed.

Lemma elem_of_prefixes (p q : list string) :
  q ∈ proper_prefixes p ++ [p] <-> q `prefix_of` p.
Proof.
  rewrite elem_of_app, elem_of_proper_prefixes, list_elem_of_singleton. split.
  - by intros [[? _] | ->].
  - intros Hp. destruct (decide (q = p)); [by right | by left].
Qed.

Lemma path_bytes_positive (p : list string) : 1 <= path_bytes p.
Proof. destruct p as [|n p]; cbn; lia. Qed.

Lemma path_bytes_prefix (q p : list string) : q `prefix_of` p -> path_bytes q <= path_bytes p.
Proof.
  intros [k ->]. destruct q as [|n q]; [apply path_bytes_positive |].
  cbn [app path_bytes]. change (n :: q ++ k) with ((n :: q) ++ k).
  rewrite map_app, list_sum_app. lia.
Qed.

Lemma path_too_long_prefix (q p : list string) :
  q `prefix_of` p -> path_too_long p = false -> path_too_long q = false.
Proof.
  unfold path_too_long. rewrite !Nat.leb_gt. intros Hq. apply path_bytes_prefix in Hq. lia.
Qed.

Lemma makeable_spec (fs : FS) (p : list string) :
  makeable fs p = true
  <-> path_too_long p = false
      /\ fs !! [] = Some Dir
      /\ forall q, q `prefix_of` p -> passable fs q = true.
Proof.
  unfold makeable.
  rewrite !andb_true_iff, negb_true_iff, bool_decide_eq_true, forallb_forall.
  split.
  - intros [[Hlen Hroot] Hpass]. split; [done |]. split; [done |].
    intros q Hq. by apply Hpass, list_elem_of_In, elem_of_prefixes.
  - intros (Hlen & Hroot & Hpass). split; [done |].
    intros q Hq. by apply Hpass, elem_of_prefixes, list_elem_of_In.
Qed.

Lemma passable_dir (fs : FS) (q : list string) : fs !! q = Some Dir -> passable fs q = true.
Proof. unfold passable. by intros ->. Qed.

Lemma passable_not_file (fs : FS) (q : list string) (c : string) :
  passable fs q = true -> fs !! q ≠ Some (File c).
Proof. unfold passable. intros H Hq. by rewrite Hq in H. Qed.

Lemma parent_snoc (l : list string) (n : string) : parent (l ++ [n]) = l.
Proof. apply removelast_last. Qed.

Lemma prefix_snoc_inv (q l : list string) (n : string) :
  q `prefix_of` l ++ [n] -> q = l ++ [n] \/ q `prefix_of` l.
Proof.
  intros [b Hb]. destruct (decide (b = [])) as [-> | Hne].
  - left. by rewrite app_nil_r in Hb.
  - right. destruct (exists_last Hne) as (b' & x & ->).
    rewrite app_assoc in Hb. apply app_inj_tail in Hb as [-> _]. by exists b'.
Qed.

Lemma os_mkdir_snoc (fs : FS) (l : list string) (n : string) :
  os_mkdir fs (l ++ [n])
  = if path_too_long (l ++ [n]) then inl (FileNameTooLong (l ++ [n]))
    else
      match stat fs l with
      | inl ENOENT => inl (FileNotFoundError (l ++ [n]))
      | inl ENOTDIR => inl (NotADirectoryError (l ++ [n]))
      | inl ENAMETOOLONG => inl (FileNameTooLong (l ++ [n]))
      | inr (File _) => inl (NotADirectoryError (l ++ [n]))
      | inr Dir =>
          match fs !! (l ++ [n]) with
          | Some _ => inl (FileExistsError (l ++ [n]))
          | None =>
              if name_too_long n then inl (FileNameTooLong (l ++ [n]))
              else inr (<[l ++ [n] := Dir]> fs)
          end
      end.
Proof. unfold os_mkdir. rewrite parent_snoc, last_last. by destruct l. Qed.

Lemma mkdir_exist_ok_spec (fs : FS) (l : list string) (n : string) :
  (forall q, q `prefix_of` l -> fs !! q = Some Dir) ->
  passable fs (l ++ [n]) = true ->
  path_too_long (l ++ [n]) = false ->
  exists fs1, mkdir_exist_ok fs (l ++ [n]) = inr fs1 /\ made fs fs1 (l ++ [n]).
Proof.
  intros Hdirs Hpass Hlen.
  assert (Hstat : stat fs l = inr Dir).
  { apply stat_inr. split; [by apply Hdirs |]. intros q Hq _. by apply Hdirs. }
  unfold mkdir_exist_ok. rewrite os_mkdir_snoc, Hlen, Hstat.
  unfold passable in Hpass. rewrite last_last in Hpass.
  destruct (fs !! (l ++ [n])) as [[|c]|] eqn:E; [| done |].
  - assert (is_dir fs (l ++ [n]) = true) as ->.
    { unfold is_dir. assert (stat fs (l ++ [n]) = inr Dir) as ->; [| done].
      apply stat_inr. split; [done |]. intros q Hq Hne.
      apply prefix_snoc_inv in Hq as [-> | Hq]; [done | by apply Hdirs]. }
    exists fs. split; [done |]. intros q. case_bool_decide as Hq; [| done].
    apply prefix_snoc_inv in Hq as [-> | Hq]; [done | by apply Hdirs].
  - apply negb_true_iff in Hpass. rewrite Hpass.
    eexists. split; [done |]. intros q. case_bool_decide as Hq.
    + apply prefix_snoc_inv in Hq as [-> | Hq]; [by rewrite lookup_insert_eq |].
      rewrite lookup_insert_ne; [by apply Hdirs |].
      intros <-. by apply prefix_snoc_not in Hq.
    + rewrite lookup_insert_ne; [done |]. intros <-. by apply Hq.
Qed.

Lemma mkdir_parents_spec (rp : list string) :
  forall fs : FS,
  makeable fs (rev rp) = true ->
  exists fs1, mkdir_parents fs rp = (fs1, None) /\ made fs fs1 (rev rp).
Proof.
  induction rp as [|n rp IH]; intros fs Hok;
    apply makeable_spec in Hok as (Hlen & Hroot & Hpass).
  - cbn. unfold is_dir, stat. cbn [walk]. rewrite Hroot.
    exists fs. split; [done |]. intros q. case_bool_decide as Hq; [| done].
    apply prefix_nil_inv in Hq as ->. done.
  - cbn [rev] in Hlen, Hpass. cbn [mkdir_parents rev]. rewrite os_mkdir_snoc, Hlen.
    assert (Hlast : passable fs (rev rp ++ [n]) = true) by (by apply Hpass).
    destruct (stat fs (rev rp)) as [[| |]|[|c]] eqn:Hstat.
    + destruct (IH fs) as (fs1 & -> & Hmade).
      { apply makeable_spec. split; [by apply (path_too_long_prefix _ (rev rp ++ [n]));
                                       [apply prefix_app_r |] |].
        split; [done |]. intros q Hq. apply Hpass. by apply prefix_app_r. }
      destruct (mkdir_exist_ok_spec fs1 (rev rp) n) as (fs2 & -> & Hmade2).
      * intros q Hq. rewrite Hmade. by rewrite bool_decide_eq_true_2.
      * unfold passable. rewrite Hmade. case_bool_decide as Hq; [done |]. exact Hlast.
      * exact Hlen.
      * exists fs2. split; [done |]. intros q. rewrite Hmade2.
        case_bool_decide as Hq; [done |]. rewrite Hmade.
        case_bool_decide as Hq'; [| done]. destruct Hq. by apply prefix_app_r.
    + apply stat_enotdir in Hstat as (q & c & Hq & Hfile).
      destruct (passable_not_file fs q c); [| done]. apply Hpass. by apply prefix_app_r.
    + apply stat_enametoolong in Hstat as (q & Hq & Hnone & Hlong).
      assert (Hpq : passable fs q = true) by (apply Hpass; by apply prefix_app_r).
      unfold passable in Hpq. rewrite Hnone, Hlong in Hpq. done.
    + pose proof Hstat as Hstat'. apply stat_inr in Hstat' as [Hpar Hdirs].
      destruct (mkdir_exist_ok_spec fs (rev rp) n) as (fs1 & Hmk & Hmade); [| done | done |].
      * intros q Hq. destruct (decide (q = rev rp)) as [-> | Hne]; [done | by apply Hdirs].
      * revert Hmk. unfold mkdir_exist_ok. rewrite os_mkdir_snoc, Hlen, Hstat.
        unfold passable in Hlast. rewrite last_last in Hlast.
        destruct (fs !! (rev rp ++ [n])) as [[|c]|] eqn:E; [| done |].
        -- destruct (is_dir fs (rev rp ++ [n])); [| done]. intros [= <-]. by exists fs.
        -- apply negb_true_iff in Hlast. rewrite Hlast. intros [= <-]. eexists. by split.
    + apply stat_inr in Hstat as [Hpar _].
      destruct (passable_not_file fs (rev rp) c); [| done]. apply Hpass. by apply prefix_app_r.
Qed.



Lemma run_fs_op (op : FS -> exn + FS) (fs : FS) :
  fs_op op fs = match op fs with
                | inl e => (fs, inl e)
                | inr fs' => (fs', inr tt)
                end.
Proof. reflexivity. Qed.

Lemma run_mkdir_p (p : list string) (fs : FS) :
  mkdir_p p fs = match path_mkdir fs p with
                 | (fs', None) => (fs', inr tt)
                 | (fs', Some e) => (fs', inl e)
                 end.
Proof. reflexivity. Qed.

Lemma truthy_str (p : string) : p ≠ "" -> truthy (JStr p) = true.
Proof.
  intros Hne. cbn. destruct (String.eqb p "") eqn:E; [| done].
  by apply String.eqb_eq in E.
Qed.


(** the target of a write that can go through is no prefix of its parent *)
Lemma target_not_in_parent (fs : FS) (target : list string) :
  writable fs target = true -> ¬ target `prefix_of` parent target.
Proof.
  intros Hok. apply andb_true_iff in Hok as [Hok Hnotdir].
  apply andb_true_iff in Hok as [Hmk _].
  destruct (decide (target = [])) as [Hnil | Hnil].
  - apply makeable_spec in Hmk as (_ & Hroot & _). rewrite Hnil, Hroot in Hnotdir. done.
  - destruct (exists_last Hnil) as (l & n & Hl). rewrite Hl, parent_snoc.
    apply prefix_snoc_not.
Qed.

(** after [mkdir -p] of the parent, a writable target is opened: created
    or truncated *)
Lemma open_after_mkdir (fs fs1 : FS) (target : list string) :
  writable fs target = true ->
  made fs fs1 (parent target) ->
  open_w fs1 target = inr (<[target := File ""]> fs1).
Proof.
  intros Hok Hmade. pose proof (target_not_in_parent fs target Hok) as Hnot.
  apply andb_true_iff in Hok as [Hok Hnotdir].
  apply andb_true_iff in Hok as [Hmk Hlen]. apply negb_true_iff in Hlen.
  unfold open_w. rewrite Hlen.
  assert (stat fs1 (parent target) = inr Dir) as ->.
  { apply stat_inr. split.
    - rewrite Hmade. by rewrite bool_decide_eq_true_2.
    - intros q Hq _. rewrite Hmade. by rewrite bool_decide_eq_true_2. }
  assert (fs1 !! target = fs !! target) as ->.
  { rewrite Hmade. by rewrite bool_decide_eq_false_2. }
  destruct (fs !! target) as [[|c0]|]; [done | done |].
  apply negb_true_iff in Hnotdir. by rewrite Hnotdir.
Qed.


(** whatever the file system and the path, the two kinds of write have the
    same effect and succeed or fail together *)
Lemma create_edit_same_effect (d1 d2 : list (string * json)) (p c : string) (fs : FS) :
  action_is d1 "create_file" p c ->
  action_is d2 "edit_file" p c ->
  (execute_action (JObj d1) fs).1 = (execute_action (JObj d2) fs).1
  /\ (exists ok m1 m2, (execute_action (JObj d1) fs).2 = inr (ok, m1)
                       /\ (execute_action (JObj d2) fs).2 = inr (ok, m2)).
Proof.
  intros (T1 & P1 & C1) (T2 & P2 & C2). unfold execute_action.
  rewrite T1, P1, C1, T2, P2, C2.
  rewrite (truthy_str "create_file"), (truthy_str "edit_file") by done.
  destruct (truthy (JStr p)); cbn [negb orb]; [| by eauto 6].
  rewrite !run_try_except. unfold action_body. cbn [py_eq_str].
  change (String.eqb "create_file" "create_folder") with false.
  change (String.eqb "edit_file" "create_folder") with false.
  change (String.eqb "create_file" "create_file") with true.
  change (String.eqb "edit_file" "create_file") with false.
  change (String.eqb "edit_file" "edit_file") with true.
  cbn [andb orb negb].
  destruct (negb (bool_decide (WORKSPACE_DIR ∈ parents (resolve (joinpath WORKSPACE_DIR p))))
            && negb (bool_decide (resolve (joinpath WORKSPACE_DIR p) = WORKSPACE_DIR)));
    [by eauto 6 |].
  rewrite !run_bind, !run_mkdir_p.
  destruct (path_mkdir fs _) as [fs1 [e|]]; [by eauto 6 |].
  rewrite !run_bind, !run_fs_op.
  destruct (open_w fs1 _) as [e | fs2]; [by eauto 6 |].
  rewrite !run_bind. unfold fs_write, write_close.
  destruct (encodable c); by eauto 6.
Qed.



(** C10: an action whose [type] or [path] is missing, empty or otherwise
    falsy is refused with "Error: Action type or path missing."; the path is
    never resolved, so the answer is the same inside and outside the
    workspace, and the file system is returned as it was. *)
Theorem C10_type_or_path_missing (d : list (string * json)) (fs : FS) :
  truthy (dict_get "type" d JNull) = false \/ truthy (dict_get "path" d JNull) = false ->
  execute_action (JObj d) fs = (fs, inr (false, "Error: Action type or path missing.")).
Proof.
  intros H. unfold execute_action.
  destruct H as [-> | ->]; simpl; [reflexivity |].
  rewrite orb_true_r. reflexivity.
Qed.

(** ** Beyond the frozen claims: the file system under [execute_action] *)

Lemma is_dir_true (fs : FS) (p : list string) : is_dir fs p = true <-> stat fs p = inr Dir.
Proof.
  unfold is_dir. destruct (stat fs p) as [e | [|c]]; split; intros H; try done.
Qed.

Lemma wf_fs_spec (fs : FS) :
  wf_fs fs = true
  <-> fs !! [] = Some Dir /\ forall l n, is_Some (fs !! (l ++ [n])) -> fs !! l = Some Dir.
Proof.
  unfold wf_fs. rewrite andb_true_iff, bool_decide_eq_true, forallb_forall.
  split; intros [Hroot Hall]; (split; [done |]).
  - intros l n [nd Hnd].
    assert (Hin : In (l ++ [n], nd) (map_to_list fs)).
    { apply list_elem_of_In, elem_of_map_to_list, Hnd. }
    apply Hall in Hin. cbn [fst] in Hin. rewrite parent_snoc in Hin.
    destruct (l ++ [n]) eqn:E; [by destruct l |]. by apply bool_decide_eq_true in Hin.
  - intros [q nd] Hin. apply list_elem_of_In, elem_of_map_to_list in Hin. cbn [fst].
    destruct (decide (q = [])) as [-> | Hne]; [done |].
    destruct (exists_last Hne) as (l & n & ->). rewrite parent_snoc.
    destruct (l ++ [n]) eqn:E; [by destruct l |]. rewrite <- E in Hin.
    apply bool_decide_eq_true. by apply (Hall l n).
Qed.

(** in a well-formed tree an entry has directories all the way up *)
Lemma wf_fs_ancestors (fs : FS) (p : list string) :
  wf_fs fs = true -> is_Some (fs !! p) ->
  forall q, q `prefix_of` p -> q ≠ p -> fs !! q = Some Dir.
Proof.
  intros Hwf. apply wf_fs_spec in Hwf as [Hroot Hwf].
  induction p as [|n l IH] using rev_ind; intros Hp q Hq Hne.
  - apply prefix_nil_inv in Hq. done.
  - apply prefix_snoc_inv in Hq as [-> | Hq]; [done |].
    pose proof (Hwf l n Hp) as Hl.
    destruct (decide (q = l)) as [-> | Hql]; [done |].
    apply IH; [by rewrite Hl | done | done].
Qed.

Lemma wf_fs_stat (fs : FS) (p : list string) (nd : node) :
  wf_fs fs = true -> fs !! p = Some nd -> stat fs p = inr nd.
Proof.
  intros Hwf Hp. apply stat_inr. split; [done |].
  apply wf_fs_ancestors; [done | by rewrite Hp].
Qed.

Lemma stat_insert_new (fs : FS) (l : list string) (n : string) (nd : node) :
  stat fs l = inr Dir -> stat (<[l ++ [n] := nd]> fs) (l ++ [n]) = inr nd.
Proof.
  intros Hl. apply stat_inr in Hl as [Hl Hdirs]. apply stat_inr. split.
  - apply lookup_insert_eq.
  - intros q Hq Hne. apply prefix_snoc_inv in Hq as [-> | Hq]; [done |].
    rewrite lookup_insert_ne.
    + destruct (decide (q = l)) as [-> | Hql]; [done | by apply Hdirs].
    + intros <-. by apply prefix_snoc_not in Hq.
Qed.

Lemma extends_dirs_refl (fs : FS) (p : list string) : extends_dirs fs fs p.
Proof. intros q. by left. Qed.

Lemma extends_dirs_keeps (fs fs1 : FS) (p q : list string) (nd : node) :
  extends_dirs fs fs1 p -> fs !! q = Some nd -> fs1 !! q = Some nd.
Proof. intros Hext Hq. destruct (Hext q) as [-> | (Hnone & _)]; congruence. Qed.

Lemma path_too_long_nil : path_too_long [] = false.
Proof. reflexivity. Qed.

Lemma os_mkdir_nil (fs : FS) : os_mkdir fs [] = inl (FileExistsError []).
Proof. unfold os_mkdir. by rewrite path_too_long_nil. Qed.

Lemma mkdir_exist_ok_inr (fs fs1 : FS) (l : list string) (n : string) :
  mkdir_exist_ok fs (l ++ [n]) = inr fs1 ->
  path_too_long (l ++ [n]) = false
  /\ ((fs1 = fs /\ is_dir fs (l ++ [n]) = true)
      \/ (fs !! (l ++ [n]) = None /\ stat fs l = inr Dir /\ name_too_long n = false
          /\ fs1 = <[l ++ [n] := Dir]> fs)).
Proof.
  unfold mkdir_exist_ok. rewrite os_mkdir_snoc.
  destruct (path_too_long (l ++ [n])); [discriminate |].
  intros H. split; [done |]. revert H.
  destruct (stat fs l) as [[| |]|[|c]] eqn:Hstat; try discriminate.
  - destruct (is_dir fs (l ++ [n])) eqn:Hd; [| discriminate]. intros [= <-]. by left.
  - destruct (fs !! (l ++ [n])) as [nd|] eqn:E.
    + destruct (is_dir fs (l ++ [n])) eqn:Hd; [| discriminate]. intros [= <-]. by left.
    + destruct (name_too_long n) eqn:Hn; [discriminate |]. intros [= <-]. by right.
  - destruct (is_dir fs (l ++ [n])) eqn:Hd; [| discriminate]. intros [= <-]. by left.
Qed.

(** [mkdir -p] of a path that has a last name, case by case *)
Lemma mkdir_parents_cons (fs : FS) (n : string) (rp : list string) :
  mkdir_parents fs (n :: rp)
  = if path_too_long (rev rp ++ [n]) then (fs, Some (FileNameTooLong (rev rp ++ [n])))
    else
      match stat fs (rev rp) with
      | inl ENOENT =>
          match mkdir_parents fs rp with
          | (fs1, Some e) => (fs1, Some e)
          | (fs1, None) =>
              match mkdir_exist_ok fs1 (rev rp ++ [n]) with
              | inr fs2 => (fs2, None)
              | inl e => (fs1, Some e)
              end
          end
      | inl ENOTDIR =>
          if is_dir fs (rev rp ++ [n]) then (fs, None)
          else (fs, Some (NotADirectoryError (rev rp ++ [n])))
      | inl ENAMETOOLONG => (fs, Some (FileNameTooLong (rev rp ++ [n])))
      | inr (File _) =>
          if is_dir fs (rev rp ++ [n]) then (fs, None)
          else (fs, Some (NotADirectoryError (rev rp ++ [n])))
      | inr Dir =>
          match fs !! (rev rp ++ [n]) with
          | Some _ =>
              if is_dir fs (rev rp ++ [n]) then (fs, None)
              else (fs, Some (FileExistsError (rev rp ++ [n])))
          | None =>
              if name_too_long n then (fs, Some (FileNameTooLong (rev rp ++ [n])))
              else (<[rev rp ++ [n] := Dir]> fs, None)
          end
      end.
Proof.
  cbn [mkdir_parents rev]. rewrite os_mkdir_snoc.
  destruct (path_too_long _); [done |].
  destruct (stat fs (rev rp)) as [[| |]|[|c]]; try done.
  destruct (fs !! _); [done |]. by destruct (name_too_long n).
Qed.

Lemma extends_dirs_weaken (fs f : FS) (l : list string) (n : string) :
  extends_dirs fs f l -> extends_dirs fs f (l ++ [n]).
Proof.
  intros Hext q. destruct (Hext q) as [Hq | (H1 & H2 & H3 & H4 & H5)]; [by left | right].
  split; [done |]. split; [done |]. split; [by apply prefix_app_r | done].
Qed.

Lemma extends_dirs_step (fs f : FS) (l : list string) (n : string) :
  extends_dirs fs f l -> f !! (l ++ [n]) = None -> f !! l = Some Dir ->
  extends_dirs fs (<[l ++ [n] := Dir]> f) (l ++ [n]).
Proof.
  intros Hext Hnone Hl q.
  assert (Hln : l ++ [n] ≠ l).
  { intros Heq. apply (f_equal length) in Heq. rewrite length_app in Heq. cbn in Heq. lia. }
  destruct (decide (q = l ++ [n])) as [-> | Hne].
  - right. rewrite lookup_insert_eq, parent_snoc, lookup_insert_ne by done.
    split; [| split; [done | split; [done | split; [by destruct l | done]]]].
    destruct (Hext (l ++ [n])) as [Hq | (H1 & _)]; congruence.
  - rewrite lookup_insert_ne by done.
    destruct (Hext q) as [Hq | (H1 & H2 & H3 & H4 & H5)]; [by left | right].
    split; [done |]. split; [done |]. split; [by apply prefix_app_r |]. split; [done |].
    destruct (decide (l ++ [n] = parent q)) as [<- | Hpq];
      [by rewrite lookup_insert_eq | by rewrite lookup_insert_ne].
Qed.

(** however [mkdir -p] ends, the file system was only extended with
    directories along the path, each made in a directory; when it returns,
    the path is a directory *)
Lemma mkdir_parents_frame (rp : list string) :
  forall fs : FS,
  extends_dirs fs (mkdir_parents fs rp).1 (rev rp)
  /\ ((mkdir_parents fs rp).2 = None -> is_dir (mkdir_parents fs rp).1 (rev rp) = true).
Proof.
  induction rp as [|n rp IH]; intros fs.
  - cbn [mkdir_parents rev]. rewrite os_mkdir_nil.
    destruct (is_dir fs []) eqn:Hd; (split; [apply extends_dirs_refl | done]).
  - rewrite mkdir_parents_cons. cbn [rev].
    assert (Hsame : forall e : exn,
              let r : FS * option exn :=
                if is_dir fs (rev rp ++ [n]) then (fs, None) else (fs, Some e) in
              extends_dirs fs r.1 (rev rp ++ [n])
              /\ (r.2 = None -> is_dir r.1 (rev rp ++ [n]) = true)).
    { intros e. destruct (is_dir fs (rev rp ++ [n])) eqn:Hd;
        (split; [apply extends_dirs_refl | done]). }
    destruct (path_too_long _); [split; [apply extends_dirs_refl | done] |].
    destruct (stat fs (rev rp)) as [[| |]|[|c]] eqn:Hstat.
    + destruct (IH fs) as [Hext Hdir].
      destruct (mkdir_parents fs rp) as [fs1 [e|]]; cbn [fst snd] in *.
      * split; [by apply extends_dirs_weaken | done].
      * destruct (mkdir_exist_ok fs1 (rev rp ++ [n])) as [e | fs2] eqn:Hmk; cbn [fst snd].
        -- split; [by apply extends_dirs_weaken | done].
        -- apply mkdir_exist_ok_inr in Hmk as [_ [[-> Hd] | (Hnone & Hst & _ & ->)]].
           ++ split; [by apply extends_dirs_weaken | done].
           ++ split; [| intros _; apply is_dir_true; by apply stat_insert_new].
              apply extends_dirs_step; [done | done |]. by apply stat_inr in Hst as [? _].
    + apply Hsame.
    + split; [apply extends_dirs_refl | done].
    + destruct (fs !! (rev rp ++ [n])) eqn:E; [apply Hsame |].
      destruct (name_too_long n); [split; [apply extends_dirs_refl | done] |].
      cbn [fst snd]. split; [| intros _; apply is_dir_true; by apply stat_insert_new].
      apply extends_dirs_step; [apply extends_dirs_refl | done |].
      by apply stat_inr in Hstat as [? _].
    + apply Hsame.
Qed.

Lemma makeable_snoc (fs : FS) (l : list string) (n : string) :
  makeable fs l = true -> passable fs (l ++ [n]) = true -> path_too_long (l ++ [n]) = false ->
  makeable fs (l ++ [n]) = true.
Proof.
  intros Hl Hp Hlen. apply makeable_spec in Hl as (_ & Hroot & Hpass).
  apply makeable_spec. split; [done |]. split; [done |].
  intros q Hq. apply prefix_snoc_inv in Hq as [-> | Hq]; [done | by apply Hpass].
Qed.

Lemma is_dir_makeable (fs : FS) (p : list string) :
  is_dir fs p = true -> path_too_long p = false -> makeable fs p = true.
Proof.
  intros Hd Hlen. apply is_dir_true, stat_inr in Hd as [Hp Hdirs].
  assert (Hall : forall q, q `prefix_of` p -> fs !! q = Some Dir).
  { intros q Hq. destruct (decide (q = p)) as [-> | Hne]; [done | by apply Hdirs]. }
  apply makeable_spec. split; [done |]. split; [apply Hall, prefix_nil |].
  intros q Hq. by apply passable_dir, Hall.
Qed.

(** [mkdir -p] returns only where [makeable] holds *)
Lemma mkdir_parents_makeable (rp : list string) :
  forall fs : FS, (mkdir_parents fs rp).2 = None -> makeable fs (rev rp) = true.
Proof.
  induction rp as [|n rp IH]; intros fs.
  - cbn [mkdir_parents rev]. rewrite os_mkdir_nil.
    destruct (is_dir fs []) eqn:Hd; [| done]. intros _. by apply is_dir_makeable.
  - rewrite mkdir_parents_cons. cbn [rev].
    destruct (path_too_long (rev rp ++ [n])) eqn:Hlen; [done |].
    assert (Hsame : forall e : exn,
              (if is_dir fs (rev rp ++ [n]) then (fs, None) else (fs, Some e)).2 = None ->
              makeable fs (rev rp ++ [n]) = true).
    { intros e. destruct (is_dir fs (rev rp ++ [n])) eqn:Hd; [| done].
      intros _. by apply is_dir_makeable. }
    destruct (stat fs (rev rp)) as [[| |]|[|c]] eqn:Hstat.
    + pose proof (IH fs) as Hmk. destruct (mkdir_parents_frame rp fs) as [Hext _].
      destruct (mkdir_parents fs rp) as [fs1 [e|]]; cbn [fst snd] in *; [done |].
      destruct (mkdir_exist_ok fs1 (rev rp ++ [n])) as [e | fs2] eqn:Hok; [done |]. intros _.
      apply makeable_snoc; [by apply Hmk | | done].
      assert (Hsameq : fs1 !! (rev rp ++ [n]) = fs !! (rev rp ++ [n])).
      { destruct (Hext (rev rp ++ [n])) as [Hq | (_ & _ & Hpre & _)]; [done |].
        by apply prefix_snoc_not in Hpre. }
      unfold passable. rewrite <- Hsameq, last_last.
      apply mkdir_exist_ok_inr in Hok as [_ [[_ Hd] | (Hnone & _ & Hn & _)]].
      * apply is_dir_true, stat_inr in Hd as [-> _]. done.
      * by rewrite Hnone, Hn.
    + apply Hsame.
    + done.
    + destruct (fs !! (rev rp ++ [n])) eqn:E; [apply Hsame |].
      destruct (name_too_long n) eqn:Hn; [done |]. intros _.
      apply makeable_snoc; [| | done].
      * apply is_dir_makeable; [by apply is_dir_true |].
        apply (path_too_long_prefix _ (rev rp ++ [n])); [by apply prefix_app_r | done].
      * unfold passable. by rewrite E, last_last, Hn.
    + apply Hsame.
Qed.

(** in a tree, with every name within [NAME_MAX], a [mkdir -p] that raises
    has made nothing *)
Lemma mkdir_parents_fails (rp : list string) :
  forall (fs : FS) (e : exn),
  wf_fs fs = true ->
  Forall (fun n => name_too_long n = false) rp ->
  (mkdir_parents fs rp).2 = Some e -> (mkdir_parents fs rp).1 = fs.
Proof.
  induction rp as [|n rp IH]; intros fs e Hwf Hnames.
  - cbn [mkdir_parents rev]. rewrite os_mkdir_nil. by destruct (is_dir fs []).
  - apply Forall_cons in Hnames as [Hn Hnames]. rewrite mkdir_parents_cons.
    destruct (path_too_long (rev rp ++ [n])) eqn:Hlen; [done |].
    destruct (stat fs (rev rp)) as [[| |]|[|c]] eqn:Hstat.
    + pose proof (IH fs) as Hrec. destruct (mkdir_parents_frame rp fs) as [Hext Hdir].
      destruct (mkdir_parents fs rp) as [fs1 [e1|]]; cbn [fst snd] in *.
      * intros _. by apply (Hrec e1).
      * destruct (mkdir_exist_ok_spec fs1 (rev rp) n) as (fs2 & -> & _); [| | done | done].
        -- intros q Hq. pose proof (Hdir eq_refl) as Hd.
           apply is_dir_true, stat_inr in Hd as [Hp Hdirs].
           destruct (decide (q = rev rp)) as [-> | Hne]; [done | by apply Hdirs].
        -- assert (Hnone : fs !! (rev rp ++ [n]) = None).
           { destruct (fs !! (rev rp ++ [n])) as [nd|] eqn:E; [| done].
             pose proof Hwf as Hwf'. apply wf_fs_spec in Hwf' as [_ Hwf'].
             assert (Hl : fs !! rev rp = Some Dir) by (apply (Hwf' _ n); by eexists).
             rewrite (wf_fs_stat fs _ _ Hwf Hl) in Hstat. done. }
           unfold passable. rewrite last_last.
           destruct (Hext (rev rp ++ [n])) as [-> | (_ & _ & Hpre & _)];
             [by rewrite Hnone, Hn | by apply prefix_snoc_not in Hpre].
    + by destruct (is_dir fs _).
    + done.
    + destruct (fs !! _); [by destruct (is_dir fs _) |]. by rewrite Hn.
    + by destruct (is_dir fs _).
Qed.

Lemma path_mkdir_frame (fs : FS) (p : list string) :
  extends_dirs fs (path_mkdir fs p).1 p
  /\ ((path_mkdir fs p).2 = None -> is_dir (path_mkdir fs p).1 p = true).
Proof.
  unfold path_mkdir. pose proof (mkdir_parents_frame (rev p) fs) as H.
  by rewrite rev_involutive in H.
Qed.

(** [mkdir -p] returns exactly where [makeable] holds *)
Lemma path_mkdir_makeable (fs : FS) (p : list string) :
  (path_mkdir fs p).2 = None <-> makeable fs p = true.
Proof.
  unfold path_mkdir. split.
  - intros H. apply mkdir_parents_makeable in H. by rewrite rev_involutive in H.
  - intros H. destruct (mkdir_parents_spec (rev p) fs) as (fs1 & -> & _);
      [by rewrite rev_involutive | done].
Qed.

Lemma within_limits_prefix (q p : list string) :
  q `prefix_of` p -> within_limits p = true -> within_limits q = true.
Proof.
  unfold within_limits. intros Hq H. apply andb_true_iff in H as [Hlen Hnames].
  apply negb_true_iff in Hlen. apply andb_true_iff. split.
  - apply negb_true_iff. by apply (path_too_long_prefix q p).
  - destruct Hq as [k ->]. rewrite forallb_app in Hnames.
    by apply andb_true_iff in Hnames as [? _].
Qed.

Lemma within_limits_last (p : list string) :
  within_limits p = true -> name_too_long (List.last p "") = false.
Proof.
  unfold within_limits. intros H. apply andb_true_iff in H as [_ Hnames].
  destruct (decide (p = [])) as [-> | Hne]; [done |].
  destruct (exists_last Hne) as (l & n & ->). rewrite last_last.
  rewrite forallb_app in Hnames. apply andb_true_iff in Hnames as [_ Hn].
  cbn in Hn. rewrite andb_true_r in Hn. by apply negb_true_iff in Hn.
Qed.

Lemma path_mkdir_fails (fs : FS) (p : list string) (e : exn) :
  wf_fs fs = true -> within_limits p = true ->
  (path_mkdir fs p).2 = Some e -> (path_mkdir fs p).1 = fs.
Proof.
  unfold path_mkdir, within_limits. intros Hwf Hlim.
  apply andb_true_iff in Hlim as [_ Hlim]. apply (mkdir_parents_fails (rev p) fs e Hwf).
  apply List.Forall_forall. intros n Hin. apply in_rev in Hin.
  rewrite forallb_forall in Hlim. apply Hlim in Hin. by apply negb_true_iff in Hin.
Qed.

(** what [open(p, "w")] found when it returns *)
Lemma open_w_inr (fs fs' : FS) (p : list string) :
  open_w fs p = inr fs' ->
  fs' = <[p := File ""]> fs
  /\ fs !! p ≠ Some Dir
  /\ is_dir fs (parent p) = true
  /\ path_too_long p = false
  /\ (fs !! p = None -> name_too_long (List.last p "") = false).
Proof.
  unfold open_w, is_dir. destruct (path_too_long p); [done |].
  destruct (stat fs (parent p)) as [[| |]|[|c]]; try done.
  destruct (fs !! p) as [[|c]|]; [done | by intros [= <-] |].
  destruct (name_too_long _); [done | by intros [= <-]].
Qed.

(** within the limits, [open(p, "w")] in a directory raises only on a
    directory *)
Lemma open_w_inl (fs : FS) (p : list string) (e : exn) :
  open_w fs p = inl e -> is_dir fs (parent p) = true -> within_limits p = true ->
  fs !! p = Some Dir.
Proof.
  unfold open_w. intros H Hd Hlim. pose proof (within_limits_last p Hlim) as Hlast.
  apply andb_true_iff in Hlim as [Hlen _]. apply negb_true_iff in Hlen.
  apply is_dir_true in Hd. rewrite Hlen, Hd, Hlast in H.
  by destruct (fs !! p) as [[|c]|].
Qed.

(** every way [execute_action] can end on a dictionary: a refusal that
    touches nothing, a [mkdir -p] of the target, or a [mkdir -p] of the
    parent followed by the attempt to open and write the target *)
Lemma execute_action_effect (d : list (string * json)) (fs : FS) :
  let r := execute_action (JObj d) fs in
  let type := dict_get "type" d JNull in
  let content := dict_get "content" d (JStr "") in
  (exists msg, r = (fs, inr (false, msg)))
  \/ (exists p,
        let target := names (resolve (joinpath WORKSPACE_DIR p)) in
        dict_get "path" d JNull = JStr p
        /\ py_eq_str type "create_folder" = true
        /\ (workspace `prefix_of` target
            \/ resolve (joinpath WORKSPACE_DIR p) = joinpath WORKSPACE_DIR p)
        /\ r.1 = (path_mkdir fs target).1
        /\ (((path_mkdir fs target).2 = None
             /\ r.2 = inr (true, "Folder created/ensured: " +:+ p))
            \/ (exists e msg, (path_mkdir fs target).2 = Some e /\ r.2 = inr (false, msg))))
  \/ (exists p,
        let target := names (resolve (joinpath WORKSPACE_DIR p)) in
        let fs1 := (path_mkdir fs (parent target)).1 in
        dict_get "path" d JNull = JStr p
        /\ py_eq_str type "create_folder" = false
        /\ workspace `prefix_of` target
        /\ (((exists e, (path_mkdir fs (parent target)).2 = Some e
                        \/ ((path_mkdir fs (parent target)).2 = None
                            /\ open_w fs1 target = inl e))
             /\ exists msg, r = (fs1, inr (false, msg)))
            \/ ((path_mkdir fs (parent target)).2 = None
                /\ open_w fs1 target = inr (<[target := File ""]> fs1)
                /\ ((exists c msg, content = JStr c /\ encodable c = true
                                   /\ r = (<[target := File c]> fs1, inr (true, msg)))
                    \/ ((forall c, content = JStr c -> encodable c = false)
                        /\ exists msg, r = (<[target := File ""]> fs1, inr (false, msg))))))).
Proof.
  intros r type content. subst r. unfold execute_action. fold type content.
  destruct (negb (truthy type) || negb (truthy (dict_get "path" d JNull)));
    [left; eexists; reflexivity |].
  rewrite run_try_except. unfold action_body.
  destruct (dict_get "path" d JNull) as [| | | |p| |] eqn:Hpath; try (left; eexists; reflexivity).
  set (target := names (resolve (joinpath WORKSPACE_DIR p))).
  assert (Hfolder : py_eq_str type "create_folder" = true ->
            (workspace `prefix_of` target
             \/ resolve (joinpath WORKSPACE_DIR p) = joinpath WORKSPACE_DIR p) ->
            let r := match (mkdir_p (names (resolve (joinpath WORKSPACE_DIR p)));;
                            mret (true, "Folder created/ensured: " +:+ p)) fs with
                     | (s', inr a) => (s', inr a)
                     | (s', inl e) =>
                         (mret (false, "Error performing '" +:+ py_str type +:+ "' on '"
                                         +:+ py_str (JStr p) +:+ "': " +:+ exc_str e) : M FS _) s'
                     end in
            exists p0, JStr p = JStr p0 /\ py_eq_str type "create_folder" = true
                  /\ (workspace `prefix_of` names (resolve (joinpath WORKSPACE_DIR p0))
                      \/ resolve (joinpath WORKSPACE_DIR p0) = joinpath WORKSPACE_DIR p0)
                  /\ r.1 = (path_mkdir fs (names (resolve (joinpath WORKSPACE_DIR p0)))).1
                  /\ (((path_mkdir fs (names (resolve (joinpath WORKSPACE_DIR p0)))).2 = None
                       /\ r.2 = inr (true, "Folder created/ensured: " +:+ p0))
                      \/ (exists e msg,
                            (path_mkdir fs (names (resolve (joinpath WORKSPACE_DIR p0)))).2 = Some e
                            /\ r.2 = inr (false, msg)))).
  { intros Hty Hin r. subst r target. rewrite run_bind, run_mkdir_p. exists p.
    destruct (path_mkdir fs (names (resolve (joinpath WORKSPACE_DIR p)))) as [fs1 [e|]] eqn:Hmk.
    - split; [done |]. split; [done |]. split; [done |]. split; [done |].
      right. eexists _, _. split; reflexivity.
    - rewrite run_ret. split; [done |]. split; [done |]. split; [done |]. split; [done |].
      by left. }
  destruct (negb (bool_decide (WORKSPACE_DIR ∈ parents (resolve (joinpath WORKSPACE_DIR p))))
            && negb (bool_decide (resolve (joinpath WORKSPACE_DIR p) = WORKSPACE_DIR)))
    eqn:Htest.
  - destruct (py_eq_str type "create_folder") eqn:Hty; cbn [andb negb]; [| left; eexists; reflexivity].
    destruct (bool_decide (resolve (joinpath WORKSPACE_DIR p) = joinpath WORKSPACE_DIR p))
      eqn:Hsame; cbn [negb]; [| left; eexists; reflexivity].
    apply bool_decide_eq_true in Hsame.
    right. left. exact (Hfolder eq_refl (or_intror Hsame)).
  - rewrite resolve_root in Htest. apply sandbox_test in Htest. fold target in Htest.
    destruct (py_eq_str type "create_folder") eqn:Hty.
    { right. left. exact (Hfolder eq_refl (or_introl Htest)). }
    destruct (py_eq_str type "create_file" || py_eq_str type "edit_file"); [| left; eexists; reflexivity].
    right. right. exists p. fold target. cbv zeta.
    split; [done |]. split; [done |]. split; [done |].
    rewrite run_bind, run_mkdir_p.
    destruct (path_mkdir fs (parent target)) as [fs1 [e|]] eqn:Hmk; cbn [fst snd].
    + left. split; [exists e; by left | eexists; reflexivity].
    + rewrite run_bind, run_fs_op.
      destruct (open_w fs1 target) as [e | fs2] eqn:Hopen.
      * left. split; [exists e; by right | eexists; reflexivity].
      * right. split; [done |]. apply open_w_inr in Hopen as (-> & _). split; [done |].
        rewrite run_bind. unfold fs_write, write_close.
        destruct content as [| | | |c| |] eqn:Hc;
          try (right; split; [done |]; eexists; reflexivity).
        destruct (encodable c) eqn:Henc.
        -- left. rewrite insert_insert_eq. eexists _, _. split; [done |]. split; [done | reflexivity].
        -- right. split; [by intros c' [= <-] |]. eexists. reflexivity.
Qed.

Lemma execute_action_not_dict (a : json) (fs : FS) :
  is_dict a = false -> execute_action a fs = (fs, inl (AttributeError a)).
Proof. by destruct a. Qed.

Lemma execute_action_keeps (a : json) (fs : FS) (q : list string) :
  (fs !! q = Some Dir -> (execute_action a fs).1 !! q = Some Dir)
  /\ (is_Some (fs !! q) -> is_Some ((execute_action a fs).1 !! q)).
Proof.
  destruct (is_dict a) eqn:Ha; [| by rewrite execute_action_not_dict].
  destruct a as [| | | | | |d]; try discriminate.
  destruct (execute_action_effect d fs)
    as [[msg ->] | [(p & _ & _ & _ & Hr & _) | (p & _ & _ & _ & Hcases)]];
    [done | |].
  - rewrite Hr. destruct (path_mkdir_frame fs (names (resolve (joinpath WORKSPACE_DIR p))))
      as [Hext _]. split.
    + by apply (extends_dirs_keeps _ _ _ _ _ Hext).
    + intros [nd Hq]. exists nd. by apply (extends_dirs_keeps _ _ _ _ _ Hext).
  - set (target := names (resolve (joinpath WORKSPACE_DIR p))) in *.
    destruct (path_mkdir_frame fs (parent target)) as [Hext _].
    set (fs1 := (path_mkdir fs (parent target)).1) in *.
    assert (Hkeep : forall nd, fs !! q = Some nd -> fs1 !! q = Some nd)
      by (intros nd; apply (extends_dirs_keeps _ _ _ _ _ Hext)).
    assert (Hins : forall nd',
              fs1 !! target ≠ Some Dir ->
              (fs !! q = Some Dir -> <[target := nd']> fs1 !! q = Some Dir)
              /\ (is_Some (fs !! q) -> is_Some (<[target := nd']> fs1 !! q))).
    { intros nd' Hnot. destruct (decide (target = q)) as [<- | Hne].
      - split; [by intros Hq%Hkeep | intros _; by rewrite lookup_insert_eq].
      - rewrite lookup_insert_ne by done. split; [by apply Hkeep |].
        intros [nd Hq]. exists nd. by apply Hkeep. }
    destruct Hcases
      as [(_ & msg & ->) | (_ & Hopen & [(c & msg & _ & _ & ->) | (_ & msg & ->)])].
    + split; [by apply Hkeep |]. intros [nd Hq]. exists nd. by apply Hkeep.
    + apply open_w_inr in Hopen as (_ & Hnot & _). by apply Hins.
    + apply open_w_inr in Hopen as (_ & Hnot & _). by apply Hins.
Qed.

(** X1: [execute_action] never deletes an entry and never changes the
    kind of one: a path that is a directory stays one, a path that is a
    regular file stays one (its content may change), and a path that exists
    still exists, whatever the action and however the call ends. *)
Theorem X1_execute_action_keeps_entries (a : json) (fs : FS) (q : list string) :
  (fs !! q = Some Dir -> (execute_action a fs).1 !! q = Some Dir)
  /\ (forall c, fs !! q = Some (File c) -> exists c', (execute_action a fs).1 !! q = Some (File c'))
  /\ (is_Some (fs !! q) -> is_Some ((execute_action a fs).1 !! q)).
Proof.
  destruct (execute_action_keeps a fs q) as [Hdir Hsome].
  split; [done |]. split; [| done]. intros c Hc.
  destruct (is_dict a) eqn:Ha; [| rewrite execute_action_not_dict by done; by exists c].
  destruct a as [| | | | | |d]; try discriminate.
  destruct (execute_action_effect d fs)
    as [[msg ->] | [(p & _ & _ & _ & Hr & _) | (p & _ & _ & _ & Hcases)]].
  - by exists c.
  - rewrite Hr. destruct (path_mkdir_frame fs (names (resolve (joinpath WORKSPACE_DIR p))))
      as [Hext _]. exists c. by apply (extends_dirs_keeps _ _ _ _ _ Hext).
  - set (target := names (resolve (joinpath WORKSPACE_DIR p))) in *.
    destruct (path_mkdir_frame fs (parent target)) as [Hext _].
    set (fs1 := (path_mkdir fs (parent target)).1) in *.
    pose proof (extends_dirs_keeps _ _ _ _ _ Hext Hc) as Hc1.
    assert (Hins : forall c0, exists c', <[target := File c0]> fs1 !! q = Some (File c')).
    { intros c0. destruct (decide (target = q)) as [<- | Hne].
      - exists c0. by rewrite lookup_insert_eq.
      - exists c. by rewrite lookup_insert_ne. }
    destruct Hcases as [(_ & msg & ->) | (_ & _ & [(c' & msg & _ & _ & ->) | (_ & msg & ->)])];
      cbn [fst]; [by exists c | apply Hins | apply Hins].
Qed.

Lemma wf_fs_extends (fs fs1 : FS) (p : list string) :
  wf_fs fs = true -> extends_dirs fs fs1 p -> wf_fs fs1 = true.
Proof.
  intros Hwf Hext. apply wf_fs_spec in Hwf as [Hroot Hwf]. apply wf_fs_spec. split.
  - by apply (extends_dirs_keeps _ _ _ _ _ Hext).
  - intros l n [nd Hnd]. destruct (Hext (l ++ [n])) as [Heq | (_ & _ & _ & _ & Hpar)].
    + apply (extends_dirs_keeps _ _ _ _ _ Hext). apply (Hwf l n). rewrite <- Heq. by eexists.
    + by rewrite parent_snoc in Hpar.
Qed.

Lemma wf_fs_insert_file (fs : FS) (p : list string) (c : string) :
  wf_fs fs = true -> is_dir fs (parent p) = true -> fs !! p ≠ Some Dir ->
  wf_fs (<[p := File c]> fs) = true.
Proof.
  intros Hwf Hd Hnot. apply wf_fs_spec in Hwf as [Hroot Hwf].
  apply is_dir_true, stat_inr in Hd as [Hpar _].
  assert (Hp : p ≠ []) by (intros ->; done).
  apply wf_fs_spec. split.
  - by rewrite lookup_insert_ne.
  - intros l n Hsome. destruct (decide (p = l ++ [n])) as [-> | Hne].
    + rewrite parent_snoc in Hpar. rewrite lookup_insert_ne; [done |].
      intros Heq. apply (f_equal length) in Heq. rewrite length_app in Heq. cbn in Heq. lia.
    + rewrite lookup_insert_ne in Hsome by done. pose proof (Hwf l n Hsome) as Hl.
      rewrite lookup_insert_ne; [done |]. intros <-. done.
Qed.

Lemma execute_action_wf (a : json) (fs : FS) :
  wf_fs fs = true -> wf_fs (execute_action a fs).1 = true.
Proof.
  intros Hwf.
  destruct (is_dict a) eqn:Ha; [| by rewrite execute_action_not_dict].
  destruct a as [| | | | | |d]; try discriminate.
  destruct (execute_action_effect d fs)
    as [[msg ->] | [(p & _ & _ & _ & Hr & _) | (p & _ & _ & _ & Hcases)]];
    [done | |].
  - rewrite Hr. destruct (path_mkdir_frame fs (names (resolve (joinpath WORKSPACE_DIR p))))
      as [Hext _]. by apply (wf_fs_extends fs _ _ Hwf Hext).
  - set (target := names (resolve (joinpath WORKSPACE_DIR p))) in *.
    destruct (path_mkdir_frame fs (parent target)) as [Hext _].
    set (fs1 := (path_mkdir fs (parent target)).1) in *.
    pose proof (wf_fs_extends fs _ _ Hwf Hext) as Hwf1.
    destruct Hcases
      as [(_ & msg & ->) | (_ & Hopen & [(c & msg & _ & _ & ->) | (_ & msg & ->)])];
      [done | |]; apply open_w_inr in Hopen as (_ & Hnot & Hd & _);
      by apply wf_fs_insert_file.
Qed.

(** X2: [execute_action] keeps the file system a tree: if the root is a
    directory and every entry lies in a directory before the call, the same
    holds after it, for every action and every outcome. *)
Theorem X2_execute_action_keeps_tree (a : json) (fs : FS) :
  wf_fs fs = true -> wf_fs (execute_action a fs).1 = true.
Proof. exact (execute_action_wf a fs). Qed.

(** in a tree, [mkdir -p] of a path that leads to an existing entry makes
    nothing *)
Lemma extends_dirs_nothing (fs fs1 : FS) (l : list string) :
  wf_fs fs = true -> is_Some (fs !! l) -> extends_dirs fs fs1 l -> fs1 = fs.
Proof.
  intros Hwf Hl Hext. apply map_eq. intros q.
  destruct (Hext q) as [Hq | (Hnone & _ & Hpre & _)]; [done |].
  destruct (decide (q = l)) as [-> | Hne].
  - destruct Hl as [nd Hl]. congruence.
  - rewrite (wf_fs_ancestors fs l Hwf Hl q Hpre Hne) in Hnone. done.
Qed.

Lemma parent_prefix (l : list string) : parent l `prefix_of` l.
Proof.
  destruct (decide (l = [])) as [-> | Hne]; [done |].
  destruct (exists_last Hne) as (l' & n & ->). rewrite parent_snoc. by exists [n].
Qed.

(** X3: in a tree, an action whose path stays within the limits of the
    system (every name of the target within [NAME_MAX], the target within
    [PATH_MAX]) and whose content is text that UTF-8 can encode (or absent)
    has changed nothing when it reports failure. *)
Theorem X3_failure_changes_nothing (d : list (string * json)) (fs : FS) (c msg : string) :
  wf_fs fs = true ->
  dict_get "content" d (JStr "") = JStr c ->
  encodable c = true ->
  (forall p, dict_get "path" d JNull = JStr p ->
             within_limits (names (resolve (joinpath WORKSPACE_DIR p))) = true) ->
  (execute_action (JObj d) fs).2 = inr (false, msg) ->
  (execute_action (JObj d) fs).1 = fs.
Proof.
  intros Hwf Hc Henc Hlim Hfail.
  destruct (execute_action_effect d fs)
    as [[m ->] | [(p & Hp & _ & _ & Hr & Hres) | (p & Hp & _ & _ & Hcases)]];
    [done | |].
  - rewrite Hr. destruct Hres as [[_ Hok] | (e & _ & He & _)]; [congruence |].
    by apply (path_mkdir_fails fs _ e Hwf (Hlim p Hp)).
  - specialize (Hlim p Hp).
    set (target := names (resolve (joinpath WORKSPACE_DIR p))) in *.
    pose proof (within_limits_prefix _ _ (parent_prefix target) Hlim) as Hlimp.
    destruct (path_mkdir_frame fs (parent target)) as [Hext Hdir].
    set (fs1 := (path_mkdir fs (parent target)).1) in *.
    destruct Hcases as [([e [He | [Hmk Hopen]]] & m & ->)
                       | (_ & _ & [(c' & m & _ & _ & Hr) | (Hno & _)])]; cbn [fst].
    + by apply (path_mkdir_fails fs _ e Hwf Hlimp).
    + pose proof (open_w_inl fs1 target e Hopen (Hdir Hmk) Hlim) as Ht.
      destruct (decide (target = [])) as [Hnil | Hnil].
      * rewrite Hnil in Hext. cbn in Hext. apply (extends_dirs_nothing fs fs1 []); try done.
        apply wf_fs_spec in Hwf as [-> _]. by eexists.
      * destruct (exists_last Hnil) as (l & n & Hl). rewrite Hl, parent_snoc in Hext.
        assert (Ht' : fs !! target = Some Dir).
        { destruct (Hext target) as [<- | (_ & _ & Hpre & _)]; [done |].
          rewrite Hl in Hpre. by apply prefix_snoc_not in Hpre. }
        apply (extends_dirs_nothing fs fs1 l); try done.
        apply wf_fs_spec in Hwf as [_ Hwf]. rewrite (Hwf l n); [by eexists |].
        rewrite <- Hl, Ht'. by eexists.
    + rewrite Hr in Hfail. discriminate.
    + rewrite (Hno c Hc) in Henc. discriminate.
Qed.

(** X4: a write whose [content] is not text destroys the file it fails to
    write.  Inside the workspace, on a target that can be written, the call
    reports the [TypeError] of [f.write] as a failure, but [open(.., "w")] has
    already run: the missing ancestors are made and the target is left an
    empty file, whatever it held before. *)
Theorem X4_non_text_content_truncates (d : list (string * json)) (kind p : string) (fs : FS) :
  let target := names (resolve (joinpath WORKSPACE_DIR p)) in
  let content := dict_get "content" d (JStr "") in
  kind = "create_file" \/ kind = "edit_file" ->
  dict_get "type" d JNull = JStr kind ->
  dict_get "path" d JNull = JStr p ->
  (forall c, content ≠ JStr c) ->
  p ≠ "" ->
  workspace `prefix_of` target ->
  writable fs target = true ->
  exists fs1,
    made fs fs1 (parent target)
    /\ execute_action (JObj d) fs
       = (<[target := File ""]> fs1,
          inr (false, "Error performing '" +:+ kind +:+ "' on '" +:+ p +:+ "': "
                        +:+ exc_str (TypeError content))).
Proof.
  intros target content Hkind Htype Hpath Hcontent Hne Hin Hok.
  destruct (mkdir_parents_spec (rev (parent target)) fs) as (fs1 & Hmk & Hmade).
  { rewrite rev_involutive. apply andb_true_iff in Hok as [Hok _].
    by apply andb_true_iff in Hok as [Hok _]. }
  rewrite rev_involutive in Hmade. exists fs1. split; [done |].
  pose proof (open_after_mkdir fs fs1 target Hok Hmade) as Hopen.
  unfold execute_action. fold content. rewrite Htype, Hpath, (truthy_str p Hne).
  assert (truthy (JStr kind) = true) as -> by (by destruct Hkind as [-> | ->]).
  cbn [negb orb]. rewrite run_try_except. unfold action_body.
  apply sandbox_test in Hin. rewrite resolve_root. fold target. rewrite Hin.
  assert (py_eq_str (JStr kind) "create_folder" = false) as ->
    by (by destruct Hkind as [-> | ->]).
  assert (py_eq_str (JStr kind) "create_file" || py_eq_str (JStr kind) "edit_file" = true) as ->
    by (by destruct Hkind as [-> | ->]).
  cbn [names]. fold target.
  rewrite run_bind, run_mkdir_p. unfold path_mkdir. rewrite Hmk.
  rewrite run_bind, run_fs_op, Hopen.
  rewrite run_bind. unfold fs_write, write_close.
  destruct content as [| | | |c| |] eqn:Hc; try reflexivity.
  by destruct (Hcontent c).
Qed.

Lemma joinpath_relative (p : string) :
  parse_root p = NoRoot ->
  joinpath WORKSPACE_DIR p = MkPath Slash (workspace ++ names (parse_path p)).
Proof. intros Hrel. unfold joinpath. cbn [parse_path root_of]. by rewrite Hrel. Qed.

(** below an existing workspace, [mkdir -p] of a path inside it makes
    nothing outside it *)
Lemma extends_dirs_inside (fs fs1 : FS) (l target q : list string) :
  is_dir fs workspace = true ->
  workspace `prefix_of` target -> l `prefix_of` target ->
  extends_dirs fs fs1 l ->
  ¬ workspace `prefix_of` q -> fs1 !! q = fs !! q.
Proof.
  intros Hws Hin Hl Hext Hout. destruct (Hext q) as [Hq | (Hnone & _ & Hpre & _)]; [done |].
  exfalso. apply is_dir_true, stat_inr in Hws as [Hws Hdirs].
  destruct (prefix_weak_total q workspace target) as [Hq | Hq]; [by etrans | done | | done].
  destruct (decide (q = workspace)) as [-> | Hne]; [congruence |].
  rewrite (Hdirs q Hq Hne) in Hnone. done.
Qed.

Lemma execute_action_outside (a : json) (fs : FS) (q : list string) :
  is_dir fs workspace = true ->
  stays_inside a = true ->
  ¬ workspace `prefix_of` q ->
  (execute_action a fs).1 !! q = fs !! q.
Proof.
  intros Hws Hsafe Hout.
  destruct (is_dict a) eqn:Ha; [| by rewrite execute_action_not_dict].
  destruct a as [| | | | | |d]; try discriminate.
  destruct (execute_action_effect d fs)
    as [[msg ->] | [(p & Hp & Hty & Hin & Hr & _) | (p & _ & _ & Hin & Hcases)]];
    [done | |].
  - rewrite Hr. destruct (path_mkdir_frame fs (names (resolve (joinpath WORKSPACE_DIR p))))
      as [Hext _].
    assert (Hin' : workspace `prefix_of` names (resolve (joinpath WORKSPACE_DIR p))).
    { destruct Hin as [Hin | Hsame]; [done |].
      cbn [stays_inside] in Hsafe. rewrite Hty, Hp in Hsafe. cbn [negb orb] in Hsafe.
      apply bool_decide_eq_true in Hsafe.
      rewrite Hsame, (joinpath_relative p Hsafe). cbn [names]. by apply prefix_app_r. }
    by apply (extends_dirs_inside fs _ _ _ q Hws Hin' (reflexivity _) Hext).
  - set (target := names (resolve (joinpath WORKSPACE_DIR p))) in *.
    destruct (path_mkdir_frame fs (parent target)) as [Hext _].
    set (fs1 := (path_mkdir fs (parent target)).1) in *.
    pose proof (extends_dirs_inside fs fs1 _ target q Hws Hin (parent_prefix target) Hext Hout)
      as Hq.
    assert (Hne : target ≠ q) by (intros <-; done).
    destruct Hcases as [(_ & msg & ->) | (_ & _ & [(c & msg & _ & _ & ->) | (_ & msg & ->)])];
      cbn [fst]; by rewrite ?lookup_insert_ne.
Qed.

(** X5: the sandbox holds for every action that cannot take the exemption
    of line 55.  When the workspace exists, an action that is not a
    [create_folder], or whose path is relative, leaves every path outside the
    workspace exactly as it was, whether it succeeds, fails or raises. *)
Theorem X5_nothing_outside_workspace (a : json) (fs : FS) (q : list string) :
  is_dir fs workspace = true ->
  stays_inside a = true ->
  ¬ workspace `prefix_of` q ->
  (execute_action a fs).1 !! q = fs !! q.
Proof. exact (execute_action_outside a fs q). Qed.

(** a [create_folder] inside the workspace is [mkdir -p] of the target *)
Lemma create_folder_runs (d : list (string * json)) (p : string) (fs : FS) :
  let target := names (resolve (joinpath WORKSPACE_DIR p)) in
  dict_get "type" d JNull = JStr "create_folder" ->
  dict_get "path" d JNull = JStr p ->
  p ≠ "" ->
  workspace `prefix_of` target ->
  execute_action (JObj d) fs
  = match path_mkdir fs target with
    | (fs1, None) => (fs1, inr (true, "Folder created/ensured: " +:+ p))
    | (fs1, Some e) =>
        (fs1, inr (false, "Error performing 'create_folder' on '" +:+ p
                            +:+ "': " +:+ exc_str e))
    end.
Proof.
  intros target Htype Hpath Hne Hin.
  unfold execute_action. rewrite Htype, Hpath, (truthy_str p Hne).
  rewrite (truthy_str "create_folder") by done. cbn [negb orb].
  rewrite run_try_except. unfold action_body.
  apply sandbox_test in Hin. rewrite resolve_root. fold target. rewrite Hin.
  cbn [py_eq_str]. change (String.eqb "create_folder" "create_folder") with true. cbn iota.
  rewrite run_bind, run_mkdir_p. cbn [names]. fold target.
  by destruct (path_mkdir fs target) as [fs1 [e|]].
Qed.



(** X8: start-up (lines 17 to 22).  The process goes on exactly when no
    regular file lies at the workspace path or above it (and the names to be
    made are within the limits of the system); the workspace is then a
    directory, its missing ancestors were made, nothing else has changed. *)
Theorem X8_startup_ensures_workspace (fs : FS) :
  (is_Some (ensure_workspace fs) <-> makeable fs workspace = true)
  /\ (forall fs1, ensure_workspace fs = Some fs1 ->
        is_dir fs1 workspace = true /\ made fs fs1 workspace).
Proof.
  unfold ensure_workspace.
  pose proof (path_mkdir_makeable fs workspace) as Hiff.
  destruct (path_mkdir_frame fs workspace) as [_ Hd].
  assert (Hok : makeable fs workspace = true ->
                exists fs1, path_mkdir fs workspace = (fs1, None) /\ made fs fs1 workspace).
  { intros H. destruct (mkdir_parents_spec (rev workspace) fs) as (fs1 & Hmk & Hmade).
    - by rewrite rev_involutive.
    - rewrite rev_involutive in Hmade. by exists fs1. }
  destruct (path_mkdir fs workspace) as [f [e|]] eqn:Hmk; cbn [fst snd] in *.
  - split; [| done]. split; [by intros [? ?] |]. intros H. by apply Hiff in H.
  - split; [split; [intros _; by apply Hiff | by eexists] |].
    intros fs1 [= <-]. split; [by apply Hd |].
    destruct Hok as (f' & Hf & Hmade); [by apply Hiff |]. by injection Hf as <-.
Qed.


(** ** Beyond the frozen claims: every turn of the generator *)

Lemma grows_refl (s : state) : grows s s.
Proof. by repeat split. Qed.

Lemma grows_trans (s1 s2 s3 : state) : grows s1 s2 -> grows s2 s3 -> grows s1 s3.
Proof. intros (? & ? & ?) (? & ? & ?). repeat split; by etrans. Qed.

Lemma steady_ret {A} (a : A) : steady (mret a).
Proof. intros s. split; [apply grows_refl | done]. Qed.

Lemma steady_raise {A} (e : exn) : steady (raise e : M state A).
Proof. intros s. split; [apply grows_refl | done]. Qed.

Lemma steady_from_result {A} (r : exn + A) : steady (from_result r : M state A).
Proof. intros s. split; [apply grows_refl | done]. Qed.

Lemma steady_bind {A B} (c : M state A) (k : A -> M state B) :
  steady c -> (forall a, steady (k a)) -> steady (c ≫= k).
Proof.
  intros Hc Hk s. rewrite run_bind. destruct (Hc s) as [Hg Hs].
  destruct (c s) as [s' [e | a]]; [done |]. cbn [fst] in *.
  destruct (Hk a s') as [Hg' Hs']. split; [by apply (grows_trans _ s') | auto].
Qed.

Lemma steady_try {A} (body : M state A) (handler : exn -> M state A) :
  steady body -> (forall e, steady (handler e)) -> steady (try_except body handler).
Proof.
  intros Hb Hh s. rewrite run_try_except. destruct (Hb s) as [Hg Hs].
  destruct (body s) as [s' [e | a]]; [| done]. cbn [fst] in *.
  destruct (Hh e s') as [Hg' Hs']. split; [by apply (grows_trans _ s') | auto].
Qed.

Lemma steady_append (content : json) : steady (append_assistant content).
Proof.
  intros s. unfold append_assistant. cbn. split.
  - repeat split; try done. by apply prefix_app_r.
  - unfold snapshots_ok. cbn. intros Hs. eapply Forall_impl; [exact Hs |].
    intros e He. by apply prefix_app_r.
Qed.

Lemma steady_yield (b : bool) : steady (yield b).
Proof.
  intros s. rewrite run_yield. unfold yielded. cbn. split.
  - repeat split; try done. by apply prefix_app_r.
  - unfold snapshots_ok. cbn. intros Hs. apply Forall_app. split; [done |].
    by repeat constructor.
Qed.

Lemma steady_call (a : json) : steady (call_execute_action a).
Proof.
  intros s. rewrite run_call_execute_action. cbn. split; [| done].
  repeat split; try done. by apply prefix_app_r.
Qed.

Lemma steady_plan_loop (N : nat) (plan : list json) : forall i, steady (plan_loop N i plan).
Proof.
  induction plan as [|a rest IH]; intros i; cbn [plan_loop]; [apply steady_ret |].
  apply steady_bind; [intros s; split; [apply grows_refl | done] |]. intros s0.
  destruct (halt_requested s0).
  - repeat (apply steady_bind; [first [apply steady_append | apply steady_yield] | intros _]).
    apply steady_ret.
  - apply steady_bind.
    + unfold run_step.
      apply steady_bind; [apply steady_append | intros _].
      apply steady_bind; [apply steady_yield | intros _].
      apply steady_bind; [apply steady_call | intros r].
      apply steady_bind; [apply steady_append | intros _].
      apply steady_bind; [apply steady_yield | intros _]. apply steady_ret.
    + intros r. destruct (negb r.1); [| apply IH].
      repeat (apply steady_bind; [first [apply steady_append | apply steady_yield] | intros _]).
      apply steady_ret.
Qed.

Lemma steady_notice (content : json) : steady (append_assistant content;; yield false).
Proof. apply steady_bind; [apply steady_append | intros _; apply steady_yield]. Qed.

Lemma steady_process_response (parsed : option json) (err : string) :
  steady (process_response parsed err).
Proof.
  unfold process_response.
  destruct parsed as [v|]; [| apply steady_notice].
  destruct v as [| b | n | x | str | items | [|f d]];
    try (destruct (truthy _); [apply steady_raise | apply steady_notice]).
  destruct (py_eq_str _ "plan"); [| destruct (py_eq_str _ "informational")];
      try apply steady_notice.
    unfold process_plan.
    destruct (dict_get "plan_steps" (f :: d) (JArr [])) as [| | | | |steps|];
      try apply steady_notice.
    destruct (truthy (JArr steps)); [| apply steady_notice].
    unfold execute_plan.
    apply steady_bind; [apply steady_from_result | intros lang_str].
    apply steady_bind; [apply steady_append | intros _].
    apply steady_bind; [apply steady_yield | intros _].
    apply steady_bind; [apply steady_plan_loop | intros flags].
    unfold after_loop, pass. destruct (negb flags.2); [| apply steady_ret].
    apply steady_bind; [| intros _; apply steady_yield].
    destruct flags.1; [apply steady_append | apply steady_ret].
Qed.

Lemma steady_agent (reply : exn + string) : steady (agent_chat_response reply).
Proof.
  unfold agent_chat_response.
  apply steady_bind; [intros s; split; [by repeat split | done] | intros _].
  apply steady_bind; [apply steady_yield | intros _].
  apply steady_bind; [| intros _; apply steady_yield].
  apply steady_try; [| intros e; apply steady_notice].
  apply steady_bind; [apply steady_append | intros _].
  apply steady_bind; [apply steady_yield | intros _].
  apply steady_bind; [apply steady_from_result | intros raw].
  destruct (parse_response raw); apply steady_process_response.
Qed.

Lemma quiet_ret {A} (a : A) : quiet (mret a : M state A).
Proof. by intros s. Qed.

Lemma quiet_raise {A} (e : exn) : quiet (raise e : M state A).
Proof. by intros s. Qed.

Lemma quiet_from_result {A} (r : exn + A) : quiet (from_result r : M state A).
Proof. by intros s. Qed.

Lemma quiet_append (content : json) : quiet (append_assistant content).
Proof. by intros s. Qed.

Lemma quiet_yield (b : bool) : quiet (yield b).
Proof. by intros s. Qed.

Lemma quiet_bind {A B} (c : M state A) (k : A -> M state B) :
  quiet c -> (forall a, quiet (k a)) -> quiet (c ≫= k).
Proof.
  intros Hc Hk s. rewrite run_bind. destruct (Hc s) as [Ha Hd].
  destruct (c s) as [s' [e | a]]; [done |]. cbn [fst] in *.
  destruct (Hk a s') as [Ha' Hd']. split; congruence.
Qed.

Lemma quiet_try {A} (body : M state A) (handler : exn -> M state A) :
  quiet body -> (forall e, quiet (handler e)) -> quiet (try_except body handler).
Proof.
  intros Hb Hh s. rewrite run_try_except. destruct (Hb s) as [Ha Hd].
  destruct (body s) as [s' [e | a]]; [| done]. cbn [fst] in *.
  destruct (Hh e s') as [Ha' Hd']. split; congruence.
Qed.

Lemma quiet_notice (content : json) : quiet (append_assistant content;; yield false).
Proof. apply quiet_bind; [apply quiet_append | intros _; apply quiet_yield]. Qed.

Lemma only_runs_quiet {A} (steps : list json) (c : M state A) : quiet c -> only_runs steps c.
Proof.
  intros Hc s. destruct (Hc s) as [Ha Hd]. exists []. rewrite app_nil_r.
  split; [apply prefix_nil | done].
Qed.

Lemma only_runs_after {A B} (steps : list json) (c : M state A) (k : A -> M state B) :
  quiet c -> (forall a, only_runs steps (k a)) -> only_runs steps (c ≫= k).
Proof.
  intros Hc Hk s. rewrite run_bind. destruct (Hc s) as [Ha Hd].
  destruct (c s) as [s' [e | a]]; cbn [fst] in *.
  - exists []. rewrite app_nil_r. split; [apply prefix_nil | done].
  - destruct (Hk a s') as (done & Hp & Ha' & Hd'). exists done. rewrite <- Ha, <- Hd. done.
Qed.

Lemma only_runs_then {A B} (steps : list json) (c : M state A) (k : A -> M state B) :
  only_runs steps c -> (forall a, quiet (k a)) -> only_runs steps (c ≫= k).
Proof.
  intros Hc Hk s. rewrite run_bind. destruct (Hc s) as (done & Hp & Ha & Hd).
  destruct (c s) as [s' [e | a]]; cbn [fst] in *; [by exists done |].
  destruct (Hk a s') as [Ha' Hd']. exists done. rewrite Ha', Hd'. done.
Qed.

Lemma only_runs_try {A} (steps : list json) (body : M state A) (handler : exn -> M state A) :
  only_runs steps body -> (forall e, quiet (handler e)) -> only_runs steps (try_except body handler).
Proof.
  intros Hb Hh s. rewrite run_try_except. destruct (Hb s) as (done & Hp & Ha & Hd).
  destruct (body s) as [s' [e | a]]; cbn [fst] in *; [| by exists done].
  destruct (Hh e s') as [Ha' Hd']. exists done. rewrite Ha', Hd'. done.
Qed.

(** one iteration calls [execute_action] once, on its step and on the file
    system as it stands, whether the call returns or raises *)
Lemma run_step_effect (N i : nat) (a : json) (s : state) :
  attempted (run_step N i a s).1 = attempted s ++ [a]
  /\ disk (run_step N i a s).1 = (execute_action a (disk s)).1.
Proof.
  destruct (execute_action a (disk s)) as [fs' [e | [ok msg]]] eqn:Hex.
  - by rewrite (run_step_raises _ _ _ _ _ _ Hex).
  - by rewrite (run_step_returns _ _ _ _ _ _ _ Hex).
Qed.

Lemma plan_loop_cons (N i : nat) (a : json) (rest : list json) (s : state) :
  plan_loop N i (a :: rest) s
  = if halt_requested s then (say (halt_message i);; yield false;; mret (true, true)) s
    else (r ← run_step N i a;
          if negb r.1 then say stopping_message;; yield false;; mret (false, false)
          else plan_loop N (S i) rest) s.
Proof. cbn [plan_loop]. rewrite run_bind. unfold get_state. by destruct (halt_requested s). Qed.

Lemma only_runs_plan_loop (N : nat) (plan : list json) :
  forall i, only_runs plan (plan_loop N i plan).
Proof.
  induction plan as [|a rest IH]; intros i s.
  - exists []. by rewrite app_nil_r.
  - rewrite plan_loop_cons. destruct (halt_requested s).
    + exists []. rewrite app_nil_r. split; [apply prefix_nil |]. by mrun.
    + rewrite run_bind. destruct (run_step_effect N i a s) as [Ha Hd].
      destruct (run_step N i a s) as [s1 [e | r]]; cbn [fst] in *.
      * exists [a]. split; [apply prefix_cons, prefix_nil | done].
      * destruct (negb r.1).
        -- exists [a]. split; [apply prefix_cons, prefix_nil |]. by mrun.
        -- destruct (IH (S i) s1) as (done & Hp & Ha' & Hd'). exists (a :: done).
           split; [by apply prefix_cons |]. rewrite Ha', Hd', Ha, Hd.
           by rewrite <- app_assoc.
Qed.

Lemma only_runs_process_plan (d : list (string * json)) :
  only_runs (match dict_get "plan_steps" d (JArr []) with JArr steps => steps | _ => [] end)
    (process_plan d).
Proof.
  unfold process_plan.
  destruct (dict_get "plan_steps" d (JArr [])) as [| | | | |steps|];
    try (apply only_runs_quiet, quiet_notice).
  destruct (truthy (JArr steps)); [| apply only_runs_quiet, quiet_notice].
  unfold execute_plan.
  apply only_runs_after; [apply quiet_from_result | intros lang_str].
  apply only_runs_after; [apply quiet_append | intros _].
  apply only_runs_after; [apply quiet_yield | intros _].
  apply only_runs_then; [apply only_runs_plan_loop | intros flags].
  unfold after_loop, pass. destruct (negb flags.2); [| apply quiet_ret].
  apply quiet_bind; [| intros _; apply quiet_yield].
  destruct flags.1; [apply quiet_append | apply quiet_ret].
Qed.

Lemma only_runs_from_inr {A B} (steps : list json) (a : A) (k : A -> M state B) :
  only_runs steps (k a) -> only_runs steps (from_result (inr a) ≫= k).
Proof. intros H s. rewrite run_bind. exact (H s). Qed.

Lemma only_runs_agent (reply : exn + string) :
  only_runs (plan_of reply) (agent_chat_response reply).
Proof.
  unfold agent_chat_response.
  apply only_runs_after; [by intros s | intros _].
  apply only_runs_after; [apply quiet_yield | intros _].
  apply only_runs_then; [| intros _; apply quiet_yield].
  apply only_runs_try; [| intros e; apply quiet_notice].
  apply only_runs_after; [apply quiet_append | intros _].
  apply only_runs_after; [apply quiet_yield | intros _].
  destruct reply as [e | raw]; [apply only_runs_quiet; by intros s |].
  apply only_runs_from_inr. cbn beta.
  unfold plan_of. destruct (parse_response raw) as [e | v] eqn:Hparse.
  - apply only_runs_quiet, quiet_notice.
  - destruct (parse_response_inr raw v Hparse) as (f & d & -> & _).
    cbn [process_response].
    destruct (py_eq_str _ "plan"); [apply only_runs_process_plan |].
    destruct (py_eq_str _ "informational"); apply only_runs_quiet, quiet_notice.
Qed.

Lemma apply_all_invariant (P : FS -> Prop) :
  (forall a fs, P fs -> P (execute_action a fs).1) ->
  forall acts fs, P fs -> P (apply_all fs acts).
Proof.
  intros Hstep acts. induction acts as [|a acts IH]; intros fs HP; [done |].
  cbn. apply IH. by apply Hstep.
Qed.

(** X10: a turn calls [execute_action] only on steps of the plan the
    reply carries, in the order of the plan, each at most once and with no step
    skipped: the calls made are an initial segment of the plan.  The file
    system at the end of the turn is the one left by these calls, and nothing
    else in the turn touches it.  A reply that carries no plan makes no
    call. *)
Theorem X10_calls_are_a_prefix_of_the_plan (reply : exn + string) (s : state) :
  let r := agent_chat_response reply s in
  exists done,
    done `prefix_of` plan_of reply
    /\ attempted r.1 = attempted s ++ done
    /\ disk r.1 = apply_all (disk s) done.
Proof. exact (only_runs_agent reply s). Qed.

(** X11: a turn always ends normally, whatever the model returned or
    raised, whatever the steps hold and whenever Halt is clicked: no exception
    leaves the generator.  Its first event shows the log as it was, with the
    halt flag reset, and its last event shows the final log with the Halt
    button disabled. *)
Theorem X11_turn_always_ends (reply : exn + string) (s : state) :
  let r := agent_chat_response reply s in
  r.2 = inr tt
  /\ (exists rest, emitted r.1 = emitted s ++ Build_event (history s) false false :: rest)
  /\ exists e, last (emitted r.1) = Some e
       /\ ev_history e = history r.1 /\ ev_interactive e = false.
Proof.
  intros r. subst r. unfold agent_chat_response.
  rewrite run_bind. cbn match. rewrite run_bind, run_yield.
  set (s2 := yielded false (set_halt false s)).
  assert (Hs2 : emitted s2 = emitted s ++ [Build_event (history s) false false]) by done.
  match goal with |- context [try_except ?b ?h] => set (body := b); set (handler := h) end.
  assert (Htry : steady (try_except body handler)).
  { apply steady_try; [| intros e; apply steady_notice]. subst body.
    apply steady_bind; [apply steady_append | intros _].
    apply steady_bind; [apply steady_yield | intros _].
    apply steady_bind; [apply steady_from_result | intros raw].
    destruct (parse_response raw); apply steady_process_response. }
  assert (Hret : (try_except body handler s2).2 = inr tt).
  { rewrite run_try_except. destruct (body s2) as [s3 [e | []]]; [| done].
    subst handler. cbn beta. by mrun. }
  destruct (Htry s2) as [(_ & [evs Hevs] & _) _].
  rewrite run_bind. destruct (try_except body handler s2) as [s3 [e | []]]; [done |].
  cbn [fst snd] in *. rewrite run_yield. cbn [fst snd]. split; [done |]. split.
  - exists (evs ++ [Build_event (history s3) (halt_requested s3) false]).
    state_simpl. rewrite Hevs, Hs2, <- !app_assoc. done.
  - eexists. state_simpl. rewrite last_snoc. done.
Qed.

(** X12: a turn keeps the file system a tree and deletes nothing.  If
    the root is a directory and every entry lies in a directory when the turn
    starts, the same holds when it ends; every directory is still a directory
    and every path that existed still exists. *)
Theorem X12_turn_keeps_tree_and_entries (reply : exn + string) (s : state) (q : list string) :
  let r := agent_chat_response reply s in
  (wf_fs (disk s) = true -> wf_fs (disk r.1) = true)
  /\ (disk s !! q = Some Dir -> disk r.1 !! q = Some Dir)
  /\ (is_Some (disk s !! q) -> is_Some (disk r.1 !! q)).
Proof.
  intros r. destruct (only_runs_agent reply s) as (done & _ & _ & Hd). subst r.
  rewrite Hd. repeat split.
  - apply (apply_all_invariant (fun fs => wf_fs fs = true)). intros a fs. apply execute_action_wf.
  - apply (apply_all_invariant (fun fs => fs !! q = Some Dir)). intros a fs.
    apply execute_action_keeps.
  - apply (apply_all_invariant (fun fs => is_Some (fs !! q))). intros a fs.
    apply execute_action_keeps.
Qed.

Lemma is_dir_kept (fs fs' : FS) (p : list string) :
  (forall q, fs !! q = Some Dir -> fs' !! q = Some Dir) ->
  is_dir fs p = true -> is_dir fs' p = true.
Proof.
  intros Hkeep. rewrite !is_dir_true, !stat_inr. intros [Hp Hall]. split; [by apply Hkeep |].
  intros q Hq Hne. by apply Hkeep, Hall.
Qed.

(** X13: the sandbox holds for a whole turn whose plan cannot take the
    exemption of line 55.  When the workspace exists and no step of the plan
    is a [create_folder] with an absolute path, every path outside the
    workspace is at the end of the turn exactly as it was at its start, and
    the workspace is still a directory. *)
Theorem X13_turn_stays_in_workspace (reply : exn + string) (s : state) (q : list string) :
  let r := agent_chat_response reply s in
  is_dir (disk s) workspace = true ->
  forallb stays_inside (plan_of reply) = true ->
  ¬ workspace `prefix_of` q ->
  disk r.1 !! q = disk s !! q /\ is_dir (disk r.1) workspace = true.
Proof.
  intros r Hws Hsafe Hout. destruct (only_runs_agent reply s) as (done & [rest Hp] & _ & Hd).
  subst r. rewrite Hd. rewrite Hp, forallb_app in Hsafe. apply andb_true_iff in Hsafe as [Hsafe _].
  clear Hd Hp. generalize dependent (disk s). clear s.
  induction done as [|a done IH]; intros fs Hws; [done |].
  cbn [forallb] in Hsafe. apply andb_true_iff in Hsafe as [Ha Hsafe].
  cbn [apply_all fold_left].
  assert (Hws' : is_dir (execute_action a fs).1 workspace = true).
  { apply (is_dir_kept fs); [| done]. intros p. apply execute_action_keeps. }
  destruct (IH Hsafe _ Hws') as [Hq Hd]. split; [| done].
  etrans; [exact Hq |]. by apply execute_action_outside.
Qed.

(** X9: the conversation log is append-only and the events are
    consistent with it.  Whatever the reply and the clicks, the log, the
    events and the calls of [execute_action] at the end of a turn extend those
    at its start, and if every earlier event showed a prefix of the log, then
    every event emitted shows a prefix of the final log. *)
Theorem X9_log_is_append_only (reply : exn + string) (s : state) :
  let r := agent_chat_response reply s in
  history s `prefix_of` history r.1
  /\ emitted s `prefix_of` emitted r.1
  /\ attempted s `prefix_of` attempted r.1
  /\ (Forall (fun e => ev_history e `prefix_of` history s) (emitted s) ->
      Forall (fun e => ev_history e `prefix_of` history r.1) (emitted r.1)).
Proof.
  intros r. destruct (steady_agent reply s) as [(H1 & H2 & H3) H4]. by repeat split.
Qed.

(** ** Beyond the frozen claims: how a turn ends *)

(** a turn whose response handling appends one value and emits one event *)
Lemma turn_with_content (raw : string) (parsed : option json) (err : string) (v : json)
    (s : state) :
  (parsed, err) = match parse_response raw with
                  | inr v => (Some v, "")
                  | inl _ => (None, parsing_error_message raw)
                  end ->
  (forall s', process_response parsed err s' = (append_assistant v;; yield false) s') ->
  let r := agent_chat_response (inr raw) s in
  let answered := history s ++ [assistant "Thinking..."; Build_entry "assistant" v] in
  r.2 = inr tt
  /\ history r.1 = answered
  /\ disk r.1 = disk s
  /\ attempted r.1 = attempted s
  /\ exists evs, emitted r.1 = emitted s ++ evs
       /\ map ev_view evs =
          [ (history s, false);
            (history s ++ [assistant "Thinking..."], false);
            (answered, false);
            (answered, false) ].
Proof.
  intros Hparse Hproc r answered. subst r answered. unfold agent_chat_response.
  mrun. unfold from_result. rewrite <- Hparse, Hproc. unfold append_assistant. mrun.
  repeat split.
  - by rewrite <- app_assoc.
  - eexists. rewrite <- !app_assoc. split; reflexivity.
Qed.

(** a turn whose response handling raises at once *)
Lemma turn_with_error (reply : exn + string) (e : exn) (s : state) :
  (forall s', (raw ← from_result reply;
               let '(parsed_response, parsing_error) :=
                 match parse_response raw with
                 | inr v => (Some v, "")
                 | inl _ => (None, parsing_error_message raw)
                 end in
               process_response parsed_response parsing_error) s' = (s', inl e)) ->
  let r := agent_chat_response reply s in
  let notice := "An unexpected error occurred: " +:+ exc_str e +:+ "." in
  r.2 = inr tt
  /\ history r.1 = history s ++ [assistant "Thinking..."; assistant notice]
  /\ disk r.1 = disk s
  /\ attempted r.1 = attempted s
  /\ exists evs, emitted r.1 = emitted s ++ evs
       /\ map ev_view evs =
          [ (history s, false);
            (history s ++ [assistant "Thinking..."], false);
            (history s ++ [assistant "Thinking..."; assistant notice], false);
            (history s ++ [assistant "Thinking..."; assistant notice], false) ].
Proof.
  intros Hraise r notice. subst r notice. unfold agent_chat_response.
  rewrite run_bind. cbn match. rewrite run_bind, run_yield, run_bind, run_try_except.
  rewrite run_bind, run_say, run_bind, run_yield, Hraise. mrun.
  repeat split.
  - by rewrite <- app_assoc.
  - eexists. rewrite <- !app_assoc. split; reflexivity.
Qed.

(** X14: when the model call raises, the turn recovers: the log gains
    "Thinking..." and "An unexpected error occurred: <the exception>.", four
    events are emitted, all with Halt disabled, no step runs and the workspace
    is as it was. *)
Theorem X14_model_call_failure (e : exn) (s : state) :
  let r := agent_chat_response (inl e) s in
  let notice := "An unexpected error occurred: " +:+ exc_str e +:+ "." in
  r.2 = inr tt
  /\ history r.1 = history s ++ [assistant "Thinking..."; assistant notice]
  /\ disk r.1 = disk s
  /\ attempted r.1 = attempted s
  /\ exists evs, emitted r.1 = emitted s ++ evs
       /\ map ev_view evs =
          [ (history s, false);
            (history s ++ [assistant "Thinking..."], false);
            (history s ++ [assistant "Thinking..."; assistant notice], false);
            (history s ++ [assistant "Thinking..."; assistant notice], false) ].
Proof. apply turn_with_error. intros s'. reflexivity. Qed.

(** X15: an informational response appends the value of [message] as
    it is, whatever its type, or "Sorry, I couldn't formulate an answer." when
    the key is absent; the Halt button stays disabled, no step runs and the
    workspace is as it was. *)
Theorem X15_informational_answer (raw : string) (d : list (string * json)) (s : state) :
  parse_response raw = inr (JObj d) ->
  dict_get "response_type" d JNull = JStr "informational" ->
  let r := agent_chat_response (inr raw) s in
  let answer := match dict_lookup "message" d with
                | Some v => v
                | None => JStr "Sorry, I couldn't formulate an answer."
                end in
  let answered := history s ++ [assistant "Thinking..."; Build_entry "assistant" answer] in
  r.2 = inr tt
  /\ history r.1 = answered
  /\ disk r.1 = disk s
  /\ attempted r.1 = attempted s
  /\ exists evs, emitted r.1 = emitted s ++ evs
       /\ map ev_view evs =
          [ (history s, false);
            (history s ++ [assistant "Thinking..."], false);
            (answered, false);
            (answered, false) ].
Proof.
  intros Hparse Htype r answer.
  apply (turn_with_content raw (Some (JObj d)) "").
  - by rewrite Hparse.
  - intros s'. destruct (parse_response_inr _ _ Hparse) as (f & d' & [= ->] & _).
    unfold process_response. rewrite Htype. reflexivity.
Qed.

(** X16: a response whose [response_type] is neither "plan" nor
    "informational" is reported by name and nothing else happens: no step
    runs, whatever [plan_steps] holds. *)
Theorem X16_unknown_response_type (raw : string) (d : list (string * json)) (s : state) :
  parse_response raw = inr (JObj d) ->
  let response_type := dict_get "response_type" d JNull in
  response_type ≠ JStr "plan" ->
  response_type ≠ JStr "informational" ->
  let r := agent_chat_response (inr raw) s in
  let notice := "Received an unknown response type ('" +:+ py_str response_type
                  +:+ "') from the AI." in
  r.2 = inr tt
  /\ history r.1 = history s ++ [assistant "Thinking..."; assistant notice]
  /\ disk r.1 = disk s
  /\ attempted r.1 = attempted s
  /\ exists evs, emitted r.1 = emitted s ++ evs
       /\ map ev_view evs =
          [ (history s, false);
            (history s ++ [assistant "Thinking..."], false);
            (history s ++ [assistant "Thinking..."; assistant notice], false);
            (history s ++ [assistant "Thinking..."; assistant notice], false) ].
Proof.
  intros Hparse response_type Hplan Hinfo r notice.
  apply (turn_with_notice raw (Some (JObj d)) "").
  - by rewrite Hparse.
  - intros s'. destruct (parse_response_inr _ _ Hparse) as (f & d' & [= ->] & _).
    unfold process_response. fold response_type.
    assert (Hne : forall t, response_type ≠ JStr t -> py_eq_str response_type t = false).
    { intros t Ht. destruct response_type as [| | | |x| |]; try reflexivity.
      cbn [py_eq_str]. apply String.eqb_neq. congruence. }
    by rewrite (Hne "plan" Hplan), (Hne "informational" Hinfo).
Qed.

Lemma str_join_raises (sep : string) (pre post : list json) (v : json) :
  Forall (fun x => exists t, x = JStr t) pre ->
  (forall t, v ≠ JStr t) ->
  str_join sep (pre ++ v :: post) = inl (TypeError v).
Proof.
  intros Hpre Hv. induction Hpre as [|x pre [t ->] _ IH].
  - destruct v; try reflexivity. by destruct (Hv s).
  - cbn [app str_join]. destruct (pre ++ v :: post) eqn:E; [by destruct pre |].
    by rewrite IH.
Qed.

(** X17: [languages_used] is joined before anything of the plan is
    shown.  If the list holds a value that is not a string, the [TypeError] of
    the first such value ends the turn: the log gains "Thinking..." and the
    error notice, no summary and no step is shown, no step runs and the
    workspace is as it was, whatever the steps are. *)
Theorem X17_language_not_a_string (raw : string) (d : list (string * json))
    (step : json) (rest : list json) (pre post : list json) (v : json) (s : state) :
  parse_response raw = inr (JObj d) ->
  dict_get "response_type" d JNull = JStr "plan" ->
  dict_get "plan_steps" d (JArr []) = JArr (step :: rest) ->
  dict_get "languages_used" d (JArr []) = JArr (pre ++ v :: post) ->
  Forall (fun x => exists t, x = JStr t) pre ->
  (forall t, v ≠ JStr t) ->
  let r := agent_chat_response (inr raw) s in
  let notice := "An unexpected error occurred: " +:+ exc_str (TypeError v) +:+ "." in
  r.2 = inr tt
  /\ history r.1 = history s ++ [assistant "Thinking..."; assistant notice]
  /\ disk r.1 = disk s
  /\ attempted r.1 = attempted s
  /\ exists evs, emitted r.1 = emitted s ++ evs
       /\ map ev_view evs =
          [ (history s, false);
            (history s ++ [assistant "Thinking..."], false);
            (history s ++ [assistant "Thinking..."; assistant notice], false);
            (history s ++ [assistant "Thinking..."; assistant notice], false) ].
Proof.
  intros Hparse Htype Hplan Hlang Hpre Hv.
  apply turn_with_error. intros s'.
  destruct (parse_response_inr _ _ Hparse) as (f & d' & [= ->] & _).
  rewrite run_bind. unfold from_result at 1. cbn match. rewrite Hparse.
  unfold process_response. rewrite Htype. cbn [py_eq_str].
  change (String.eqb "plan" "plan") with true. cbn iota.
  unfold process_plan. rewrite Hplan. cbn [truthy].
  unfold execute_plan, declared_languages_of. rewrite Hlang.
  unfold lang_str_of. rewrite (str_join_raises _ _ _ _ Hpre Hv).
  by destruct pre.
Qed.

(** X18: a step that is not a dictionary is echoed, then
    [execute_action] raises on it and the plan is abandoned without a result
    line and without the stopping notice: in a turn without halt whose
    earlier steps succeed, these stay applied, the log ends with the echo of
    the step and "An unexpected error occurred: <the exception>.", and the
    turn still ends normally. *)
Theorem X18_step_not_a_dictionary (raw : string) (d : list (string * json))
    (pre post : list json) (a : json) (lang_str : string) (s : state)
    (msgs : list string) (fs_k : FS) :
  let plan := pre ++ a :: post in
  let N := length plan in
  let k := length pre + 1 in
  parse_response raw = inr (JObj d) ->
  dict_get "response_type" d JNull = JStr "plan" ->
  dict_get "plan_steps" d (JArr []) = JArr plan ->
  is_dict a = false ->
  lang_str_of (declared_languages_of d) = inr lang_str ->
  (forall n, halt_click n = false) ->
  steps_succeed (disk s) pre = Some (msgs, fs_k) ->
  let r := agent_chat_response (inr raw) s in
  r.2 = inr tt
  /\ attempted r.1 = attempted s ++ pre ++ [a]
  /\ disk r.1 = fs_k
  /\ history r.1
     = history s
         ++ [assistant "Thinking..."; assistant (plan_summary N lang_str)]
         ++ success_log N 0 pre msgs
         ++ [assistant (step_message k N a);
             assistant ("An unexpected error occurred: " +:+ exc_str (AttributeError a)
                          +:+ ".")].
Proof.
  intros plan N k Hparse Htype Hplan Hbad Hlang Hno Hsteps r. subst r.
  assert (Hne : plan ≠ []) by (subst plan; by destruct pre).
  rewrite (turn_runs_plan _ _ _ _ _ Hparse Htype Hplan Hne Hlang). fold N.
  set (s0 := loop_entry N lang_str s).
  assert (Hquiet : forall j, halt_seen s0 j = false).
  { intros j. rewrite halt_seen_never by done. subst s0. unfold loop_entry. state_simpl.
    by rewrite !Hno. }
  assert (Hsteps0 : steps_succeed (disk s0) pre = Some (msgs, fs_k)) by exact Hsteps.
  destruct (plan_loop_prefix N pre (a :: post) 0 s0 msgs fs_k Hsteps0
              (fun j _ => Hquiet j))
    as (s' & Hloop & Hhist & Hdisk & Hatt & Hflag & _).
  rewrite Hquiet in Hflag. subst plan. rewrite Hloop.
  rewrite plan_loop_cons, Hflag, run_bind.
  rewrite (run_step_raises _ _ _ _ _ _ (execute_action_not_dict a (disk s') Hbad)).
  state_simpl. rewrite Hhist, Hatt, Hdisk. subst s0. unfold loop_entry. state_simpl.
  repeat split.
  - by rewrite <- !app_assoc.
  - rewrite <- !app_assoc. cbn [app]. by rewrite Nat.add_0_l.
Qed.



(** ** Beyond the frozen claims: the helpers of the prompt *)

Lemma format_gemini_history_app (h1 h2 : list (list (string * json))) :
  format_gemini_history (h1 ++ h2) = format_gemini_history h1 ++ format_gemini_history h2.
Proof.
  unfold format_gemini_history. rewrite fold_left_app.
  match goal with |- fold_left ?F h2 ?acc = _ => generalize acc; set (step := F) end.
  induction h2 as [|item h2 IH]; intros acc; [cbn [fold_left]; by rewrite app_nil_r |].
  cbn [fold_left]. rewrite (IH (step acc item)), (IH (step [] item)), app_assoc.
  f_equal. unfold step. destruct (truthy _); [done | by rewrite app_nil_r].
Qed.

Lemma format_gemini_history_cons (item : list (string * json)) (h : list (list (string * json))) :
  format_gemini_history (item :: h) = format_gemini_history [item] ++ format_gemini_history h.
Proof. exact (format_gemini_history_app [item] h). Qed.

(** X20: the Gemini history is the Gradio history with the items of
    empty content dropped, in the same order: an item is kept exactly when its
    [content] is truthy (a missing [content] counts as empty), its role
    becomes "model" when it is "assistant" and "user" in every other case, a
    missing role included, and its content is the one part. *)
Theorem X20_gemini_history_keeps_nonempty (h : list (list (string * json))) :
  format_gemini_history h
  = map (fun item =>
           JObj [("role", JStr (if py_eq_str (dict_get "role" item JNull) "assistant"
                                then "model" else "user"));
                 ("parts", JArr [dict_get "content" item (JStr "")])])
      (List.filter (fun item => truthy (dict_get "content" item (JStr ""))) h).
Proof.
  induction h as [|item h IH]; [reflexivity |].
  rewrite format_gemini_history_cons, IH. cbn [List.filter].
  unfold format_gemini_history at 1. cbn [fold_left].
  by destruct (truthy (dict_get "content" item (JStr ""))).
Qed.

(** X21: the history sent to the model only grows.  Whatever happens
    in a turn, the Gemini history of the log at its end starts with the Gemini
    history of the log at its start. *)
Theorem X21_gemini_history_grows (reply : exn + string) (s : state) :
  format_gemini_history (map entry_dict (history s))
    `prefix_of`
  format_gemini_history (map entry_dict (history (agent_chat_response reply s).1)).
Proof.
  destruct (steady_agent reply s) as [([k ->] & _) _].
  rewrite map_app, format_gemini_history_app. by apply prefix_app_r.
Qed.

Lemma str_compare_refl (x : string) : String.compare x x = Eq.
Proof.
  induction x as [|a x IH]; [reflexivity |]. cbn [String.compare].
  unfold Ascii.compare. by rewrite N.compare_refl.
Qed.

Lemma ascii_compare_lt_trans (a b c : ascii) :
  Ascii.compare a b = Lt -> Ascii.compare b c = Lt -> Ascii.compare a c = Lt.
Proof. unfold Ascii.compare. rewrite !N.compare_lt_iff. lia. Qed.

Lemma str_compare_lt_trans (x : string) :
  forall y z, String.compare x y = Lt -> String.compare y z = Lt -> String.compare x z = Lt.
Proof.
  induction x as [|a x IH]; intros [|b y] [|c z]; cbn [String.compare]; try done.
  destruct (Ascii.compare a b) eqn:Hab; try done;
    destruct (Ascii.compare b c) eqn:Hbc; try done.
  - apply Ascii.compare_eq_iff in Hab as ->. rewrite Hbc. apply IH.
  - apply Ascii.compare_eq_iff in Hab as ->. by rewrite Hbc.
  - apply Ascii.compare_eq_iff in Hbc as <-. by rewrite Hab.
  - by rewrite (ascii_compare_lt_trans _ _ _ Hab Hbc).
Qed.

Lemma path_compare_eq (p : list string) : forall q, path_compare p q = Eq -> p = q.
Proof.
  induction p as [|x p IH]; intros [|y q]; cbn [path_compare]; try done.
  destruct (String.compare x y) eqn:Hxy; try done.
  apply String.compare_eq_iff in Hxy as ->. by intros ->%IH.
Qed.

Lemma path_compare_antisym (p : list string) :
  forall q, path_compare q p = CompOpp (path_compare p q).
Proof.
  induction p as [|x p IH]; intros [|y q]; cbn [path_compare]; try done.
  rewrite (String.compare_antisym y x). destruct (String.compare x y); cbn [CompOpp]; auto.
Qed.

Lemma path_compare_lt_trans (p : list string) :
  forall q r, path_compare p q = Lt -> path_compare q r = Lt -> path_compare p r = Lt.
Proof.
  induction p as [|x p IH]; intros [|y q] [|z r]; cbn [path_compare]; try done.
  destruct (String.compare x y) eqn:Hxy; try done;
    destruct (String.compare y z) eqn:Hyz; try done.
  - apply String.compare_eq_iff in Hxy as ->. rewrite Hyz. apply IH.
  - apply String.compare_eq_iff in Hxy as ->. by rewrite Hyz.
  - apply String.compare_eq_iff in Hyz as <-. by rewrite Hxy.
  - by rewrite (str_compare_lt_trans _ _ _ Hxy Hyz).
Qed.

#[local] Instance path_le_total : Total path_le.
Proof.
  intros p q. unfold path_le. rewrite (path_compare_antisym p q).
  destruct (path_compare p q); cbn [CompOpp]; [left | left | right]; congruence.
Qed.

#[local] Instance path_le_trans : Transitive path_le.
Proof.
  intros p q r. unfold path_le.
  destruct (path_compare p q) eqn:Hpq; [| | done].
  - by apply path_compare_eq in Hpq as ->.
  - destruct (path_compare q r) eqn:Hqr; [| | done]; intros _ _.
    + apply path_compare_eq in Hqr as <-. by rewrite Hpq.
    + by rewrite (path_compare_lt_trans _ _ _ Hpq Hqr).
Qed.

(** a path sorts before every path it is a proper prefix of *)
Lemma path_compare_prefix (p : list string) :
  forall q, p `prefix_of` q -> p ≠ q -> path_compare p q = Lt.
Proof.
  induction p as [|x p IH]; intros [|y q] Hpre Hne; cbn [path_compare]; try done.
  - by apply prefix_nil_not in Hpre.
  - apply prefix_cons_inv_1 in Hpre as Hxy. subst y. rewrite str_compare_refl.
    apply IH; [by apply prefix_cons_inv_2 in Hpre | congruence].
Qed.

Lemma StronglySorted_lookup {A} (R : relation A) (l : list A) :
  StronglySorted R l ->
  forall i j x y, i < j -> l !! i = Some x -> l !! j = Some y -> R x y.
Proof.
  induction 1 as [|a l Hl IH Hall]; intros i j x y Hij Hi Hj; [done |].
  destruct j as [|j]; [lia |]. cbn in Hj. destruct i as [|i].
  - injection Hi as ->. rewrite Forall_forall in Hall. apply Hall.
    by apply list_elem_of_lookup_2 in Hj.
  - cbn in Hi. apply (IH i j); [lia | done | done].
Qed.

Lemma elem_of_rglob (fs : FS) (base_path item : list string) :
  item ∈ rglob fs base_path
  <-> is_Some (fs !! item) /\ item ≠ []
      /\ base_path `prefix_of` parent item /\ is_dir fs (parent item) = true.
Proof.
  unfold rglob. rewrite list_elem_of_In, filter_In, <- list_elem_of_In, list_elem_of_fmap.
  split.
  - intros [([k nd] & -> & Hin) Htest]. apply elem_of_map_to_list in Hin. cbn in *.
    destruct k as [|n k]; [done |]. apply andb_true_iff in Htest as [Hp Hd].
    apply bool_decide_eq_true in Hp. by eauto.
  - intros ([nd Hnd] & Hne & Hp & Hd). split.
    + exists (item, nd). split; [done |]. by apply elem_of_map_to_list.
    + destruct item; [done |]. apply andb_true_iff. split; [by apply bool_decide_eq_true | done].
Qed.

(** in a tree the scan reaches every entry below [base_path] *)
Lemma elem_of_rglob_tree (fs : FS) (base_path item : list string) :
  wf_fs fs = true ->
  item ∈ rglob fs base_path
  <-> is_Some (fs !! item) /\ base_path `prefix_of` item /\ item ≠ base_path.
Proof.
  intros Hwf. rewrite elem_of_rglob. split.
  - intros (Hsome & Hne & Hp & _). split; [done |].
    destruct (exists_last Hne) as (l & n & ->). rewrite parent_snoc in Hp. split.
    + by apply prefix_app_r.
    + intros <-. destruct Hp as [k Hk]. apply (f_equal length) in Hk.
      rewrite !length_app in Hk. cbn in Hk. lia.
  - intros (Hsome & Hp & Hne). destruct (decide (item = [])) as [-> | Hnil].
    { apply prefix_nil_inv in Hp. congruence. }
    destruct (exists_last Hnil) as (l & n & ->). rewrite parent_snoc.
    apply prefix_snoc_inv in Hp as [Heq | Hp]; [congruence |].
    repeat split; try done.
    apply is_dir_true, wf_fs_stat; [done |].
    apply wf_fs_spec in Hwf as [_ Hwf]. by apply (Hwf l n).
Qed.

Lemma NoDup_rglob (fs : FS) (base_path : list string) : NoDup (rglob fs base_path).
Proof.
  unfold rglob. apply NoDup_ListNoDup, List.NoDup_filter, NoDup_ListNoDup.
  apply NoDup_fst_map_to_list.
Qed.

(** X22: the items of the workspace snapshot.  In a tree, the items
    [get_workspace_structure] goes through are the entries strictly below the
    base path, each exactly once, and every directory comes before all that
    it holds. *)
Theorem X22_snapshot_lists_the_tree (fs : FS) (base_path : list string) :
  wf_fs fs = true ->
  let items := sorted (rglob fs base_path) in
  (forall item, item ∈ items
                <-> is_Some (fs !! item) /\ base_path `prefix_of` item /\ item ≠ base_path)
  /\ NoDup items
  /\ forall i j p q, items !! i = Some p -> items !! j = Some q ->
                     p `prefix_of` q -> p ≠ q -> i < j.
Proof.
  intros Hwf items. subst items. unfold sorted. split; [| split].
  - intros item. rewrite merge_sort_Permutation. by apply elem_of_rglob_tree.
  - rewrite merge_sort_Permutation. apply NoDup_rglob.
  - intros i j p q Hi Hj Hpre Hne.
    destruct (decide (i < j)) as [Hlt | Hge]; [done | exfalso].
    destruct (decide (i = j)) as [-> | Hij]; [congruence |].
    assert (Hqp : path_le q p).
    { apply (StronglySorted_lookup path_le _
               (StronglySorted_merge_sort path_le (rglob fs base_path)) j i);
        [lia | done | done]. }
    apply Hqp. rewrite (path_compare_antisym p q), (path_compare_prefix p q Hpre Hne). done.
Qed.

(** X23: the snapshot reads "(Workspace '<name>' is empty)" exactly
    when the tree holds nothing below the base path, which includes the case
    of a base path that is missing or no directory. *)
Theorem X23_snapshot_empty_message (fs : FS) (base_path : list string) :
  wf_fs fs = true ->
  get_workspace_structure fs base_path
    = "(Workspace '" +:+ path_name base_path +:+ "' is empty)"
  <-> forall item, base_path `prefix_of` item -> item ≠ base_path -> fs !! item = None.
Proof.
  intros Hwf. unfold get_workspace_structure.
  destruct (sorted (rglob fs base_path)) as [|first others] eqn:Hsorted; cbn [map].
  - split; [intros _ | done]. intros item Hpre Hne.
    destruct (fs !! item) as [nd|] eqn:Hitem; [exfalso | done].
    assert (Hin : item ∈ sorted (rglob fs base_path)).
    { unfold sorted. rewrite merge_sort_Permutation. apply elem_of_rglob_tree; [done |].
      by rewrite Hitem. }
    rewrite Hsorted in Hin. by apply elem_of_nil in Hin.
  - split.
    + rewrite !str_app_cons. discriminate.
    + intros Hnone. exfalso.
      assert (Hin : first ∈ sorted (rglob fs base_path)) by (rewrite Hsorted; left).
      unfold sorted in Hin. rewrite merge_sort_Permutation in Hin.
      apply elem_of_rglob_tree in Hin as ([nd Hnd] & Hpre & Hne); [| done].
      by rewrite (Hnone first Hpre Hne) in Hnd.
Qed.

(** X24: what a step makes shows in the next snapshot.  In a tree,
    every item listed before a call of [execute_action] is still listed after
    it, and after a call that reports success on a path strictly inside the
    workspace the target is listed. *)
Theorem X24_snapshot_after_a_step (d : list (string * json)) (fs : FS) :
  wf_fs fs = true ->
  let r := execute_action (JObj d) fs in
  (forall item, item ∈ sorted (rglob fs workspace) -> item ∈ sorted (rglob r.1 workspace))
  /\ (forall p msg,
        dict_get "path" d JNull = JStr p ->
        r.2 = inr (true, msg) ->
        let target := names (resolve (joinpath WORKSPACE_DIR p)) in
        workspace `prefix_of` target -> target ≠ workspace ->
        target ∈ sorted (rglob r.1 workspace)).
Proof.
  intros Hwf r. subst r.
  pose proof (execute_action_wf (JObj d) fs Hwf) as Hwf'.
  unfold sorted. split.
  - intros item. rewrite !merge_sort_Permutation, !elem_of_rglob_tree by done.
    intros (Hsome & Hpre & Hne). split; [| done]. by apply execute_action_keeps.
  - intros p msg Hp Hok Hin Hne.
    rewrite merge_sort_Permutation, elem_of_rglob_tree by done.
    split; [| done].
    destruct (execute_action_effect d fs)
      as [[m Hr] | [(p0 & Hp0 & _ & _ & Hr & Hres) | (p0 & Hp0 & _ & _ & Hcases)]].
    + rewrite Hr in Hok. discriminate.
    + assert (p0 = p) as -> by congruence.
      destruct Hres as [[Hmk _] | (e & m & _ & Hfail)]; [| congruence].
      destruct (path_mkdir_frame fs (names (resolve (joinpath WORKSPACE_DIR p)))) as [_ Hd].
      apply Hd, is_dir_true, stat_inr in Hmk as [Hdir _]. rewrite Hr. by rewrite Hdir.
    + assert (p0 = p) as -> by congruence.
      destruct Hcases as [(_ & m & Hr) | (_ & _ & [(c & m & _ & _ & Hr) | (_ & m & Hr)])];
        rewrite Hr in Hok |- *; try discriminate.
      cbn [fst]. by rewrite lookup_insert_eq.
Qed.

(** ** Beyond the frozen claims: the text handed to the JSON parser *)

Lemma split_once_first (sep s : string) :
  forall a b, split_once sep s = Some (a, b) ->
  forall a' b', s = a' +:+ sep +:+ b' -> String.length a <= String.length a'.
Proof.
  induction s as [|c s IH]; intros a b Hsplit a' b' Heq; rewrite split_once_unfold in Hsplit.
  - destruct (strip_prefix sep "") as [rest|]; [| discriminate].
    injection Hsplit as <- <-. cbn. lia.
  - destruct (strip_prefix sep (String c s)) as [rest|] eqn:Hpre.
    { injection Hsplit as <- <-. cbn. lia. }
    destruct (split_once sep s) as [[a0 b0]|] eqn:Hs; [| discriminate].
    injection Hsplit as <- <-. destruct a' as [|c' a'].
    + rewrite str_app_nil_l in Heq. apply strip_prefix_spec in Heq. congruence.
    + rewrite str_app_cons in Heq. injection Heq as -> Heq.
      cbn [String.length]. apply le_n_S. by apply (IH a0 b0 eq_refl a' b').
Qed.

Lemma str_app_inj (a : string) :
  forall a' x y, a +:+ x = a' +:+ y -> String.length a = String.length a' -> a = a' /\ x = y.
Proof.
  induction a as [|c a IH]; intros [|c' a'] x y Heq Hlen; try discriminate.
  - by rewrite !str_app_nil_l in Heq.
  - rewrite !str_app_cons in Heq. injection Heq as -> Heq. cbn in Hlen.
    destruct (IH a' x y Heq) as [-> ->]; [lia | done].
Qed.

Lemma split_once_complete (sep a b : string) :
  (forall a' b', a +:+ sep +:+ b = a' +:+ sep +:+ b' -> String.length a <= String.length a') ->
  split_once sep (a +:+ sep +:+ b) = Some (a, b).
Proof.
  intros Hmin. destruct (split_once_found sep a b) as (a1 & b1 & y & Hs & _).
  pose proof (split_once_sound _ _ _ _ Hs) as Heq.
  pose proof (split_once_first _ _ _ _ Hs a b eq_refl) as Hle.
  pose proof (Hmin a1 b1 Heq) as Hge.
  destruct (str_app_inj a a1 _ _ Heq) as [<- Hrest]; [lia |].
  destruct (str_app_inj sep sep _ _ Hrest eq_refl) as [_ <-]. done.
Qed.

(** X25: the text handed to [json.loads] lies between the first
    [```json] marker and the next fence after it, stripped.  What precedes the
    marker and what follows the fence is ignored, and a fence inside the JSON
    text cuts it short. *)
Theorem X25_json_text_is_first_block (raw js : string) :
  extract_json raw = Some js
  <-> exists a b c,
        raw = a +:+ "```json" +:+ b +:+ "```" +:+ c
        /\ js = strip b
        /\ (forall a' rest, raw = a' +:+ "```json" +:+ rest ->
                            String.length a <= String.length a')
        /\ (forall b' c', b +:+ "```" +:+ c = b' +:+ "```" +:+ c' ->
                          String.length b <= String.length b').
Proof.
  unfold extract_json. split.
  - destruct (split_once "```json" raw) as [[a after]|] eqn:E; [| discriminate].
    destruct (split_once "```" after) as [[b c]|] eqn:E2; [| discriminate].
    intros [= <-]. exists a, b, c.
    pose proof (split_once_sound _ _ _ _ E) as Hraw.
    pose proof (split_once_sound _ _ _ _ E2) as Hafter.
    repeat split.
    + by rewrite Hraw, Hafter.
    + intros a' rest Heq. by apply (split_once_first _ _ _ _ E a' rest).
    + intros b' c' Heq. apply (split_once_first _ _ _ _ E2 b' c'). by rewrite Hafter.
  - intros (a & b & c & -> & -> & Hfirst & Hnext).
    rewrite (split_once_complete "```json" a (b +:+ "```" +:+ c)) by exact Hfirst.
    by rewrite (split_once_complete "```" b c) by exact Hnext.
Qed.

(** ** Beyond the frozen claims: refusals of [execute_action] *)


(** X27: traversal out of the workspace is refused for every file
    action and for every relative path.  When the path resolves outside the
    workspace and the action is no [create_folder], or its path is relative,
    the answer is "Error: Path '<path>' is outside the allowed workspace." and
    the file system is returned as it was. *)
Theorem X27_traversal_refused (d : list (string * json)) (p : string) (fs : FS) :
  dict_get "path" d JNull = JStr p ->
  p ≠ "" ->
  truthy (dict_get "type" d JNull) = true ->
  ¬ workspace `prefix_of` names (resolve (joinpath WORKSPACE_DIR p)) ->
  py_eq_str (dict_get "type" d JNull) "create_folder" = false \/ parse_root p = NoRoot ->
  execute_action (JObj d) fs
  = (fs, inr (false, "Error: Path '" +:+ p +:+ "' is outside the allowed workspace.")).
Proof.
  intros Hp Hne Ht Hout Hkind. unfold execute_action. rewrite Hp, Ht, (truthy_str p Hne).
  cbn [negb orb]. rewrite run_try_except, outside_refused; [reflexivity | done |].
  destruct Hkind as [-> | Hrel]; [reflexivity |].
  apply andb_false_iff. right. apply bool_decide_eq_false. intros Hsame.
  apply Hout. rewrite Hsame, (joinpath_relative p Hrel). cbn [names]. by apply prefix_app_r.
Qed.

(** ** Beyond the frozen claims: white space, unencodable text, long names *)

Lemma str_app_nil_r (s : string) : s +:+ "" = s.
Proof. induction s as [|c s IH]; [done |]. by rewrite str_app_cons, IH. Qed.

Lemma str_rev_onto_app (s : string) :
  forall acc, str_rev_onto s acc = str_rev s +:+ acc.
Proof.
  unfold str_rev. induction s as [|c s IH]; intros acc; cbn [str_rev_onto]; [done |].
  rewrite IH, (IH (String c "")). by rewrite str_app_assoc.
Qed.

Lemma str_rev_cons (c : ascii) (s : string) : str_rev (String c s) = str_rev s +:+ String c "".
Proof. unfold str_rev at 1. cbn [str_rev_onto]. apply str_rev_onto_app. Qed.

Lemma str_rev_app (a b : string) : str_rev (a +:+ b) = str_rev b +:+ str_rev a.
Proof.
  induction a as [|c a IH].
  - rewrite str_app_nil_l. change (str_rev "") with "". by rewrite str_app_nil_r.
  - by rewrite str_app_cons, !str_rev_cons, IH, str_app_assoc.
Qed.

Lemma str_rev_involutive (s : string) : str_rev (str_rev s) = s.
Proof.
  induction s as [|c s IH]; [done |]. by rewrite str_rev_cons, str_rev_app, IH.
Qed.

Lemma str_rev_length (s : string) : String.length (str_rev s) = String.length s.
Proof.
  induction s as [|c s IH]; [done |]. rewrite str_rev_cons, str_length_app, IH. cbn. lia.
Qed.

Lemma drop_first_some (texts : list string) (s rest : string) :
  drop_first texts s = Some rest -> exists w, In w texts /\ s = w +:+ rest.
Proof.
  induction texts as [|w texts IH]; [done |]. cbn [drop_first].
  destruct (strip_prefix w s) as [r|] eqn:E.
  - intros [= ->]. exists w. split; [by left | by apply strip_prefix_spec].
  - intros H. destruct (IH H) as (w' & Hin & ->). exists w'. split; [by right | done].
Qed.

Lemma drop_first_none (texts : list string) (s : string) :
  drop_first texts s = None -> forall w rest, In w texts -> s ≠ w +:+ rest.
Proof.
  induction texts as [|w0 texts IH]; intros H w rest Hin; [done |].
  cbn [drop_first] in H. destruct (strip_prefix w0 s) as [r|] eqn:E; [done |].
  destruct Hin as [-> | Hin].
  - intros Heq. apply strip_prefix_spec in Heq. congruence.
  - by apply IH.
Qed.

(** the fuel of [lstrip_by] is enough: what is dropped is made of [texts]
    and what is left starts with none of them *)
Lemma lstrip_by_spec (texts : list string) :
  (forall w, In w texts -> w ≠ "") ->
  forall (fuel : nat) (s : string),
  String.length s <= fuel ->
  exists l, made_of texts l
            /\ s = l +:+ lstrip_by texts fuel s
            /\ drop_first texts (lstrip_by texts fuel s) = None.
Proof.
  intros Hne. induction fuel as [|fuel IH]; intros s Hlen.
  - destruct s as [|c s]; [| cbn in Hlen; lia]. exists "". cbn [lstrip_by].
    split; [constructor |]. split; [done |].
    destruct (drop_first texts "") as [rest|] eqn:E; [| done].
    apply drop_first_some in E as (w & Hin & Heq). destruct w; [by destruct (Hne "") | done].
  - cbn [lstrip_by]. destruct (drop_first texts s) as [rest|] eqn:E.
    + pose proof E as E'. apply drop_first_some in E' as (w & Hin & ->).
      pose proof (Hne w Hin) as Hw.
      destruct (IH rest) as (l & Hl & Heq & Hnone).
      { rewrite str_length_app in Hlen. destruct w; [done | cbn in Hlen; lia]. }
      exists (w +:+ l). split; [by constructor |]. split; [| done].
      rewrite str_app_assoc. by f_equal.
    + exists "". split; [constructor |]. by split.
Qed.

Lemma made_of_app (texts : list string) (a b : string) :
  made_of texts a -> made_of texts b -> made_of texts (a +:+ b).
Proof.
  induction 1 as [|w r Hin _ IH]; [by rewrite str_app_nil_l |].
  intros Hb. rewrite str_app_assoc. constructor; auto.
Qed.

Lemma made_of_rev (texts : list string) (s : string) :
  made_of (map str_rev texts) s -> made_of texts (str_rev s).
Proof.
  induction 1 as [|w r Hin _ IH]; [constructor |].
  rewrite str_rev_app. apply made_of_app; [done |].
  apply in_map_iff in Hin as (w0 & <- & Hin0). rewrite str_rev_involutive.
  rewrite <- (str_app_nil_r w0). constructor; [done | constructor].
Qed.

Lemma space_texts_nonempty (w : string) : In w space_texts -> w ≠ "".
Proof.
  assert (H : forallb (fun w => negb (String.eqb w "")) space_texts = true) by reflexivity.
  rewrite forallb_forall in H. intros Hin ->. by apply H in Hin.
Qed.

Lemma lstrip_spec (s : string) :
  exists l, made_of space_texts l
            /\ s = l +:+ lstrip s
            /\ forall w rest, In w space_texts -> lstrip s ≠ w +:+ rest.
Proof.
  destruct (lstrip_by_spec space_texts space_texts_nonempty (String.length s) s (le_n _))
    as (l & Hl & Heq & Hnone).
  exists l. split; [done |]. split; [done |]. by apply drop_first_none.
Qed.

Lemma rstrip_spec (s : string) :
  exists r, made_of space_texts r
            /\ s = rstrip s +:+ r
            /\ forall w rest, In w space_texts -> rstrip s ≠ rest +:+ w.
Proof.
  unfold rstrip.
  destruct (lstrip_by_spec (map str_rev space_texts)) with (fuel := String.length s)
                                                           (s := str_rev s)
    as (l & Hl & Heq & Hnone).
  { intros w Hin ->. apply in_map_iff in Hin as (w0 & Hw0 & Hin).
    apply (space_texts_nonempty w0 Hin). by rewrite <- (str_rev_involutive w0), Hw0. }
  { by rewrite str_rev_length. }
  set (kept := lstrip_by (map str_rev space_texts) (String.length s) (str_rev s)) in *.
  exists (str_rev l). split; [by apply made_of_rev |]. split.
  - by rewrite <- str_rev_app, <- Heq, str_rev_involutive.
  - intros w rest Hin Heq'. apply (f_equal str_rev) in Heq'.
    rewrite str_rev_involutive, str_rev_app in Heq'.
    apply (drop_first_none _ _ Hnone (str_rev w) (str_rev rest)); [| done].
    by apply in_map.
Qed.

(** X28: [strip] removes white space at both ends and nothing else: the
    text is some characters of [str.isspace], then the stripped text, then
    some characters of [str.isspace], and the stripped text neither starts
    nor ends with such a character. *)
Theorem X28_strip_removes_white_space (s : string) :
  exists l r,
    made_of space_texts l
    /\ made_of space_texts r
    /\ s = l +:+ strip s +:+ r
    /\ (forall w rest, In w space_texts -> strip s ≠ w +:+ rest)
    /\ (forall w rest, In w space_texts -> strip s ≠ rest +:+ w).
Proof.
  unfold strip. destruct (lstrip_spec s) as (l & Hl & Hs & Hstart).
  destruct (rstrip_spec (lstrip s)) as (r & Hr & Hm & Hend).
  exists l, r. split; [done |]. split; [done |]. split; [by rewrite <- Hm |].
  split; [| done]. intros w rest Hin Heq. apply (Hstart w (rest +:+ r) Hin).
  by rewrite Hm, Heq, str_app_assoc.
Qed.

(** X29: a write whose text cannot be encoded destroys the file it fails to
    write.  Inside the workspace, on a target that can be written, a content
    that holds a lone surrogate makes [f.write] raise [UnicodeEncodeError]
    after [open(.., "w")] has run: the call reports the failure, the missing
    ancestors are made and the target is left an empty file, whatever it held
    before. *)
Theorem X29_unencodable_content_truncates (d : list (string * json)) (kind p c : string)
    (fs : FS) :
  let target := names (resolve (joinpath WORKSPACE_DIR p)) in
  kind = "create_file" \/ kind = "edit_file" ->
  action_is d kind p c ->
  encodable c = false ->
  p ≠ "" ->
  workspace `prefix_of` target ->
  writable fs target = true ->
  exists fs1,
    made fs fs1 (parent target)
    /\ execute_action (JObj d) fs
       = (<[target := File ""]> fs1,
          inr (false, "Error performing '" +:+ kind +:+ "' on '" +:+ p +:+ "': "
                        +:+ exc_str (UnicodeEncodeError c))).
Proof.
  intros target Hkind (Htype & Hpath & Hcontent) Henc Hne Hin Hok.
  destruct (mkdir_parents_spec (rev (parent target)) fs) as (fs1 & Hmk & Hmade).
  { rewrite rev_involutive. apply andb_true_iff in Hok as [Hok _].
    by apply andb_true_iff in Hok as [Hok _]. }
  rewrite rev_involutive in Hmade. exists fs1. split; [done |].
  pose proof (open_after_mkdir fs fs1 target Hok Hmade) as Hopen.
  unfold execute_action. rewrite Htype, Hpath, Hcontent, (truthy_str p Hne).
  assert (truthy (JStr kind) = true) as -> by (by destruct Hkind as [-> | ->]).
  cbn [negb orb]. rewrite run_try_except. unfold action_body.
  apply sandbox_test in Hin. rewrite resolve_root. fold target. rewrite Hin.
  assert (py_eq_str (JStr kind) "create_folder" = false) as ->
    by (by destruct Hkind as [-> | ->]).
  assert (py_eq_str (JStr kind) "create_file" || py_eq_str (JStr kind) "edit_file" = true) as ->
    by (by destruct Hkind as [-> | ->]).
  cbn [names]. fold target.
  rewrite run_bind, run_mkdir_p. unfold path_mkdir. rewrite Hmk.
  rewrite run_bind, run_fs_op, Hopen.
  rewrite run_bind. unfold fs_write, write_close. rewrite Henc. reflexivity.
Qed.

(** X30: [create_folder] on a name that is too long fails after it made
    the ancestors.  Inside the workspace, when the last name of the target
    exceeds [NAME_MAX] and the directory above it can be made, the call
    reports "File name too long" as a failure, and the missing ancestors of
    the target were made and stay. *)
Theorem X30_long_name_keeps_ancestors (d : list (string * json)) (p : string) (fs : FS)
    (l : list string) (n : string) :
  let target := names (resolve (joinpath WORKSPACE_DIR p)) in
  dict_get "type" d JNull = JStr "create_folder" ->
  dict_get "path" d JNull = JStr p ->
  p ≠ "" ->
  workspace `prefix_of` target ->
  target = l ++ [n] ->
  name_too_long n = true ->
  path_too_long target = false ->
  fs !! target = None ->
  makeable fs l = true ->
  exists fs1,
    made fs fs1 l
    /\ execute_action (JObj d) fs
       = (fs1, inr (false, "Error performing 'create_folder' on '" +:+ p +:+ "': "
                             +:+ exc_str (FileNameTooLong target))).
Proof.
  intros target Htype Hpath Hne Hin Htarget Hn Hlen Hnone Hok.
  rewrite (create_folder_runs d p fs Htype Hpath Hne Hin). fold target.
  unfold path_mkdir. rewrite Htarget in Hlen, Hnone |- *.
  rewrite rev_unit, mkdir_parents_cons, rev_involutive, Hlen.
  pose proof Hok as Hok'. apply makeable_spec in Hok' as (_ & _ & Hpass).
  destruct (stat fs l) as [[| |]|[|c]] eqn:Hstat.
  - destruct (mkdir_parents_spec (rev l) fs) as (fs1 & -> & Hmade);
      [by rewrite rev_involutive |].
    rewrite rev_involutive in Hmade. exists fs1. split; [done |].
    unfold mkdir_exist_ok. rewrite os_mkdir_snoc, Hlen.
    assert (stat fs1 l = inr Dir) as ->.
    { apply stat_inr. split; [| intros q Hq _]; rewrite Hmade; by rewrite bool_decide_eq_true_2. }
    assert (fs1 !! (l ++ [n]) = None) as ->.
    { rewrite Hmade, bool_decide_eq_false_2; [done | apply prefix_snoc_not]. }
    by rewrite Hn.
  - apply stat_enotdir in Hstat as (q & c & Hq & Hfile).
    destruct (passable_not_file fs q c); [by apply Hpass | done].
  - apply stat_enametoolong in Hstat as (q & Hq & Hqnone & Hlong).
    specialize (Hpass q Hq). unfold passable in Hpass. by rewrite Hqnone, Hlong in Hpass.
  - rewrite Hnone, Hn. exists fs. split; [| done].
    apply stat_inr in Hstat as [Hl Hdirs]. intros q. case_bool_decide as Hq; [| done].
    destruct (decide (q = l)) as [-> | Hql]; [done | by apply Hdirs].
  - apply stat_inr in Hstat as [Hl _].
    destruct (passable_not_file fs l c); [by apply Hpass | done].
Qed.

End Agent.

Lemma C10_type_or_path_missing_witness :
  execute_action sample_workspace sample_repr sample_exc_str
    (JObj [("type", JStr "create_file"); ("content", JStr "x")]) sample_fs
  = (sample_fs, inr (false, "Error: Action type or path missing."))
  /\ execute_action sample_workspace sample_repr sample_exc_str
    (JObj [("type", JStr ""); ("path", JStr "../../etc/passwd")]) sample_fs
  = (sample_fs, inr (false, "Error: Action type or path missing.")).
Proof.
  split.
  - apply (C10_type_or_path_missing sample_workspace sample_repr sample_exc_str).
    right. vm_compute. reflexivity.
  - apply (C10_type_or_path_missing sample_workspace sample_repr sample_exc_str).
    left. vm_compute. reflexivity.
Defined.

(** ** The theorems at sample inputs *)

Abbreviation sample_execute_action :=
  (execute_action sample_workspace sample_repr sample_exc_str).
Abbreviation sample_plan_loop clicks :=
  (plan_loop sample_workspace sample_repr sample_exc_str sample_dumps clicks).
Abbreviation sample_turn clicks :=
  (agent_chat_response sample_workspace sample_repr sample_exc_str sample_dumps
     sample_loads clicks).
Abbreviation sample_parse := (parse_response sample_loads).

Lemma sample_folder_step_succeeds :
  exists msgs fs_k,
    steps_succeed sample_workspace sample_repr sample_exc_str sample_fs
      [step_value "create_folder" "app"] = Some (msgs, fs_k).
Proof.
  assert (H : match steps_succeed sample_workspace sample_repr sample_exc_str sample_fs
                       [step_value "create_folder" "app"] with
              | Some _ => true
              | None => false
              end = true) by (vm_compute; reflexivity).
  destruct (steps_succeed sample_workspace sample_repr sample_exc_str sample_fs
              [step_value "create_folder" "app"]) as [[msgs fs_k]|].
  - by exists msgs, fs_k.
  - discriminate H.
Defined.

Lemma C2_halt_before_step_witness :
  let clicks := fun n => Nat.eqb n 1 in
  let plan := [step_value "create_folder" "app"; step_value "create_file" "app/a.txt"] in
  let r := sample_plan_loop clicks 2 0 plan (sample_state sample_fs) in
  r.2 = inr (true, true)
  /\ attempted r.1 = [step_value "create_folder" "app"]
  /\ last (history r.1)
     = Some (assistant (nl +:+ "Execution halted by user request before step 2.")).
Proof.
  intros clicks plan r.
  destruct sample_folder_step_succeeds as (msgs & fs_k & E).
  destruct (C2_halt_before_step sample_workspace sample_repr sample_exc_str sample_dumps clicks
              [step_value "create_folder" "app"] [] (step_value "create_file" "app/a.txt")
              (sample_state sample_fs) msgs fs_k E)
    as (Hflags & Hatt & _ & Hhist & _).
  - intros j Hj. cbn in Hj. assert (j = 0) as -> by lia. reflexivity.
  - reflexivity.
  - split; [exact Hflags |]. split; [exact Hatt |].
    etrans; [exact (f_equal last Hhist) |]. rewrite app_assoc, last_snoc. reflexivity.
Defined.

Lemma C3_first_failure_stops_plan_witness :
  let plan := [step_value "create_folder" "app"; step_value "create_file" "../x";
               step_value "create_folder" "later"] in
  let echo (k : string) :=
    nl +:+ "--- Executing Step " +:+ k +:+ "/3 ---" +:+ nl
       +:+ "Action:" +:+ nl +:+ "```json" +:+ nl +:+ "{...}" +:+ nl +:+ "```" +:+ nl in
  let r := sample_plan_loop never_clicked 3 0 plan (sample_state sample_fs) in
  r.2 = inr (false, false)
  /\ attempted r.1 = [step_value "create_folder" "app"; step_value "create_file" "../x"]
  /\ history r.1
     = [ assistant (echo "1");
         assistant "Result (Step 1): Folder created/ensured: app";
         assistant (echo "2");
         assistant "Result (Step 2): Error: Path '../x' is outside the allowed workspace.";
         assistant (nl +:+ "Execution failed. Stopping plan.") ]
  /\ map ev_interactive (emitted r.1) = [true; true; true; true; false].
Proof.
  intros plan echo r.
  destruct sample_folder_step_succeeds as (msgs & fs_k & E).
  destruct (C3_first_failure_stops_plan sample_workspace sample_repr sample_exc_str sample_dumps
              never_clicked
              [step_value "create_folder" "app"] [step_value "create_folder" "later"]
              [("type", JStr "create_file"); ("path", JStr "../x")]
              (sample_state sample_fs) msgs fs_k)
    as (fs' & msg & _ & Hflags & Hatt & _).
  - intros n. reflexivity.
  - reflexivity.
  - exact E.
  - intros fs' m.
    rewrite (outside_refused_not_folder sample_workspace sample_repr sample_exc_str _ "../x").
    + discriminate.
    + reflexivity.
    + reflexivity.
    + discriminate.
    + reflexivity.
    + vm_compute. intros [k Hk]. discriminate Hk.
  - split; [exact Hflags |]. split; [exact Hatt |]. split; vm_compute; reflexivity.
Defined.

(** C3 refuted as stated: in the plan [create_folder app; "oops"] the second
    step is the first to fail, and no halt occurs.  The step is no dictionary
    and [execute_action] raises on it: it is attempted, but no result is
    reported for it and no stopping notice follows.  The loop is left by the
    exception and the turn ends on the message of the outer handler. *)
Lemma C3_counterexample :
  let plan := [step_value "create_folder" "app"; JStr "oops"] in
  let echo (k : string) :=
    nl +:+ "--- Executing Step " +:+ k +:+ "/2 ---" +:+ nl
       +:+ "Action:" +:+ nl +:+ "```json" +:+ nl +:+ "{...}" +:+ nl +:+ "```" +:+ nl in
  let loop := sample_plan_loop never_clicked 2 0 plan (sample_state sample_fs) in
  let r := agent_chat_response sample_workspace sample_repr sample_exc_str sample_dumps
             (loads_as stray_step_value) never_clicked (inr (fenced "{}"))
             (sample_state sample_fs) in
  loop.2 = inl (AttributeError (JStr "oops"))
  /\ attempted loop.1 = plan
  /\ history loop.1
     = [ assistant (echo "1");
         assistant "Result (Step 1): Folder created/ensured: app";
         assistant (echo "2") ]
  /\ attempted r.1 = plan
  /\ history r.1
     = [ assistant "Thinking...";
         assistant ("Plan generated with 2 step(s)." +:+ nl
                      +:+ "**Language(s) to be used:** N/A" +:+ nl
                      +:+ "Starting execution..." +:+ nl +:+ "(Click 'Halt' to stop)");
         assistant (echo "1");
         assistant "Result (Step 1): Folder created/ensured: app";
         assistant (echo "2");
         assistant "An unexpected error occurred: object has no attribute 'get'." ]
  /\ map (fun e => (length (ev_history e), ev_interactive e)) (emitted r.1)
     = [(0, false); (1, false); (2, true); (3, true); (4, true); (5, true);
        (6, false); (6, false)].
Proof. repeat split; vm_compute; reflexivity. Qed.



Lemma C5_parse_failures_recovered_witness :
  let accents := str_repeat "é" 300 in
  let padded := utf8 160 +:+ " {oops" +:+ utf8 8232 +:+ nl in
  sample_parse "no block here" = inl no_markers
  /\ sample_parse ("```json" +:+ padded +:+ "```") = inl (JSONDecodeError "{oops")
  /\ sample_parse "```json [1, 2] ```" = inl not_a_response
  /\ (sample_turn never_clicked (inr "no block here") (sample_state sample_fs)).2 = inr tt
  /\ last (history (sample_turn never_clicked (inr accents) (sample_state sample_fs)).1)
     = Some (assistant ("Error: Could not parse the response from the AI." +:+ nl
                          +:+ "(Raw response: " +:+ accents +:+ "...)"))
  /\ last (history (sample_turn never_clicked (inr (str_repeat "xé" 300))
                      (sample_state sample_fs)).1)
     = Some (assistant ("Error: Could not parse the response from the AI." +:+ nl
                          +:+ "(Raw response: " +:+ str_repeat "xé" 250 +:+ "...)")).
Proof.
  intros accents padded.
  pose (at_sample := C5_parse_failures_recovered sample_workspace sample_repr sample_exc_str
                        sample_dumps sample_loads never_clicked).
  split; [| split; [| split; [| split; [| split]]]].
  - apply (proj1 (at_sample "no block here")).
    apply extract_json_none. vm_compute. reflexivity.
  - destruct (proj1 (proj2 (at_sample ("```json" +:+ padded +:+ "```"))) "{oops") as (_ & H & _);
      [vm_compute; reflexivity |].
    apply H. vm_compute. reflexivity.
  - destruct (proj1 (proj2 (at_sample "```json [1, 2] ```")) "[1, 2]") as (_ & _ & H);
      [vm_compute; reflexivity |].
    apply (H (JArr [JInt 1; JInt 2])); [vm_compute; reflexivity |].
    intros d Hd. discriminate Hd.
  - destruct (proj2 (proj2 (at_sample "no block here")) no_markers (sample_state sample_fs))
      as (shown & rest & _ & _ & _ & Hret & _); [vm_compute; reflexivity |]. exact Hret.
  - vm_compute. reflexivity.
  - vm_compute. reflexivity.
Defined.

Lemma C6_empty_or_invalid_plan_witness :
  let r := sample_turn never_clicked (inr (fenced doc_empty_plan)) (sample_state sample_fs) in
  r.2 = inr tt
  /\ history r.1
     = [assistant "Thinking...";
        assistant "The AI generated an empty or invalid plan. Please try again."]
  /\ attempted r.1 = []
  /\ length (emitted r.1) = 4.
Proof.
  intros r.
  destruct (C6_empty_or_invalid_plan sample_workspace sample_repr sample_exc_str sample_dumps
              sample_loads never_clicked (fenced doc_empty_plan)
              [("response_type", JStr "plan"); ("plan_steps", JArr [])]
              (sample_state sample_fs))
    as (Hret & Hhist & _ & Hatt & evs & Hev & Hviews).
  - vm_compute. reflexivity.
  - vm_compute. reflexivity.
  - intros step rest. vm_compute. discriminate.
  - split; [exact Hret |]. split; [exact Hhist |]. split; [exact Hatt |].
    subst r. rewrite Hev. cbn [sample_state emitted app].
    rewrite <- (length_map ev_view), Hviews. reflexivity.
Defined.







(** C1 at its failing input: a [create_folder] whose path is absolute and
    already canonical resolves outside the workspace, yet the call succeeds
    and the directory, absent before, is made; the same path is refused for
    [create_file], with the file system untouched. *)
Theorem C1_create_folder_leaves_workspace :
  let run := execute_action sample_workspace sample_repr sample_exc_str in
  resolve (joinpath (WORKSPACE_DIR sample_workspace) "/tmp/evil") = MkPath Slash ["tmp"; "evil"]
  /\ ¬ sample_workspace `prefix_of` ["tmp"; "evil"]
  /\ sample_fs !! ["tmp"; "evil"] = None
  /\ (run (mk_action "create_folder" "/tmp/evil" "") sample_fs).2
     = inr (true, "Folder created/ensured: /tmp/evil")
  /\ (run (mk_action "create_folder" "/tmp/evil" "") sample_fs).1 !! ["tmp"; "evil"] = Some Dir
  /\ run (mk_action "create_file" "/tmp/evil" "") sample_fs
     = (sample_fs, inr (false, "Error: Path '/tmp/evil' is outside the allowed workspace.")).
Proof.
  assert (Hout : ¬ sample_workspace `prefix_of` ["tmp"; "evil"]).
  { intros [k Hk]. discriminate Hk. }
  intros run.
  split; [vm_compute; reflexivity |].
  split; [exact Hout |].
  split; [vm_compute; reflexivity |].
  split; [vm_compute; reflexivity |].
  split; [vm_compute; reflexivity |].
  apply (outside_refused_not_folder sample_workspace sample_repr sample_exc_str _ "/tmp/evil");
    try (vm_compute; reflexivity); [discriminate |].
  exact Hout.
Qed.

(** ** The further theorems at sample inputs *)

Lemma last_app_two {A} (l : list A) (x y : A) : last (l ++ [x; y]) = Some y.
Proof. change (l ++ [x; y]) with (l ++ [x] ++ [y]). by rewrite app_assoc, last_snoc. Qed.

Lemma X2_execute_action_keeps_tree_witness :
  wf_fs (sample_execute_action (mk_action "create_file" "app/main.txt" "hi") sample_fs).1 = true.
Proof.
  apply (X2_execute_action_keeps_tree sample_workspace sample_repr sample_exc_str).
  vm_compute. reflexivity.
Defined.

Lemma X3_failure_changes_nothing_witness :
  (sample_execute_action (mk_action "create_file" "docs" "x") sample_fs_with_docs).1
  = sample_fs_with_docs.
Proof.
  assert (Hfail : exists msg,
            (sample_execute_action (mk_action "create_file" "docs" "x") sample_fs_with_docs).2
            = inr (false, msg)) by (vm_compute; eexists; reflexivity).
  destruct Hfail as [msg Hfail].
  apply (X3_failure_changes_nothing sample_workspace sample_repr sample_exc_str
           (action_fields "create_file" "docs" "x") sample_fs_with_docs "x" msg).
  - vm_compute. reflexivity.
  - reflexivity.
  - reflexivity.
  - intros p [= <-]. vm_compute. reflexivity.
  - exact Hfail.
Defined.

Lemma X4_non_text_content_truncates_witness :
  exists fs1 msg,
    sample_execute_action
      (JObj [("type", JStr "edit_file"); ("path", JStr "notes"); ("content", JInt 3)])
      sample_fs_with_notes
    = (<[sample_workspace ++ ["notes"] := File ""]> fs1, inr (false, msg)).
Proof.
  destruct (X4_non_text_content_truncates sample_workspace sample_repr sample_exc_str
              [("type", JStr "edit_file"); ("path", JStr "notes"); ("content", JInt 3)]
              "edit_file" "notes" sample_fs_with_notes) as (fs1 & _ & Hrun).
  - by right.
  - reflexivity.
  - reflexivity.
  - intros c. discriminate.
  - discriminate.
  - by exists ["notes"].
  - vm_compute. reflexivity.
  - exists fs1. eexists. exact Hrun.
Defined.

Lemma X5_nothing_outside_workspace_witness :
  (sample_execute_action (mk_action "create_file" "app/main.txt" "hi") sample_fs).1 !! ["tmp"]
  = sample_fs !! ["tmp"].
Proof.
  apply (X5_nothing_outside_workspace sample_workspace sample_repr sample_exc_str).
  - vm_compute. reflexivity.
  - vm_compute. reflexivity.
  - intros [k Hk]. discriminate Hk.
Defined.



Lemma X13_turn_stays_in_workspace_witness :
  let r := sample_turn never_clicked (inr (fenced doc_folder_plan)) (sample_state sample_fs) in
  disk r.1 !! ["tmp"] = Some Dir /\ is_dir (disk r.1) sample_workspace = true.
Proof.
  apply (X13_turn_stays_in_workspace sample_workspace sample_repr sample_exc_str sample_dumps
           sample_loads never_clicked (inr (fenced doc_folder_plan)) (sample_state sample_fs)
           ["tmp"]).
  - vm_compute. reflexivity.
  - vm_compute. reflexivity.
  - intros [k Hk]. discriminate Hk.
Defined.

Lemma X15_informational_answer_witness :
  let r := agent_chat_response sample_workspace sample_repr sample_exc_str sample_dumps
             (loads_as hello_value) never_clicked (inr (fenced "{}")) (sample_state sample_fs) in
  r.2 = inr tt
  /\ history r.1 = [assistant "Thinking..."; assistant "Hello"]
  /\ attempted r.1 = [].
Proof.
  destruct (X15_informational_answer sample_workspace sample_repr sample_exc_str sample_dumps
              (loads_as hello_value) never_clicked (fenced "{}")
              [("response_type", JStr "informational"); ("message", JStr "Hello")]
              (sample_state sample_fs)) as (Hret & Hhist & _ & Hatt & _).
  - vm_compute. reflexivity.
  - reflexivity.
  - by repeat split.
Defined.

Lemma X16_unknown_response_type_witness :
  let r := agent_chat_response sample_workspace sample_repr sample_exc_str sample_dumps
             (loads_as (JObj [("response_type", JStr "chat")])) never_clicked
             (inr (fenced "{}")) (sample_state sample_fs) in
  r.2 = inr tt
  /\ history r.1 = [assistant "Thinking...";
                    assistant "Received an unknown response type ('chat') from the AI."]
  /\ attempted r.1 = [].
Proof.
  destruct (X16_unknown_response_type sample_workspace sample_repr sample_exc_str sample_dumps
              (loads_as (JObj [("response_type", JStr "chat")])) never_clicked (fenced "{}")
              [("response_type", JStr "chat")] (sample_state sample_fs))
    as (Hret & Hhist & _ & Hatt & _).
  - vm_compute. reflexivity.
  - discriminate.
  - discriminate.
  - by repeat split.
Defined.

Lemma X17_language_not_a_string_witness :
  let r := agent_chat_response sample_workspace sample_repr sample_exc_str sample_dumps
             (loads_as bad_language_value) never_clicked (inr (fenced "{}"))
             (sample_state sample_fs) in
  r.2 = inr tt
  /\ history r.1 = [assistant "Thinking...";
                    assistant "An unexpected error occurred: expected str."]
  /\ attempted r.1 = [].
Proof.
  destruct (X17_language_not_a_string sample_workspace sample_repr sample_exc_str sample_dumps
              (loads_as bad_language_value) never_clicked (fenced "{}")
              [("response_type", JStr "plan");
               ("plan_steps", JArr [step_value "create_folder" "app"]);
               ("languages_used", JArr [JStr "Python"; JInt 3])]
              (step_value "create_folder" "app") [] [JStr "Python"] [] (JInt 3)
              (sample_state sample_fs)) as (Hret & Hhist & _ & Hatt & _).
  - vm_compute. reflexivity.
  - reflexivity.
  - reflexivity.
  - reflexivity.
  - repeat constructor. by exists "Python".
  - intros t. discriminate.
  - by repeat split.
Defined.

Lemma X18_step_not_a_dictionary_witness :
  let r := agent_chat_response sample_workspace sample_repr sample_exc_str sample_dumps
             (loads_as stray_step_value) never_clicked (inr (fenced "{}"))
             (sample_state sample_fs) in
  r.2 = inr tt
  /\ attempted r.1 = [step_value "create_folder" "app"; JStr "oops"]
  /\ last (history r.1)
     = Some (assistant "An unexpected error occurred: object has no attribute 'get'.").
Proof.
  destruct sample_folder_step_succeeds as (msgs & fs_k & E).
  destruct (X18_step_not_a_dictionary sample_workspace sample_repr sample_exc_str sample_dumps
              (loads_as stray_step_value) never_clicked (fenced "{}")
              [("response_type", JStr "plan");
               ("plan_steps", JArr [step_value "create_folder" "app"; JStr "oops"])]
              [step_value "create_folder" "app"] [] (JStr "oops") "N/A"
              (sample_state sample_fs) msgs fs_k) as (Hret & Hatt & _ & Hhist).
  - vm_compute. reflexivity.
  - reflexivity.
  - reflexivity.
  - reflexivity.
  - reflexivity.
  - intros n. reflexivity.
  - exact E.
  - split; [exact Hret |]. split; [exact Hatt |].
    etrans; [exact (f_equal last Hhist) |].
    rewrite !app_assoc, last_app_two. reflexivity.
Defined.


Lemma X22_snapshot_lists_the_tree_witness :
  sample_workspace ++ ["docs"] ∈ sorted (rglob sample_fs_with_docs sample_workspace)
  /\ ¬ sample_workspace ∈ sorted (rglob sample_fs_with_docs sample_workspace).
Proof.
  assert (Hwf : wf_fs sample_fs_with_docs = true) by (vm_compute; reflexivity).
  destruct (X22_snapshot_lists_the_tree sample_fs_with_docs sample_workspace Hwf)
    as (Hitems & _ & _).
  split.
  - apply Hitems. split; [| split].
    + vm_compute. by eexists.
    + by exists ["docs"].
    + discriminate.
  - intros Hin. apply Hitems in Hin as (_ & _ & Hne). by apply Hne.
Defined.

Lemma X23_snapshot_empty_message_witness :
  get_workspace_structure sample_fs sample_workspace = "(Workspace 'agent_workspace' is empty)"
  /\ sample_fs !! (sample_workspace ++ ["app"]) = None.
Proof.
  assert (Hempty : get_workspace_structure sample_fs sample_workspace
                   = "(Workspace 'agent_workspace' is empty)") by (vm_compute; reflexivity).
  split; [exact Hempty |].
  apply (proj1 (X23_snapshot_empty_message sample_fs sample_workspace
                  ltac:(vm_compute; reflexivity))).
  - exact Hempty.
  - by exists ["app"].
  - discriminate.
Defined.

Lemma X24_snapshot_after_a_step_witness :
  sample_workspace ++ ["app"; "main.txt"]
    ∈ sorted (rglob (sample_execute_action (mk_action "create_file" "app/main.txt" "hi")
                       sample_fs).1
                sample_workspace).
Proof.
  destruct (X24_snapshot_after_a_step sample_workspace sample_repr sample_exc_str
              (action_fields "create_file" "app/main.txt" "hi") sample_fs) as [_ Hnew].
  - vm_compute. reflexivity.
  - apply (Hnew "app/main.txt" "File Created: app/main.txt").
    + reflexivity.
    + vm_compute. reflexivity.
    + by exists ["app"; "main.txt"].
    + discriminate.
Defined.


Lemma X27_traversal_refused_witness :
  sample_execute_action (step_value "create_folder" "../../etc") sample_fs
  = (sample_fs, inr (false, "Error: Path '../../etc' is outside the allowed workspace."))
  /\ sample_execute_action (mk_action "create_file" "/tmp/x" "data") sample_fs
     = (sample_fs, inr (false, "Error: Path '/tmp/x' is outside the allowed workspace.")).
Proof.
  split.
  - apply (X27_traversal_refused sample_workspace sample_repr sample_exc_str
             [("type", JStr "create_folder"); ("path", JStr "../../etc")] "../../etc" sample_fs).
    + reflexivity.
    + discriminate.
    + reflexivity.
    + vm_compute. intros [k Hk]. discriminate Hk.
    + right. reflexivity.
  - apply (X27_traversal_refused sample_workspace sample_repr sample_exc_str
             (action_fields "create_file" "/tmp/x" "data") "/tmp/x" sample_fs).
    + reflexivity.
    + discriminate.
    + reflexivity.
    + vm_compute. intros [k Hk]. discriminate Hk.
    + left. reflexivity.
Defined.

Lemma X29_unencodable_content_truncates_witness :
  let r := sample_execute_action (mk_action "edit_file" "notes" lone_surrogate)
             sample_fs_with_notes in
  sample_fs_with_notes !! (sample_workspace ++ ["notes"]) = Some (File "todo")
  /\ r.2 = inr (false, "Error performing 'edit_file' on 'notes': "
                         +:+ "'utf-8' codec can't encode character: surrogates not allowed")
  /\ r.1 !! (sample_workspace ++ ["notes"]) = Some (File "").
Proof.
  intros r. subst r.
  destruct (X29_unencodable_content_truncates sample_workspace sample_repr sample_exc_str
              (action_fields "edit_file" "notes" lone_surrogate) "edit_file" "notes"
              lone_surrogate sample_fs_with_notes) as (fs1 & _ & Hrun).
  - by right.
  - by repeat split.
  - vm_compute. reflexivity.
  - discriminate.
  - by exists ["notes"].
  - vm_compute. reflexivity.
  - split; [vm_compute; reflexivity |]. unfold mk_action. rewrite Hrun.
    split; [reflexivity |]. apply lookup_insert_eq.
Defined.

Lemma X30_long_name_keeps_ancestors_witness :
  let p := "ok/" +:+ long_name in
  let r := sample_execute_action (step_value "create_folder" p) sample_fs in
  sample_fs !! (sample_workspace ++ ["ok"]) = None
  /\ r.2 = inr (false, "Error performing 'create_folder' on '" +:+ p +:+ "': "
                         +:+ "[Errno 36] File name too long: '/home/user/agent_workspace/"
                         +:+ p +:+ "'")
  /\ r.1 !! (sample_workspace ++ ["ok"]) = Some Dir
  /\ r.1 !! (sample_workspace ++ ["ok"; long_name]) = None.
Proof.
  intros p r. subst r.
  destruct (X30_long_name_keeps_ancestors sample_workspace sample_repr sample_exc_str
              [("type", JStr "create_folder"); ("path", JStr p)] p sample_fs
              (sample_workspace ++ ["ok"]) long_name) as (fs1 & Hmade & Hrun).
  - reflexivity.
  - reflexivity.
  - discriminate.
  - exists ["ok"; long_name]. vm_compute. reflexivity.
  - vm_compute. reflexivity.
  - vm_compute. reflexivity.
  - vm_compute. reflexivity.
  - vm_compute. reflexivity.
  - vm_compute. reflexivity.
  - split; [vm_compute; reflexivity |]. unfold step_value. rewrite Hrun. cbn [fst snd].
    split; [vm_compute; reflexivity |]. rewrite !Hmade. split.
    + by rewrite bool_decide_eq_true_2.
    + rewrite bool_decide_eq_false_2; [vm_compute; reflexivity |].
      intros [k Hk]. apply (f_equal length) in Hk. rewrite !length_app in Hk.
      cbn in Hk. lia.
Defined.
